(** * V10 scalping bot: protocol client, risk gate and order lifecycle

    A shallow embedding of three components of the bot,
      - [src/websocket_client.py] and the [RateLimiter] of [src/utils.py],
      - [src/risk_manager.py],
      - [src/trade_executor.py],
    together with the properties their specification states about them.

    Conventions of the embedding.
      - Python [float]s (money, scores, UNIX timestamps in seconds) are exact
        rationals [Q]; comparisons are the boolean ones of [QArith].  The
        rounding error of float arithmetic is not modelled: [round] and the
        [f] format round the exact value.  Where that error decides an
        outcome of the code (a sum exactly at a limit, a product halfway
        between two cents), the statements on the recommended stake and
        on the pause after a loss streak are bounds and strict comparisons
        that hold either way.
      - Python [int]s are [Z]; they do not wrap.
      - Objects mutated in place become explicit state passing.  The clock
        ([get_current_timestamp()]) is an argument of every operation that
        reads it.
      - An [await] splits a coroutine in the part before and the part after
        the suspension; what the environment answers is an argument.
      - Logging is not modelled. *)

From Stdlib Require Import ZArith QArith Qround Qminmax Qabs Lqa String Ascii List
  Sorted Lia DecimalString DecimalZ DecimalPos.
From stdpp Require Import gmap strings list.
Import ListNotations.

(** ** Python runtime helpers *)

Module Py.

Local Open Scope Q_scope.

(** [a < b] on floats. *)
Definition Qltb (a b : Q) : bool := negb (Qle_bool b a).

(** [a >= b] and [a > b], written as the source writes them. *)
Definition Qgeb (a b : Q) : bool := Qle_bool b a.
Definition Qgtb (a b : Q) : bool := Qltb b a.

Definition inject (z : Z) : Q := inject_Z z.

(** Nearest integer, ties to the even one: the rounding of [round] and of
    the [f] format. *)
Definition round_half_even (q : Q) : Z :=
  let f := Qfloor q in
  let r := q - inject f in
  if Qltb r (1 # 2) then f
  else if Qltb (1 # 2) r then (f + 1)%Z
  else if Z.even f then f else (f + 1)%Z.

Definition pow10 (d : nat) : Z := (10 ^ Z.of_nat d)%Z.

(** [round(q, d)]. *)
Definition round (q : Q) (d : nat) : Q :=
  Qred (inject (round_half_even (q * inject (pow10 d))) / inject (pow10 d)).

(** [str(z)] for an int. *)
Definition str_int (z : Z) : string := NilZero.string_of_int (Z.to_int z).

(** Left padding with zeros up to a width. *)
Fixpoint zeros (n : nat) : string :=
  match n with O => EmptyString | S k => String "0"%char (zeros k) end.

Definition pad_left (w : nat) (s : string) : string :=
  (zeros (w - String.length s) ++ s)%string.

(** [f"{z:04d}"] (non-negative [z]). *)
Definition fmt_04d (z : Z) : string := pad_left 4 (str_int z).

(** [f"{q:.<d>f}"]. *)
Definition fmt_f (d : nat) (q : Q) : string :=
  let n := round_half_even (Qabs q * inject (pow10 d)) in
  let ip := (n / pow10 d)%Z in
  let fp := (n mod pow10 d)%Z in
  ((if Qltb q 0 then "-" else "") ++ str_int ip ++
   (match d with O => "" | _ => "." ++ pad_left d (str_int fp) end))%string.

(** [int(q)]: truncation towards zero. *)
Definition int_of (q : Q) : Z :=
  if Qltb q 0 then (- Qfloor (- q))%Z else Qfloor q.

End Py.

(** ** utils.RateLimiter *)

Module RateLimiter.

Local Open Scope Q_scope.

Record t := mk {
  max_calls : Z;
  time_window : Z;
  calls : list Q
}.

(** [RateLimiter(max_calls, time_window)]. *)
Definition init (mc tw : Z) : t := mk mc tw [].

(** [can_proceed]: drops the calls that left the window, then compares. *)
Definition can_proceed (now : Q) (rl : t) : bool * t :=
  let kept :=
    List.filter (fun call_time => Py.Qltb (now - call_time) (Py.inject (time_window rl)))
                (calls rl) in
  ((Z.of_nat (List.length kept) <? max_calls rl)%Z,
   mk (max_calls rl) (time_window rl) kept).

(** [record_call]. *)
Definition record_call (now : Q) (rl : t) : t :=
  mk (max_calls rl) (time_window rl) (calls rl ++ [now]).

End RateLimiter.


(** ** websocket_client.DerivWebSocketClient *)

Module WebSocket.

Local Open Scope Z_scope.

(** An inbound frame after [json.loads]: the echoed [req_id], if the frame
    has one, its [msg_type], if it has one, and the rest of the message. *)
Record Frame := mkFrame {
  req_id : option Z;
  msg_type : option string;
  content : string
}.

(** An outbound payload, before [req_id] is added to it. *)
Definition Payload := string.

(** An [asyncio.Future] created by [send_request]. *)
Inductive Future :=
| Pending
| Result (data : Frame)
| Cancelled.

Definition done (f : Future) : bool :=
  match f with Pending => false | _ => true end.

Record ConnectionState := mkState {
  connected : bool;
  authenticated : bool;
  last_ping : Q;
  reconnect_attempts : Z;
  last_error : option string
}.

(** The client object.  [websocket] is [None] or the open socket, kept as
    the frames written to it so far.  Futures live in a heap ([futures])
    addressed by position: the pending table and the coroutine that awaits
    a future share its address. *)
Record Client := mkClient {
  websocket : option (list (Z * Payload));
  state : ConnectionState;
  message_handlers : gset string;
  request_id_counter : Z;
  pending_requests : gmap Z nat;
  futures : list Future;
  rate_limiter : RateLimiter.t;
  heartbeat_task : option bool;
  subscriptions : gset string
}.

(** [__init__]. *)
Definition init : Client :=
  mkClient None (mkState false false 0%Q 0 None) ∅ 0 ∅ []
           (RateLimiter.init 30 60) None ∅.

Definition set_connected (b : bool) (s : ConnectionState) : ConnectionState :=
  mkState b (authenticated s) (last_ping s) (reconnect_attempts s) (last_error s).

(** [connect], up to the two [create_task] calls: the transport opened. *)
Definition connect_opened (c : Client) : Client :=
  mkClient (Some [])
           (mkState true (authenticated (state c)) (last_ping (state c)) 0
                    (last_error (state c)))
           (message_handlers c) (request_id_counter c) (pending_requests c)
           (futures c) (rate_limiter c) (Some true) (subscriptions c).

(** [future.cancel()] guarded by [if not future.done()]. *)
Definition cancel (fs : list Future) (a : nat) : list Future :=
  match fs !! a with
  | Some f => if done f then fs else <[a := Cancelled]> fs
  | None => fs
  end.

(** [disconnect], with a [websocket.close()] that returns. *)
Definition disconnect (c : Client) : Client :=
  mkClient None
           (mkState false false (last_ping (state c))
                    (reconnect_attempts (state c)) (last_error (state c)))
           (message_handlers c) (request_id_counter c)
           ∅
           (fold_left cancel (map_to_list (pending_requests c)).*2 (futures c))
           (rate_limiter c)
           (match heartbeat_task c with Some _ => Some false | None => None end)
           (subscriptions c).

(** [_message_listener], the two [except] branches that end the loop: the
    connection dropped. *)
Definition listener_closed (c : Client) : Client :=
  mkClient (websocket c) (set_connected false (state c))
           (message_handlers c) (request_id_counter c) (pending_requests c)
           (futures c) (rate_limiter c) (heartbeat_task c) (subscriptions c).

(** [_handle_message]: the new client and the handler the frame was
    dispatched to, if any. *)
Definition _handle_message (data : Frame) (c : Client) : Client * option string :=
  match req_id data ≫= (fun r => (fun a => (r, a)) <$> pending_requests c !! r) with
  | Some (r, a) =>
      (mkClient (websocket c) (state c) (message_handlers c)
                (request_id_counter c)
                (delete r (pending_requests c))
                (match futures c !! a with
                 | Some f => if done f then futures c else <[a := Result data]> (futures c)
                 | None => futures c
                 end)
                (rate_limiter c) (heartbeat_task c) (subscriptions c),
       None)
  | None =>
      (c, match msg_type data with
          | Some m => if decide (m ∈ message_handlers c) then Some m else None
          | None => None
          end)
  end.

(** How far [send_request] gets before it returns or suspends. *)
Inductive Started :=
| NotConnected                    (* returned [None] at once *)
| RateLimitExceeded (slept : Q)   (* slept, then returned [None] *)
| SendRaised (r : Z)              (* [websocket.send] raised: returned [None] *)
| Suspended (r : Z) (a : nat).    (* sent; awaiting future [a] under id [r] *)

(** [send_request] up to [await asyncio.wait_for(future, ...)].  [now] is
    the clock read by [can_proceed], [sent_at] the one read by
    [record_call], [send_ok] whether [websocket.send] succeeded. *)
Definition send_request (now sent_at : Q) (send_ok : bool) (request : Payload)
    (c : Client) : Started * Client :=
  match websocket c with
  | Some sock =>
      if negb (connected (state c)) then (NotConnected, c)
      else
        let '(ok, rl) := RateLimiter.can_proceed now (rate_limiter c) in
        if negb ok then
          (RateLimitExceeded 1%Q,
           mkClient (websocket c) (state c) (message_handlers c)
                    (request_id_counter c) (pending_requests c) (futures c)
                    rl (heartbeat_task c) (subscriptions c))
        else
          let r := request_id_counter c + 1 in
          let a := length (futures c) in
          if send_ok then
            (Suspended r a,
             mkClient (Some (sock ++ [(r, request)])) (state c)
                      (message_handlers c) r
                      (<[r := a]> (pending_requests c))
                      (futures c ++ [Pending])
                      (RateLimiter.record_call sent_at rl)
                      (heartbeat_task c) (subscriptions c))
          else
            (SendRaised r,
             mkClient (websocket c) (state c) (message_handlers c) r
                      (delete r (<[r := a]> (pending_requests c)))
                      (futures c ++ [Pending])
                      rl (heartbeat_task c) (subscriptions c))
  | None => (NotConnected, c)
  end.

(** How a suspended [send_request] ends. *)
Inductive Finished :=
| Returned (response : option Frame)
| RaisedCancelledError
| StillWaiting.

(** [send_request] after the [await], for the call that was given id [r]
    and future [a].  A future with a result makes the call return it; a
    cancelled future raises [CancelledError] through the call (it is not
    an [Exception]); on a pending future nothing happens unless the
    timeout fired, and then [wait_for] cancels the future, the call pops
    its id and returns [None]. *)
Definition send_request_resume (timed_out : bool) (r : Z) (a : nat)
    (c : Client) : Finished * Client :=
  match futures c !! a with
  | Some (Result data) => (Returned (Some data), c)
  | Some Cancelled => (RaisedCancelledError, c)
  | Some Pending =>
      if timed_out then
        (Returned None,
         mkClient (websocket c) (state c) (message_handlers c)
                  (request_id_counter c)
                  (delete r (pending_requests c))
                  (<[a := Cancelled]> (futures c))
                  (rate_limiter c) (heartbeat_task c) (subscriptions c))
      else (StillWaiting, c)
  | None => (StillWaiting, c)
  end.

(** *** The client with its suspended callers

    A [send_request] coroutine that reached its [await] keeps its id and
    its future in local variables; [calls] lists them, oldest first. *)
Record System := mkSystem {
  client : Client;
  calls : list (Z * nat)
}.

Definition init_system : System := mkSystem init [].

(** What can happen next. *)
Inductive Event :=
| ERequest (now sent_at : Q) (send_ok : bool) (request : Payload)
| EFrame (data : Frame)          (* the listener read a frame *)
| ETimeout (i : nat)             (* the timeout of call number [i] fired *)
| EClosed                        (* the listener saw the connection close *)
| EDisconnect                    (* [disconnect()] *)
| EOpened.                       (* [connect()] opened the transport *)

Definition step (e : Event) (s : System) : System :=
  match e with
  | ERequest now sent_at send_ok request =>
      let '(st, c) := send_request now sent_at send_ok request (client s) in
      mkSystem c (match st with
                  | Suspended r a => calls s ++ [(r, a)]
                  | _ => calls s
                  end)
  | EFrame data => mkSystem (_handle_message data (client s)).1 (calls s)
  | ETimeout i =>
      match calls s !! i with
      | Some (r, a) => mkSystem (send_request_resume true r a (client s)).2 (calls s)
      | None => s
      end
  | EClosed => mkSystem (listener_closed (client s)) (calls s)
  | EDisconnect => mkSystem (disconnect (client s)) (calls s)
  | EOpened => mkSystem (connect_opened (client s)) (calls s)
  end.

Definition run (es : list Event) (s : System) : System :=
  fold_left (fun s e => step e s) es s.

(** The correlation id a step hands out, if it hands one out. *)
Definition issued_by (e : Event) (s : System) : list Z :=
  match e with
  | ERequest now sent_at send_ok request =>
      match (send_request now sent_at send_ok request (client s)).1 with
      | Suspended r _ | SendRaised r => [r]
      | _ => []
      end
  | _ => []
  end.

(** The correlation ids handed out along a run, in order. *)
Fixpoint issued (es : list Event) (s : System) : list Z :=
  match es with
  | [] => []
  | e :: es' => issued_by e s ++ issued es' (step e s)
  end.

End WebSocket.

(** ** config.settings *)

Module Settings.

Record TradingConfig := mkTradingConfig {
  symbol : string;
  max_stake : Q;
  min_confidence : Q;
  rsi_period : Z;
  rsi_overbought : Q;
  rsi_oversold : Q
}.

Record RiskConfig := mkRiskConfig {
  max_daily_loss : Q;
  max_consecutive_losses : Z;
  max_trades_per_hour : Z;
  max_trades_per_day : Z;
  cooldown_minutes : Z;
  min_balance_to_trade : Q;
  max_drawdown_percent : Q
}.

(** The defaults of the two dataclasses. *)
Definition default_trading : TradingConfig :=
  mkTradingConfig "1HZ10V" 0.25 0.6 14 70 30.

Definition default_risk : RiskConfig :=
  mkRiskConfig 1.5 5 15 100 60 2 40.

End Settings.

(** ** signal_generator: the signal record *)

Module Signal.

Module SignalType.
Inductive t := CALL | PUT.
Definition value (x : t) : string :=
  match x with CALL => "CALL" | PUT => "PUT" end.
End SignalType.

Module SignalStrength.
Inductive t := WEAK | MODERATE | STRONG | VERY_STRONG.
End SignalStrength.

Record TradingSignal := mkSignal {
  signal_type : SignalType.t;
  confidence : Q;
  strength : SignalStrength.t;
  duration : Z;
  entry_price : Q;
  timestamp : Q;
  strategy : string;
  rsi_value : Q
}.

End Signal.

(** ** risk_manager *)

Module Risk.

Import Py.
Local Open Scope Q_scope.

Module RiskLevel.
Inductive t := LOW | MODERATE | HIGH | EXTREME.
End RiskLevel.

Module TradeDecision.
Inductive t := APPROVED | REJECTED | REDUCED.
End TradeDecision.

Record TradeRisk := mkTradeRisk {
  decision : TradeDecision.t;
  recommended_stake : Q;
  risk_level : RiskLevel.t;
  risk_score : Q;
  rejection_reasons : list string;
  warnings : list string
}.

Record TradingStats := mkStats {
  total_trades : Z;
  winning_trades : Z;
  losing_trades : Z;
  consecutive_losses : Z;
  consecutive_wins : Z;
  max_consecutive_losses : Z;
  total_profit_loss : Q;
  daily_profit_loss : Q;
  hourly_trades : Z;
  last_trade_time : Q
}.

Definition new_stats : TradingStats := mkStats 0 0 0 0 0 0 0 0 0 0.

Record RiskManager := mkRiskManager {
  risk_config : Settings.RiskConfig;
  trading_config : Settings.TradingConfig;
  stats : TradingStats;
  initial_balance : Q;
  current_balance : Q;
  peak_balance : Q;
  daily_start_balance : Q;
  daily_reset_time : Q;
  hourly_trade_count : Z;
  hourly_reset_time : Q;
  trading_paused : bool;
  pause_reason : string;
  pause_until : Q
}.

(** The one exception the arithmetic of the assessment can raise. *)
Inductive Exception := ZeroDivisionError.

Definition str (e : Exception) : string :=
  match e with ZeroDivisionError => "float division by zero" end.

(** *** Field updates *)

Definition with_stats (st : TradingStats) (rm : RiskManager) : RiskManager :=
  mkRiskManager (risk_config rm) (trading_config rm) st (initial_balance rm)
    (current_balance rm) (peak_balance rm) (daily_start_balance rm)
    (daily_reset_time rm) (hourly_trade_count rm) (hourly_reset_time rm)
    (trading_paused rm) (pause_reason rm) (pause_until rm).

Definition with_current_balance (b : Q) (rm : RiskManager) : RiskManager :=
  mkRiskManager (risk_config rm) (trading_config rm) (stats rm) (initial_balance rm)
    b (peak_balance rm) (daily_start_balance rm)
    (daily_reset_time rm) (hourly_trade_count rm) (hourly_reset_time rm)
    (trading_paused rm) (pause_reason rm) (pause_until rm).

Definition with_peak_balance (b : Q) (rm : RiskManager) : RiskManager :=
  mkRiskManager (risk_config rm) (trading_config rm) (stats rm) (initial_balance rm)
    (current_balance rm) b (daily_start_balance rm)
    (daily_reset_time rm) (hourly_trade_count rm) (hourly_reset_time rm)
    (trading_paused rm) (pause_reason rm) (pause_until rm).

Definition with_hourly (n : Z) (reset : Q) (rm : RiskManager) : RiskManager :=
  mkRiskManager (risk_config rm) (trading_config rm) (stats rm) (initial_balance rm)
    (current_balance rm) (peak_balance rm) (daily_start_balance rm)
    (daily_reset_time rm) n reset
    (trading_paused rm) (pause_reason rm) (pause_until rm).

Definition with_pause (p : bool) (reason : string) (until : Q) (rm : RiskManager)
    : RiskManager :=
  mkRiskManager (risk_config rm) (trading_config rm) (stats rm) (initial_balance rm)
    (current_balance rm) (peak_balance rm) (daily_start_balance rm)
    (daily_reset_time rm) (hourly_trade_count rm) (hourly_reset_time rm)
    p reason until.

Definition with_daily_profit_loss (v : Q) (st : TradingStats) : TradingStats :=
  mkStats (total_trades st) (winning_trades st) (losing_trades st)
    (consecutive_losses st) (consecutive_wins st) (max_consecutive_losses st)
    (total_profit_loss st) v (hourly_trades st) (last_trade_time st).

(** *** Time windows *)

(** [_get_daily_reset_time]: the next midnight UTC after [now]. *)
Definition _get_daily_reset_time (now : Q) : Q :=
  inject ((Qfloor (now / 86400) + 1) * 86400)%Z.

(** [_get_hourly_reset_time]: the next top of the hour after [now]. *)
Definition _get_hourly_reset_time (now : Q) : Q :=
  inject ((Qfloor (now / 3600) + 1) * 3600)%Z.

(** [__init__] with no persisted data to load. *)
Definition init (rc : Settings.RiskConfig) (tc : Settings.TradingConfig) (now : Q)
    : RiskManager :=
  mkRiskManager rc tc new_stats 0 0 0 0 (_get_daily_reset_time now) 0
    (_get_hourly_reset_time now) false "" 0.

Definition _update_peak_balance (rm : RiskManager) : RiskManager :=
  if Qgtb (current_balance rm) (peak_balance rm)
  then with_peak_balance (current_balance rm) rm
  else rm.

Definition _check_daily_reset (now : Q) (rm : RiskManager) : RiskManager :=
  if Qgeb now (daily_reset_time rm) then
    mkRiskManager (risk_config rm) (trading_config rm)
      (with_daily_profit_loss 0 (stats rm)) (initial_balance rm)
      (current_balance rm) (peak_balance rm) (current_balance rm)
      (_get_daily_reset_time now) (hourly_trade_count rm) (hourly_reset_time rm)
      (trading_paused rm) (pause_reason rm) (pause_until rm)
  else rm.

Definition _check_hourly_reset (now : Q) (rm : RiskManager) : RiskManager :=
  if Qgeb now (hourly_reset_time rm)
  then with_hourly 0 (_get_hourly_reset_time now) rm
  else rm.

Definition _get_daily_trade_count (rm : RiskManager) : Z :=
  total_trades (stats rm).

Definition _get_seconds_until_daily_reset (now : Q) (rm : RiskManager) : Z :=
  int_of (daily_reset_time rm - now).

Definition _pause_trading (reason : string) (duration_seconds : Z) (now : Q)
    (rm : RiskManager) : RiskManager :=
  with_pause true reason (now + inject duration_seconds) rm.

Definition _resume_trading (rm : RiskManager) : RiskManager :=
  with_pause false "" 0 rm.

Definition force_resume_trading (rm : RiskManager) : RiskManager :=
  if trading_paused rm then _resume_trading rm else rm.

(** [((peak - current) / peak) * 100]. *)
Definition drawdown_percent (rm : RiskManager) : Q :=
  ((peak_balance rm - current_balance rm) / peak_balance rm) * 100.

(** *** The six assessments

    Each returns its score, its warnings and its rejections. *)

Definition Assessment : Type := Q * list string * list string.

Definition _assess_balance_risk (rm : RiskManager) : Exception + Assessment :=
  let bal := current_balance rm in
  let floor_ := Settings.min_balance_to_trade (risk_config rm) in
  let '(risk_score, warnings, rejections) :=
    if Qltb bal floor_ then
      (0 + 50, [],
       ["Balance too low: $" ++ fmt_f 2 bal ++ " < $" ++ fmt_f 2 floor_]%string)
    else if Qltb bal (floor_ * 1.5) then
      (0 + 20, ["Balance approaching minimum threshold"], [])
    else (0, [], []) in
  if Qeq_bool bal 0 then inl ZeroDivisionError
  else
    let stake_percentage :=
      (Settings.max_stake (trading_config rm) / bal) * 100 in
    if Qgtb stake_percentage 10 then
      inr (risk_score + Qmin (stake_percentage - 10) 25,
           warnings ++ [("High stake percentage: " ++ fmt_f 1 stake_percentage
                         ++ "% of balance")%string],
           rejections)
    else inr (risk_score, warnings, rejections).

Definition _assess_daily_risk (rm : RiskManager) : Assessment :=
  let pl := daily_profit_loss (stats rm) in
  let limit := Settings.max_daily_loss (risk_config rm) in
  let '(risk_score, warnings, rejections) :=
    if Qgeb (Qabs pl) limit then
      if Qltb pl 0 then
        (0 + 50, [],
         [("Daily loss limit reached: $" ++ fmt_f 2 (Qabs pl))%string])
      else (0, [], [])
    else if Qgeb (Qabs pl) (limit * 0.8) then
      (0 + 30, ["Approaching daily loss limit"], [])
    else if Qgeb (Qabs pl) (limit * 0.6) then
      (0 + 15, ["60% of daily loss limit used"], [])
    else (0, [], []) in
  let daily_trades := _get_daily_trade_count rm in
  let per_day := Settings.max_trades_per_day (risk_config rm) in
  if (daily_trades >=? per_day)%Z then
    (risk_score + 30, warnings,
     rejections ++ [("Daily trade limit reached: " ++ str_int daily_trades)%string])
  else if Qgeb (inject daily_trades) (inject per_day * 0.9) then
    (risk_score + 15, warnings ++ ["Approaching daily trade limit"], rejections)
  else (risk_score, warnings, rejections).

Definition _assess_consecutive_risk (rm : RiskManager) : Assessment :=
  let n := consecutive_losses (stats rm) in
  let limit := Settings.max_consecutive_losses (risk_config rm) in
  if (n >=? limit)%Z then
    (0 + 40, [],
     [("Consecutive loss limit reached: " ++ str_int n)%string])
  else if (n >=? limit - 1)%Z then
    (0 + 25, ["One loss away from consecutive loss limit"], [])
  else if (n >=? limit - 2)%Z then
    (0 + 15, ["Approaching consecutive loss limit"], [])
  else (0, [], []).

Definition _assess_frequency_risk (rm : RiskManager) : Assessment :=
  let n := hourly_trade_count rm in
  let limit := Settings.max_trades_per_hour (risk_config rm) in
  if (n >=? limit)%Z then
    (0 + 25, [], [("Hourly trade limit reached: " ++ str_int n)%string])
  else if Qgeb (inject n) (inject limit * 0.9) then
    (0 + 10, ["Approaching hourly trade limit"], [])
  else (0, [], []).

Definition _assess_drawdown_risk (rm : RiskManager) : Assessment :=
  if Qgtb (peak_balance rm) 0 then
    let current_drawdown := drawdown_percent rm in
    let limit := Settings.max_drawdown_percent (risk_config rm) in
    if Qgeb current_drawdown limit then
      (0 + 50, [],
       [("Maximum drawdown exceeded: " ++ fmt_f 1 current_drawdown ++ "%")%string])
    else if Qgeb current_drawdown (limit * 0.8) then
      (0 + 30, [("High drawdown: " ++ fmt_f 1 current_drawdown ++ "%")%string], [])
    else if Qgeb current_drawdown (limit * 0.6) then
      (0 + 15, [("Moderate drawdown: " ++ fmt_f 1 current_drawdown ++ "%")%string], [])
    else (0, [], [])
  else (0, [], []).

Definition _assess_signal_risk (signal : Signal.TradingSignal) : Q * list string :=
  let conf := Signal.confidence signal in
  let '(risk_score, warnings) :=
    if Qltb conf 0.7 then
      (0 + (0.7 - conf) * 30,
       if Qltb conf 0.6
       then [("Low confidence signal: " ++ fmt_f 2 conf)%string]
       else [])
    else (0, []) in
  if (Signal.duration signal <=? 3)%Z then
    (risk_score + 5, warnings ++ ["Very short duration signal"])
  else (risk_score, warnings).

(** *** assess_trade_risk *)

(** Steps 2 to 7 of [assess_trade_risk]: the summed score, the warnings
    and the rejection reasons, or the exception that interrupts them. *)
Definition assess_checks (signal : Signal.TradingSignal) (rm : RiskManager)
    : Exception + Assessment :=
  match _assess_balance_risk rm with
  | inl e => inl e
  | inr (balance_risk, balance_warnings, balance_rejections) =>
      let '(daily_risk, daily_warnings, daily_rejections) := _assess_daily_risk rm in
      let '(consecutive_risk, consecutive_warnings, consecutive_rejections) :=
        _assess_consecutive_risk rm in
      let '(frequency_risk, frequency_warnings, frequency_rejections) :=
        _assess_frequency_risk rm in
      let '(drawdown_risk, drawdown_warnings, drawdown_rejections) :=
        _assess_drawdown_risk rm in
      let '(signal_risk, signal_warnings) := _assess_signal_risk signal in
      inr (0 + balance_risk + daily_risk + consecutive_risk + frequency_risk
             + drawdown_risk + signal_risk,
           (balance_warnings ++ daily_warnings ++ consecutive_warnings
              ++ frequency_warnings ++ drawdown_warnings ++ signal_warnings)%list,
           (balance_rejections ++ daily_rejections ++ consecutive_rejections
              ++ frequency_rejections ++ drawdown_rejections)%list)
  end.

(** [max(0.1, 1.0 - risk_score / 100.0)]. *)
Definition stake_multiplier (risk_score : Q) : Q :=
  Qmax 0.1 (1 - risk_score / 100).

(** "Determine decision based on risk assessment". *)
Definition determine (rm : RiskManager) (a : Assessment) : TradeRisk :=
  let '(risk_score, warnings, rejection_reasons) := a in
  let max_stake := Settings.max_stake (trading_config rm) in
  match rejection_reasons with
  | _ :: _ =>
      mkTradeRisk TradeDecision.REJECTED (round 0 2) RiskLevel.EXTREME
                  (round risk_score 1) rejection_reasons warnings
  | [] =>
      let m := stake_multiplier risk_score in
      let recommended_stake := Qmin (max_stake * m) max_stake in
      if Qgeb risk_score 75 then
        mkTradeRisk TradeDecision.REJECTED (round 0 2) RiskLevel.EXTREME
                    (round risk_score 1) ["Risk score too high"] warnings
      else if Qgeb risk_score 50 then
        mkTradeRisk (if Qltb m 0.8 then TradeDecision.REDUCED
                     else TradeDecision.APPROVED)
                    (round recommended_stake 2) RiskLevel.HIGH
                    (round risk_score 1) [] warnings
      else if Qgeb risk_score 25 then
        mkTradeRisk (if Qltb m 0.9 then TradeDecision.REDUCED
                     else TradeDecision.APPROVED)
                    (round recommended_stake 2) RiskLevel.MODERATE
                    (round risk_score 1) [] warnings
      else
        mkTradeRisk TradeDecision.APPROVED (round recommended_stake 2)
                    RiskLevel.LOW (round risk_score 1) [] warnings
  end.

(** The first four statements of [assess_trade_risk]. *)
Definition refresh (current_balance : Q) (now : Q) (rm : RiskManager) : RiskManager :=
  _check_hourly_reset now
    (_check_daily_reset now
       (_update_peak_balance (with_current_balance current_balance rm))).

(** Whether step 1 rejects: paused, and the pause not over yet. *)
Definition pause_active (now : Q) (rm : RiskManager) : bool :=
  trading_paused rm && Qltb now (pause_until rm).

(** The [else] of step 1: a pause that is over is lifted. *)
Definition resumed (rm : RiskManager) : RiskManager :=
  if trading_paused rm then _resume_trading rm else rm.

(** The body of the [try] of [assess_trade_risk]. *)
Definition assess_body (signal : Signal.TradingSignal) (current_balance now : Q)
    (rm : RiskManager) : (Exception + TradeRisk) * RiskManager :=
  let rm1 := refresh current_balance now rm in
  if pause_active now rm1 then
    (inr (mkTradeRisk TradeDecision.REJECTED 0 RiskLevel.EXTREME 100
            [("Trading paused: " ++ pause_reason rm1)%string] []),
     rm1)
  else
    let rm2 := resumed rm1 in
    match assess_checks signal rm2 with
    | inl e => (inl e, rm2)
    | inr a => (inr (determine rm2 a), rm2)
    end.

(** [assess_trade_risk], with its [except Exception] handler. *)
Definition assess_trade_risk (signal : Signal.TradingSignal) (current_balance now : Q)
    (rm : RiskManager) : TradeRisk * RiskManager :=
  match assess_body signal current_balance now rm with
  | (inr r, rm') => (r, rm')
  | (inl e, rm') =>
      (mkTradeRisk TradeDecision.REJECTED 0 RiskLevel.EXTREME 100
         [("Risk assessment error: " ++ str e)%string] [],
       rm')
  end.

(** *** record_trade_result *)

Definition _check_auto_pause_conditions (now : Q) (rm : RiskManager) : RiskManager :=
  let cooldown := (Settings.cooldown_minutes (risk_config rm) * 60)%Z in
  let rm1 :=
    if (consecutive_losses (stats rm)
          >=? Settings.max_consecutive_losses (risk_config rm))%Z
    then _pause_trading
           ("Consecutive loss limit reached: "
              ++ str_int (consecutive_losses (stats rm)))%string
           cooldown now rm
    else rm in
  let pl := daily_profit_loss (stats rm1) in
  let rm2 :=
    if Qgeb (Qabs pl) (Settings.max_daily_loss (risk_config rm1)) && Qltb pl 0
    then _pause_trading
           ("Daily loss limit reached: $" ++ fmt_f 2 (Qabs pl))%string
           (_get_seconds_until_daily_reset now rm1) now rm1
    else rm1 in
  if Qgtb (peak_balance rm2) 0 then
    let current_drawdown := drawdown_percent rm2 in
    if Qgeb current_drawdown (Settings.max_drawdown_percent (risk_config rm2))
    then _pause_trading
           ("Maximum drawdown exceeded: " ++ fmt_f 1 current_drawdown ++ "%")%string
           cooldown now rm2
    else rm2
  else rm2.

(** The statistics after one more outcome. *)
Definition update_stats (profit_loss : Q) (was_winner : bool) (now : Q)
    (st : TradingStats) : TradingStats :=
  if was_winner then
    mkStats (total_trades st + 1) (winning_trades st + 1) (losing_trades st)
            0 (consecutive_wins st + 1) (max_consecutive_losses st)
            (total_profit_loss st + profit_loss)
            (daily_profit_loss st + profit_loss)
            (hourly_trades st) now
  else
    let n := (consecutive_losses st + 1)%Z in
    mkStats (total_trades st + 1) (winning_trades st) (losing_trades st + 1)
            n 0
            (if (n >? max_consecutive_losses st)%Z then n
             else max_consecutive_losses st)
            (total_profit_loss st + profit_loss)
            (daily_profit_loss st + profit_loss)
            (hourly_trades st) now.

Definition record_trade_result (profit_loss : Q) (was_winner : bool) (now : Q)
    (rm : RiskManager) : RiskManager :=
  _check_auto_pause_conditions now
    (with_hourly (hourly_trade_count rm + 1) (hourly_reset_time rm)
       (with_stats (update_stats profit_loss was_winner now (stats rm)) rm)).

End Risk.

(** ** trade_executor *)

Module Executor.

Import Py.
Local Open Scope Q_scope.

Module TradeStatus.
Inductive t := PENDING | ACTIVE | WON | LOST | CANCELLED | ERROR.
End TradeStatus.

Module ExecutionResult.
Inductive t := SUCCESS | FAILED | REJECTED | ERROR.
End ExecutionResult.

Record Trade := mkTrade {
  trade_id : string;
  signal : Signal.TradingSignal;
  contract_type : string;
  stake : Q;
  duration : Z;
  entry_price : Q;
  entry_time : Q;
  status : TradeStatus.t;
  contract_id : option string;
  exit_price : option Q;
  exit_time : option Q;
  profit_loss : option Q;
  payout : option Q;
  barrier : option Q
}.

Record ExecutionReport := mkReport {
  result : ExecutionResult.t;
  trade : option Trade;
  error_message : option string;
  risk_assessment : option Risk.TradeRisk;
  execution_time_ms : Q
}.

(** What [buy_contract] returned when it is not falsy: the fields of the
    ["buy"] object that the executor reads. *)
Record BuyResult := mkBuy {
  buy_contract_id : option string;
  buy_payout : option Q;
  buy_barrier : option Q
}.

(** The ["proposal_open_contract"] object of a contract-status push; an
    absent key is [None]. *)
Record ContractInfo := mkInfo {
  info_contract_id : option string;
  current_spot : option Q;
  is_sold : bool;
  sell_spot : option Q;
  sell_price : option Q;
  buy_price : option Q
}.

(** [contract_data.get('proposal_open_contract', {})]. *)
Definition empty_info : ContractInfo := mkInfo None None false None None None.

(** *** A Python dict with string keys, in insertion order *)

Section Dict.
Context {V : Type}.

Fixpoint dict_get (k : string) (d : list (string * V)) : option V :=
  match d with
  | [] => None
  | (k', v) :: d' => if String.eqb k k' then Some v else dict_get k d'
  end.

(** [d[k] = v]: in place for a key that is there, at the end otherwise. *)
Fixpoint dict_set (k : string) (v : V) (d : list (string * V)) : list (string * V) :=
  match d with
  | [] => [(k, v)]
  | (k', v') :: d' =>
      if String.eqb k k' then (k, v) :: d' else (k', v') :: dict_set k v d'
  end.

(** [if k in d: del d[k]]. *)
Fixpoint dict_del (k : string) (d : list (string * V)) : list (string * V) :=
  match d with
  | [] => []
  | (k', v') :: d' =>
      if String.eqb k k' then d' else (k', v') :: dict_del k d'
  end.

Definition dict_values (d : list (string * V)) : list V := map snd d.

End Dict.

(** The executor object.  The risk manager it calls is part of its
    state; the WebSocket client is its environment. *)
Record TradeExecutor := mkExecutor {
  risk_manager : Risk.RiskManager;
  active_trades : list (string * Trade);
  completed_trades : list Trade;
  trade_counter : Z;
  total_executions : Z;
  successful_executions : Z;
  failed_executions : Z;
  rejected_executions : Z;
  contract_subscriptions : gmap string string
}.

Definition init (rm : Risk.RiskManager) : TradeExecutor :=
  mkExecutor rm [] [] 0 0 0 0 0 ∅.

(** Truth value of an optional string ([None] and [""] are falsy). *)
Definition truthy (s : option string) : bool :=
  match s with
  | Some s' => negb (String.eqb s' "")
  | None => false
  end.

Definition with_status (st : TradeStatus.t) (t : Trade) : Trade :=
  mkTrade (trade_id t) (signal t) (contract_type t) (stake t) (duration t)
    (entry_price t) (entry_time t) st (contract_id t) (exit_price t)
    (exit_time t) (profit_loss t) (payout t) (barrier t).

Definition with_exit_price (p : option Q) (t : Trade) : Trade :=
  mkTrade (trade_id t) (signal t) (contract_type t) (stake t) (duration t)
    (entry_price t) (entry_time t) (status t) (contract_id t) p
    (exit_time t) (profit_loss t) (payout t) (barrier t).

Definition with_exit_time (x : option Q) (t : Trade) : Trade :=
  mkTrade (trade_id t) (signal t) (contract_type t) (stake t) (duration t)
    (entry_price t) (entry_time t) (status t) (contract_id t) (exit_price t)
    x (profit_loss t) (payout t) (barrier t).

Definition with_profit_loss (x : option Q) (t : Trade) : Trade :=
  mkTrade (trade_id t) (signal t) (contract_type t) (stake t) (duration t)
    (entry_price t) (entry_time t) (status t) (contract_id t) (exit_price t)
    (exit_time t) x (payout t) (barrier t).

(** [_generate_trade_id]: the id, and the counter after it. *)
Definition _generate_trade_id (now : Q) (counter : Z) : string * Z :=
  let counter' := (counter + 1)%Z in
  let timestamp := int_of (now * 1000) in
  (("T" ++ str_int timestamp ++ "_" ++ fmt_04d counter')%string, counter').

(** [_place_order]: [placed] is what [buy_contract] answered ([None] for
    [None] or an empty object). *)
Definition _place_order (t : Trade) (placed : option BuyResult) : option BuyResult :=
  if String.eqb (contract_type t) "CALL" || String.eqb (contract_type t) "PUT"
  then placed
  else None.

(** [execute_trade].  [now] is the clock up to the placement, [now_end]
    the clock when the report is built.  Nothing in the body of its [try]
    raises here ([assess_trade_risk] and [_place_order] catch their own
    exceptions), so its handler is left out.  A placement whose request
    [disconnect] cancels while it is awaited ends in [CancelledError],
    which no [except Exception] catches: [execute_trade] then returns no
    report, and that run is not one of the outcomes below. *)
Definition execute_trade (sig : Signal.TradingSignal) (current_balance : Q)
    (now now_end : Q) (placed : option BuyResult) (ex : TradeExecutor)
    : ExecutionReport * TradeExecutor :=
  let '(assessment, rm) :=
    Risk.assess_trade_risk sig current_balance now (risk_manager ex) in
  let elapsed := (now_end - now) * 1000 in
  match Risk.decision assessment with
  | Risk.TradeDecision.REJECTED =>
      (mkReport ExecutionResult.REJECTED None
         (Some ("Trade rejected: "
                  ++ String.concat ", " (Risk.rejection_reasons assessment))%string)
         (Some assessment) elapsed,
       mkExecutor rm (active_trades ex) (completed_trades ex) (trade_counter ex)
         (total_executions ex) (successful_executions ex) (failed_executions ex)
         (rejected_executions ex + 1) (contract_subscriptions ex))
  | _ =>
      let '(tid, counter) := _generate_trade_id now (trade_counter ex) in
      let t := mkTrade tid sig (Signal.SignalType.value (Signal.signal_type sig))
                 (Risk.recommended_stake assessment) (Signal.duration sig)
                 (Signal.entry_price sig) now TradeStatus.PENDING
                 None None None None None None in
      match _place_order t placed with
      | Some b =>
          let t' := mkTrade tid sig (contract_type t) (stake t) (duration t)
                      (entry_price t) (entry_time t) TradeStatus.ACTIVE
                      (buy_contract_id b) None None None
                      (buy_payout b) (buy_barrier b) in
          (mkReport ExecutionResult.SUCCESS (Some t') None (Some assessment) elapsed,
           mkExecutor rm (dict_set tid t' (active_trades ex)) (completed_trades ex)
             counter (total_executions ex + 1) (successful_executions ex + 1)
             (failed_executions ex) (rejected_executions ex)
             (if truthy (buy_contract_id b)
              then match buy_contract_id b with
                   | Some cid => <[cid := tid]> (contract_subscriptions ex)
                   | None => contract_subscriptions ex
                   end
              else contract_subscriptions ex))
      | None =>
          (mkReport ExecutionResult.FAILED (Some (with_status TradeStatus.ERROR t))
             (Some "Failed to place order with broker") (Some assessment) elapsed,
           mkExecutor rm (active_trades ex) (completed_trades ex) counter
             (total_executions ex + 1) (successful_executions ex)
             (failed_executions ex + 1) (rejected_executions ex)
             (contract_subscriptions ex))
      end
  end.

Definition with_tables (rm : Risk.RiskManager) (active : list (string * Trade))
    (completed : list Trade) (subs : gmap string string) (ex : TradeExecutor)
    : TradeExecutor :=
  mkExecutor rm active completed (trade_counter ex) (total_executions ex)
    (successful_executions ex) (failed_executions ex) (rejected_executions ex)
    subs.

(** [_finalize_trade] for the trade object [t] that [active_trades] holds
    under [key].  [float(None)] raises when the push has no ["sell_spot"]
    and the trade has no exit price yet; the handler logs it, and what was
    assigned before stays assigned. *)
Definition _finalize_trade (key : string) (t : Trade) (info : ContractInfo)
    (now : Q) (ex : TradeExecutor) : TradeExecutor :=
  let t1 := with_exit_time (Some now) t in
  match (match sell_spot info with Some x => Some x | None => exit_price t1 end) with
  | None =>
      with_tables (risk_manager ex) (dict_set key t1 (active_trades ex))
        (completed_trades ex) (contract_subscriptions ex) ex
  | Some spot =>
      let sell := match sell_price info with Some x => x | None => 0 end in
      let buy := match buy_price info with Some x => x | None => stake t1 end in
      let pl := sell - buy in
      let was_winner := Qgtb pl 0 in
      let t2 :=
        with_status (if was_winner then TradeStatus.WON else TradeStatus.LOST)
          (with_profit_loss (Some pl) (with_exit_price (Some spot) t1)) in
      with_tables
        (Risk.record_trade_result pl was_winner now (risk_manager ex))
        (dict_del (trade_id t2) (dict_set key t2 (active_trades ex)))
        (completed_trades ex ++ [t2])
        (if truthy (contract_id t2)
         then match contract_id t2 with
              | Some cid => delete cid (contract_subscriptions ex)
              | None => contract_subscriptions ex
              end
         else contract_subscriptions ex)
        ex
  end.

(** [handle_contract_update]; [push] is the ["proposal_open_contract"]
    object of the message, if it has one. *)
Definition handle_contract_update (push : option ContractInfo) (now : Q)
    (ex : TradeExecutor) : TradeExecutor :=
  let info := match push with Some i => i | None => empty_info end in
  match info_contract_id info with
  | Some cid =>
      if negb (truthy (Some cid)) then ex
      else
        match contract_subscriptions ex !! cid with
        | None => ex
        | Some tid =>
            match dict_get tid (active_trades ex) with
            | None => ex
            | Some t =>
                let t1 :=
                  match current_spot info with
                  | Some x => if Qeq_bool x 0 then t else with_exit_price (Some x) t
                  | None => t
                  end in
                let ex1 :=
                  with_tables (risk_manager ex) (dict_set tid t1 (active_trades ex))
                    (completed_trades ex) (contract_subscriptions ex) ex in
                if is_sold info then _finalize_trade tid t1 info now ex1 else ex1
            end
        end
  | None => ex
  end.

(** The test of the first loop of [check_expired_trades]. *)
Definition expired (now : Q) (t : Trade) : bool :=
  Qgtb now (entry_time t + inject (duration t) * 1.1).

(** One turn of its second loop, for the trade object [t] held under [key]. *)
Definition expire_one (now : Q) (ex : TradeExecutor) (kt : string * Trade)
    : TradeExecutor :=
  let '(key, t) := kt in
  if truthy (contract_id t) then
    let t' := with_exit_time (Some now) (with_status TradeStatus.ERROR t) in
    with_tables (risk_manager ex)
      (dict_del (trade_id t') (dict_set key t' (active_trades ex)))
      (completed_trades ex ++ [t'])
      (contract_subscriptions ex) ex
  else ex.

(** [check_expired_trades]. *)
Definition check_expired_trades (now : Q) (ex : TradeExecutor) : TradeExecutor :=
  fold_left (expire_one now)
    (List.filter (fun kt => expired now kt.2) (active_trades ex)) ex.

(** The representation invariant of the executor: [active_trades] has no
    repeated key, every trade is stored under its own id, and a contract
    id routes to a trade that carries it. *)
Definition wf (ex : TradeExecutor) : Prop :=
  NoDup (active_trades ex).*1 ∧
  (∀ k t, (k, t) ∈ active_trades ex → trade_id t = k) ∧
  (∀ cid tid t, contract_subscriptions ex !! cid = Some tid →
     dict_get tid (active_trades ex) = Some t → contract_id t = Some cid).

End Executor.

(** * Further operations

    The rest of the three modules: what the operations above call or are
    called with, embedded in the same way. *)

(** ** websocket_client: reconnection and subscriptions *)

Module ClientOps.

Import WebSocket.
Local Open Scope Z_scope.

(** The two settings of [__init__] that [reconnect] reads. *)
Definition max_reconnect_attempts : Z := 10.
Definition reconnect_delay : Z := 5.

(** [min(reconnect_delay * (2 ** (attempts - 1)), 300)], for the count
    of attempts after it is incremented (1 or more). *)
Definition backoff (attempts : Z) : Z :=
  Z.min (reconnect_delay * 2 ^ (attempts - 1)) 300.

Definition with_state (s : ConnectionState) (c : Client) : Client :=
  mkClient (websocket c) s (message_handlers c) (request_id_counter c)
    (pending_requests c) (futures c) (rate_limiter c) (heartbeat_task c)
    (subscriptions c).

(** [reconnect] up to its [asyncio.sleep]: [None] when it returns [False]
    at once, else the delay it sleeps and the client with the attempt
    counted. *)
Definition reconnect_begin (c : Client) : option (Z * Client) :=
  let s := state c in
  if reconnect_attempts s >=? max_reconnect_attempts then None
  else
    let n := reconnect_attempts s + 1 in
    Some (backoff n,
          with_state (mkState (connected s) (authenticated s) (last_ping s) n
                        (last_error s)) c).

(** [connect] when [websockets.connect] raises: the handler keeps the
    message. *)
Definition connect_failed (error : string) (c : Client) : Client :=
  let s := state c in
  with_state (mkState (connected s) (authenticated s) (last_ping s)
                (reconnect_attempts s) (Some error)) c.

(** [reconnect] after the sleep: [disconnect], then [connect] as far as
    the transport; [failure] is the error of [websockets.connect], if it
    raised. *)
Definition reconnect_resume (failure : option string) (c : Client) : Client :=
  match failure with
  | Some error => connect_failed error (disconnect c)
  | None => connect_opened (disconnect c)
  end.

(** One whole attempt whose transport fails: the delay, if an attempt is
    made, and the client after it. *)
Definition failed_attempt (error : string) (c : Client) : option Z * Client :=
  match reconnect_begin c with
  | Some (delay, c1) => (Some delay, reconnect_resume (Some error) c1)
  | None => (None, c)
  end.

(** Attempts that fail one after the other: the delays slept. *)
Fixpoint failed_attempts (n : nat) (error : string) (c : Client) : list Z * Client :=
  match n with
  | O => ([], c)
  | S k =>
      match failed_attempt error c with
      | (Some delay, c1) =>
          let '(delays, c2) := failed_attempts k error c1 in
          (delay :: delays, c2)
      | (None, c1) => ([], c1)
      end
  end.

(** *** Python strings *)

(** [s.startswith(p)]. *)
Fixpoint startswith (p s : string) : bool :=
  match p, s with
  | EmptyString, _ => true
  | String a p', String b s' => Ascii.eqb a b && startswith p' s'
  | String _ _, EmptyString => false
  end.

(** [s.replace(old, "")] for a non-empty [old]: occurrences are found
    from the left and do not overlap.  [skip] counts the characters of an
    occurrence still to be dropped. *)
Fixpoint remove_from (old : string) (skip : nat) (s : string) : string :=
  match s with
  | EmptyString => EmptyString
  | String a s' =>
      match skip with
      | S k => remove_from old k s'
      | O =>
          if startswith old s then remove_from old (String.length old - 1) s'
          else String a (remove_from old O s')
      end
  end.

Definition remove_all (old s : string) : string := remove_from old O s.

(** [subscribe_ticks] up to its request: the callback is registered.  *)
Definition subscribe_ticks_begin (c : Client) : Client :=
  mkClient (websocket c) (state c) ({["tick"%string]} ∪ message_handlers c)
    (request_id_counter c) (pending_requests c) (futures c) (rate_limiter c)
    (heartbeat_task c) (subscriptions c).

(** [subscribe_ticks] after a response without error. *)
Definition subscribe_ticks_done (symbol : string) (c : Client) : Client :=
  mkClient (websocket c) (state c) (message_handlers c)
    (request_id_counter c) (pending_requests c) (futures c) (rate_limiter c)
    (heartbeat_task c) ({[("ticks_" ++ symbol)%string]} ∪ subscriptions c).

(** The symbol [_restore_subscriptions] asks ticks for, for one
    subscription; none for a subscription that is not a tick one. *)
Definition restored_symbol (subscription : string) : option string :=
  if startswith "ticks_" subscription
  then Some (remove_all "ticks_" subscription)
  else None.

(** The symbols [_restore_subscriptions] asks ticks for. *)
Definition restored_symbols (c : Client) : list string :=
  omap restored_symbol (elements (subscriptions c)).

End ClientOps.

(** ** risk_manager: statistics, resets and persistence *)

Module RiskOps.

Import Py Risk.
Local Open Scope Q_scope.

(** [TradingStats.win_rate]. *)
Definition win_rate (st : TradingStats) : Q :=
  if (total_trades st =? 0)%Z then 0
  else (inject (winning_trades st) / inject (total_trades st)) * 100.

(** [reset_daily_stats]. *)
Definition reset_daily_stats (rm : RiskManager) : RiskManager :=
  mkRiskManager (risk_config rm) (trading_config rm)
    (with_daily_profit_loss 0 (stats rm)) (initial_balance rm)
    (current_balance rm) (peak_balance rm) (current_balance rm)
    (daily_reset_time rm) (hourly_trade_count rm) (hourly_reset_time rm)
    (trading_paused rm) (pause_reason rm) (pause_until rm).

(** [reset_all_stats]. *)
Definition reset_all_stats (rm : RiskManager) : RiskManager :=
  _resume_trading
    (mkRiskManager (risk_config rm) (trading_config rm) new_stats
       (current_balance rm) (current_balance rm) (current_balance rm)
       (current_balance rm) (daily_reset_time rm) 0 (hourly_reset_time rm)
       (trading_paused rm) (pause_reason rm) (pause_until rm)).

(** *** data/risk_data.json

    The object that [_save_risk_data] writes and [_load_risk_data] reads.
    A key that is absent is [None]; a key is taken to hold a value of the
    type that [_save_risk_data] writes under it. *)

Record StatsData := mkStatsData {
  d_total_trades : option Z;
  d_winning_trades : option Z;
  d_losing_trades : option Z;
  d_consecutive_losses : option Z;
  d_consecutive_wins : option Z;
  d_max_consecutive_losses : option Z;
  d_total_profit_loss : option Q;
  d_daily_profit_loss : option Q;
  d_last_trade_time : option Q
}.

Record BalanceData := mkBalanceData {
  d_initial_balance : option Q;
  d_peak_balance : option Q;
  d_daily_start_balance : option Q
}.

Record PauseData := mkPauseData {
  d_trading_paused : option bool;
  d_pause_reason : option string;
  d_pause_until : option Q
}.

Record RiskData := mkRiskData {
  d_stats : option StatsData;
  d_balance_tracking : option BalanceData;
  d_pause_state : option PauseData
}.

(** The object built by [_save_risk_data]. *)
Definition _save_risk_data (rm : RiskManager) : RiskData :=
  let st := stats rm in
  mkRiskData
    (Some (mkStatsData (Some (total_trades st)) (Some (winning_trades st))
             (Some (losing_trades st)) (Some (consecutive_losses st))
             (Some (consecutive_wins st)) (Some (max_consecutive_losses st))
             (Some (total_profit_loss st)) (Some (daily_profit_loss st))
             (Some (last_trade_time st))))
    (Some (mkBalanceData (Some (initial_balance rm)) (Some (peak_balance rm))
             (Some (daily_start_balance rm))))
    (Some (mkPauseData (Some (trading_paused rm)) (Some (pause_reason rm))
             (Some (pause_until rm)))).

(** [_load_risk_data]; [data] is what [load_json_data] returned ([None]
    when there is no file, or for an empty object). *)
Definition _load_risk_data (data : option RiskData) (rm : RiskManager)
    : RiskManager :=
  match data with
  | None => rm
  | Some data =>
      let st :=
        match d_stats data with
        | Some sd =>
            mkStats (default 0%Z (d_total_trades sd))
                    (default 0%Z (d_winning_trades sd))
                    (default 0%Z (d_losing_trades sd))
                    (default 0%Z (d_consecutive_losses sd))
                    (default 0%Z (d_consecutive_wins sd))
                    (default 0%Z (d_max_consecutive_losses sd))
                    (default 0 (d_total_profit_loss sd))
                    (default 0 (d_daily_profit_loss sd))
                    (hourly_trades (stats rm))
                    (default 0 (d_last_trade_time sd))
        | None => stats rm
        end in
      let '(initial, peak, daily_start) :=
        match d_balance_tracking data with
        | Some bd =>
            (default 0 (d_initial_balance bd), default 0 (d_peak_balance bd),
             default 0 (d_daily_start_balance bd))
        | None => (initial_balance rm, peak_balance rm, daily_start_balance rm)
        end in
      let '(paused, reason, until) :=
        match d_pause_state data with
        | Some pd =>
            (default false (d_trading_paused pd),
             default ""%string (d_pause_reason pd),
             default 0 (d_pause_until pd))
        | None => (trading_paused rm, pause_reason rm, pause_until rm)
        end in
      mkRiskManager (risk_config rm) (trading_config rm) st initial
        (current_balance rm) peak daily_start (daily_reset_time rm)
        (hourly_trade_count rm) (hourly_reset_time rm) paused reason until
  end.

(** [__init__], with what the data file holds. *)
Definition start (rc : Settings.RiskConfig) (tc : Settings.TradingConfig)
    (now : Q) (data : option RiskData) : RiskManager :=
  _load_risk_data data (init rc tc now).

(** *** The calls a manager receives *)

Inductive Call :=
| Evaluate (signal : Signal.TradingSignal) (current_balance now : Q)
| Record (profit_loss : Q) (was_winner : bool) (now : Q)
| ForceResume
| ResetDaily.

(** The manager after a call, and the assessment if the call returns
    one. *)
Definition call (c : Call) (rm : RiskManager) : option TradeRisk * RiskManager :=
  match c with
  | Evaluate signal bal now =>
      (Some (assess_trade_risk signal bal now rm).1,
       (assess_trade_risk signal bal now rm).2)
  | Record pl won now => (None, record_trade_result pl won now rm)
  | ForceResume => (None, force_resume_trading rm)
  | ResetDaily => (None, reset_daily_stats rm)
  end.

(** The assessments returned along a sequence of calls, and the manager
    after it. *)
Fixpoint calls (cs : list Call) (rm : RiskManager) : list TradeRisk * RiskManager :=
  match cs with
  | [] => ([], rm)
  | c :: cs' =>
      let '(r, rm1) := call c rm in
      let '(rs, rm2) := calls cs' rm1 in
      (match r with Some r => r :: rs | None => rs end, rm2)
  end.

End RiskOps.

(** ** trade_executor: queries, clean-up and shutdown *)

Module ExecutorOps.

Import Py Executor.
Local Open Scope Q_scope.

(** [l[start:]] for an int [start]. *)
Definition slice_from {A} (start : Z) (l : list A) : list A :=
  let n := Z.of_nat (length l) in
  drop (Z.to_nat (if (start <? 0)%Z then Z.max 0 (n + start) else Z.min start n)) l.

(** [get_active_trades]. *)
Definition get_active_trades (ex : TradeExecutor) : list Trade :=
  dict_values (active_trades ex).

(** [get_recent_trades]. *)
Definition get_recent_trades (count : Z) (ex : TradeExecutor) : list Trade :=
  if (count <=? Z.of_nat (length (completed_trades ex)))%Z
  then slice_from (- count) (completed_trades ex)
  else completed_trades ex.

(** [cleanup_old_trades]. *)
Definition cleanup_old_trades (max_completed_trades : Z) (ex : TradeExecutor)
    : TradeExecutor :=
  if (Z.of_nat (length (completed_trades ex)) >? max_completed_trades)%Z
  then with_tables (risk_manager ex) (active_trades ex)
         (slice_from (- max_completed_trades) (completed_trades ex))
         (contract_subscriptions ex) ex
  else ex.

(** [get_trade_by_id]. *)
Definition get_trade_by_id (id : string) (ex : TradeExecutor) : option Trade :=
  match dict_get id (active_trades ex) with
  | Some t => Some t
  | None => List.find (fun t => String.eqb (trade_id t) id) (completed_trades ex)
  end.

(** One turn of the loop of [cancel_all_active_trades], for the trade
    object [t] held under [key]; [now] is the clock read in this turn. *)
Definition cancel_one (ex : TradeExecutor) (x : Q * (string * Trade))
    : TradeExecutor :=
  let '(now, (key, t)) := x in
  let t' := with_exit_time (Some now) (with_status TradeStatus.CANCELLED t) in
  with_tables (risk_manager ex)
    (dict_del (trade_id t') (dict_set key t' (active_trades ex)))
    (completed_trades ex ++ [t'])
    (contract_subscriptions ex) ex.

(** [cancel_all_active_trades]; [clock i] is the clock read in turn [i]
    of its loop. *)
Definition cancel_all_active_trades (clock : nat → Q) (ex : TradeExecutor)
    : TradeExecutor :=
  let ex' :=
    fold_left cancel_one (imap (fun i kt => (clock i, kt)) (active_trades ex)) ex in
  with_tables (risk_manager ex') (active_trades ex') (completed_trades ex') ∅ ex'.

(** [shutdown]. *)
Definition shutdown (clock : nat → Q) (ex : TradeExecutor) : TradeExecutor :=
  match active_trades ex with
  | [] => ex
  | _ :: _ => cancel_all_active_trades clock ex
  end.

(** [trade.status == TradeStatus.WON] and [... == TradeStatus.LOST]. *)
Definition won (t : Trade) : bool :=
  match status t with TradeStatus.WON => true | _ => false end.

Definition lost (t : Trade) : bool :=
  match status t with TradeStatus.LOST => true | _ => false end.

(** [sum(1 for trade in trades if f(trade))]. *)
Definition how_many (f : Trade → bool) (trades : list Trade) : Z :=
  Z.of_nat (length (List.filter f trades)).

(** [sum(trade.profit_loss for trade in trades
        if trade.profit_loss is not None)]. *)
Definition sum_profit_loss (trades : list Trade) : Q :=
  fold_left (fun acc t => match profit_loss t with
                          | Some x => acc + x
                          | None => acc
                          end) trades 0.

(** The numbers of the object that [get_execution_stats] returns. *)
Record ExecutionStats := mkExecutionStats {
  s_total_executions : Z;
  s_successful_executions : Z;
  s_failed_executions : Z;
  s_rejected_executions : Z;
  s_success_rate_pct : Q;
  s_total_completed_trades : Z;
  s_winning_trades : Z;
  s_losing_trades : Z;
  s_win_rate_pct : Q;
  s_total_pnl : Q;
  s_active_trades : Z;
  s_pending_contracts : Z
}.

(** [get_execution_stats]. *)
Definition get_execution_stats (ex : TradeExecutor) : ExecutionStats :=
  let success_rate :=
    if (total_executions ex >? 0)%Z
    then inject (successful_executions ex) / inject (total_executions ex) * 100
    else 0 in
  let winning_trades := how_many won (completed_trades ex) in
  let losing_trades := how_many lost (completed_trades ex) in
  let total_completed := Z.of_nat (length (completed_trades ex)) in
  let win_rate :=
    if (total_completed >? 0)%Z
    then inject winning_trades / inject total_completed * 100
    else 0 in
  let total_pnl := sum_profit_loss (completed_trades ex) in
  mkExecutionStats (total_executions ex) (successful_executions ex)
    (failed_executions ex) (rejected_executions ex) (round success_rate 2)
    total_completed winning_trades losing_trades (round win_rate 2)
    (round total_pnl 2) (Z.of_nat (length (active_trades ex)))
    (Z.of_nat (size (contract_subscriptions ex))).

(** *** The calls an executor receives *)

Inductive Call :=
| Execute (signal : Signal.TradingSignal) (current_balance now now_end : Q)
          (placed : option BuyResult)
| Push (push : option ContractInfo) (now : Q)
| Sweep (now : Q)
| CancelAll (clock : nat → Q)
| Shutdown (clock : nat → Q).

Definition call (c : Call) (ex : TradeExecutor) : TradeExecutor :=
  match c with
  | Execute signal bal now now_end placed =>
      (execute_trade signal bal now now_end placed ex).2
  | Push push now => handle_contract_update push now ex
  | Sweep now => check_expired_trades now ex
  | CancelAll clock => cancel_all_active_trades clock ex
  | Shutdown clock => shutdown clock ex
  end.

Definition calls (cs : list Call) (ex : TradeExecutor) : TradeExecutor :=
  fold_left (fun ex c => call c ex) cs ex.

End ExecutorOps.

(** * Properties of the protocol client *)

Module ClientProps.

Import WebSocket.

(** ** Cancelling the futures of the pending table *)


Lemma cancel_lookup_ne fs a b : a ≠ b → cancel fs a !! b = fs !! b.
Proof.
  intros Hne. unfold cancel. destruct (fs !! a) as [f|]; [|done].
  destruct (done f); [done|]. by rewrite list_lookup_insert_ne.
Qed.

Lemma cancel_lookup_done fs a b f :
  fs !! b = Some f → done f = true → cancel fs a !! b = Some f.
Proof.
  intros Hb Hd. destruct (decide (a = b)) as [->|Hne].
  - unfold cancel. rewrite Hb, Hd. done.
  - by rewrite cancel_lookup_ne.
Qed.

Lemma cancel_lookup_pending fs a :
  fs !! a = Some Pending → cancel fs a !! a = Some Cancelled.
Proof.
  intros Ha. unfold cancel. rewrite Ha. simpl.
  apply list_lookup_insert_eq. by eapply lookup_lt_Some.
Qed.

Lemma cancel_all_done l fs b f :
  fs !! b = Some f → done f = true → fold_left cancel l fs !! b = Some f.
Proof.
  revert fs. induction l as [|a l IH]; intros fs Hb Hd; simpl; [done|].
  apply IH; [|done]. by apply cancel_lookup_done.
Qed.

Lemma cancel_all_pending l fs a :
  a ∈ l → fs !! a = Some Pending → fold_left cancel l fs !! a = Some Cancelled.
Proof.
  revert fs. induction l as [|b l IH]; intros fs Hin Ha; simpl.
  - by apply elem_of_nil in Hin.
  - destruct (decide (b = a)) as [->|Hne].
    + apply cancel_all_done; [|done]. by apply cancel_lookup_pending.
    + apply IH.
      * apply elem_of_cons in Hin as [Heq|Hin]; [congruence|done].
      * by rewrite cancel_lookup_ne.
Qed.


Lemma pending_values (m : gmap Z nat) r a :
  m !! r = Some a → a ∈ (map_to_list m).*2.
Proof.
  intros H. apply list_elem_of_fmap. exists (r, a). split; [done|].
  by apply elem_of_map_to_list.
Qed.

(** ** Disconnected client (C10) *)

(** C10: [send_request] on a client that is not connected, or that has no
    websocket, returns [None] at once and leaves the whole client as it
    was: no correlation id is allocated, nothing is registered in the
    pending table, and the rate limiter is not touched. *)
Theorem send_request_not_connected now sent_at send_ok request (c : Client) :
  connected (state c) = false ∨ websocket c = None →
  send_request now sent_at send_ok request c = (NotConnected, c).
Proof.
  intros [H|H]; unfold send_request.
  - rewrite H. by destruct (websocket c).
  - by rewrite H.
Qed.

Lemma send_request_not_connected_witness :
  send_request 0%Q 0%Q true "ping" init = (NotConnected, init).
Proof.
  apply (send_request_not_connected 0%Q 0%Q true "ping" init).
  right. reflexivity.
Defined.

(** ** A dropped connection (C1) *)

(** A client with one request in flight: the transport opened, one
    request sent. *)
Definition one_in_flight : Client :=
  (send_request 0%Q 0%Q true "ping" (connect_opened init)).2.

(** What the specification asks of the detection of a drop: every
    outstanding request is failed there and then, and the table is empty. *)
Definition drop_fails_all (c : Client) : Prop :=
  let c' := listener_closed c in
  pending_requests c' = ∅ ∧
  ∀ r a, pending_requests c !! r = Some a →
         ∃ f, futures c' !! a = Some f ∧ done f = true.

(** The listener fails nothing: the request in flight is still in the
    table, its future still pending. *)
Lemma listener_closed_leaves_pending :
  pending_requests (listener_closed one_in_flight) !! 1%Z = Some 0%nat ∧
  futures (listener_closed one_in_flight) !! 0%nat = Some Pending ∧
  ¬ drop_fails_all one_in_flight.
Proof.
  assert (Hp : pending_requests (listener_closed one_in_flight) !! 1%Z = Some 0%nat)
    by (vm_compute; reflexivity).
  split; [exact Hp|]. split; [vm_compute; reflexivity|].
  intros [Hempty _]. rewrite Hempty in Hp. clear Hempty.
  rewrite lookup_empty in Hp. discriminate Hp.
Qed.

(** C1, as the code has it: when the listener sees the connection close it
    only marks the client as not connected, and the pending table and the
    futures stay as they were.  The outstanding requests are ended by
    [disconnect] (which [reconnect] runs): it cancels every future of the
    table that is not done and empties the table. *)
Theorem drop_then_disconnect (c : Client) :
  let c' := listener_closed c in
  let c'' := disconnect c' in
  connected (state c') = false ∧
  pending_requests c' = pending_requests c ∧
  futures c' = futures c ∧
  pending_requests c'' = ∅ ∧
  (∀ r a, pending_requests c !! r = Some a → futures c !! a = Some Pending →
          futures c'' !! a = Some Cancelled) ∧
  (∀ a f, futures c !! a = Some f → done f = true → futures c'' !! a = Some f).
Proof.
  simpl. repeat split.
  - intros r a Hr Ha. apply cancel_all_pending; [|done].
    by eapply pending_values.
  - intros a f Ha Hd. by apply cancel_all_done.
Qed.

Lemma drop_then_disconnect_witness :
  pending_requests (disconnect (listener_closed one_in_flight)) = ∅ ∧
  futures (disconnect (listener_closed one_in_flight)) !! 0%nat = Some Cancelled.
Proof.
  pose proof (drop_then_disconnect one_in_flight) as (_ & _ & _ & He & Hc & _).
  split; [exact He|].
  apply (Hc 1%Z 0%nat); vm_compute; reflexivity.
Defined.

(** ** The outbound rate limit (C2) *)

(** Thirty requests sent a third of a second apart, from time 0 on. *)
Fixpoint burst (n : nat) (c : Client) : Client :=
  match n with
  | O => c
  | S k =>
      let c' := burst k c in
      let t := (Z.of_nat k # 3)%Q in
      (send_request t t true "ticks" c').2
  end.

Definition thirty_sent : Client := burst 30 (connect_opened init).

(** What the specification asks of a request made while the limit is
    used up: it is sent in the end, not answered with a failure. *)
Definition delayed_not_dropped (now sent_at : Q) (request : Payload)
    (c : Client) : Prop :=
  ∃ r a c', send_request now sent_at true request c = (Suspended r a, c').

(** The 31st request, ten seconds after the first: one second of sleep,
    then [None]; nothing was sent and no slot had come free (the oldest
    call leaves the window at second 60). *)
Lemma thirty_first_is_dropped :
  (send_request 10%Q 10%Q true "ticks" thirty_sent).1 = RateLimitExceeded 1%Q ∧
  websocket (send_request 10%Q 10%Q true "ticks" thirty_sent).2
    = websocket thirty_sent ∧
  ¬ delayed_not_dropped 10%Q 10%Q "ticks" thirty_sent.
Proof.
  assert (H : (send_request 10%Q 10%Q true "ticks" thirty_sent).1
              = RateLimitExceeded 1%Q) by (vm_compute; reflexivity).
  split; [exact H|]. split; [vm_compute; reflexivity|].
  intros (r & a & c' & Heq). rewrite Heq in H. clear Heq. discriminate H.
Qed.

(** C2, as the code has it: on a connected client, a request made while
    [max_calls] calls lie inside the window is not sent; [send_request]
    sleeps one second and returns [None], with no correlation id
    allocated, nothing registered and no call recorded (the limiter only
    forgets the calls that left the window).  A request made while fewer
    calls lie inside the window goes out at once under the next id. *)
Theorem send_request_rate_limit now sent_at request (c : Client) sock :
  websocket c = Some sock →
  connected (state c) = true →
  let limiter := RateLimiter.can_proceed now (rate_limiter c) in
  let out := send_request now sent_at true request c in
  (limiter.1 = false →
     out.1 = RateLimitExceeded 1%Q ∧
     websocket out.2 = websocket c ∧
     request_id_counter out.2 = request_id_counter c ∧
     pending_requests out.2 = pending_requests c ∧
     futures out.2 = futures c ∧
     rate_limiter out.2 = limiter.2) ∧
  (limiter.1 = true →
     out.1 = Suspended (request_id_counter c + 1)%Z (length (futures c)) ∧
     websocket out.2 = Some (sock ++ [((request_id_counter c + 1)%Z, request)]) ∧
     rate_limiter out.2 = RateLimiter.record_call sent_at limiter.2).
Proof.
  intros Hs Hc. unfold send_request. rewrite Hs, Hc. cbn [negb].
  destruct (RateLimiter.can_proceed now (rate_limiter c)) as [[] rl];
    cbn; split; intros Hok; try discriminate Hok; repeat split; congruence.
Qed.

Lemma send_request_rate_limit_witness :
  (send_request 10%Q 10%Q true "ticks" thirty_sent).1 = RateLimitExceeded 1%Q ∧
  request_id_counter (send_request 10%Q 10%Q true "ticks" thirty_sent).2 = 30%Z.
Proof.
  assert (Hs : websocket thirty_sent = Some (default [] (websocket thirty_sent)))
    by (vm_compute; reflexivity).
  assert (Hc : connected (state thirty_sent) = true) by (vm_compute; reflexivity).
  assert (Hl : (RateLimiter.can_proceed 10%Q (rate_limiter thirty_sent)).1 = false)
    by (vm_compute; reflexivity).
  destruct (send_request_rate_limit 10%Q 10%Q "ticks" thirty_sent _ Hs Hc)
    as [Hdrop _].
  destruct (Hdrop Hl) as (H1 & _ & H3 & _).
  split; [exact H1|]. rewrite H3. vm_compute. reflexivity.
Defined.

(** The limiter lets a call through exactly when fewer than [max_calls]
    recorded calls are younger than the window. *)
Lemma can_proceed_spec now (rl : RateLimiter.t) :
  (RateLimiter.can_proceed now rl).1 = true ↔
  (Z.of_nat (length (List.filter
      (fun t => Py.Qltb (now - t) (Py.inject (RateLimiter.time_window rl)))
      (RateLimiter.calls rl))) < RateLimiter.max_calls rl)%Z.
Proof. unfold RateLimiter.can_proceed. simpl. apply Z.ltb_lt. Qed.

(** ** Correlation of requests and responses (C8) *)
























(** Two requests answered in the opposite order: each future gets the
    frame that carries the id of its call. *)
Example answered_out_of_order :
  let es := [EOpened; ERequest 0%Q 0%Q true "a"; ERequest 1%Q 1%Q true "b";
             EFrame (mkFrame (Some 2%Z) None "B");
             EFrame (mkFrame (Some 1%Z) None "A")] in
  let s := run es init_system in
  issued es init_system = [1%Z; 2%Z] ∧
  calls s = [(1%Z, 0%nat); (2%Z, 1%nat)] ∧
  futures (client s) = [Result (mkFrame (Some 1%Z) None "A");
                        Result (mkFrame (Some 2%Z) None "B")] ∧
  pending_requests (client s) = ∅.
Proof. vm_compute. repeat split. Qed.

End ClientProps.

(** * Properties of the risk gate *)

Module RiskProps.

Import Py Risk.
Local Open Scope Q_scope.

(** ** Comparisons *)

Lemma Qltb_lt a b : Qltb a b = true ↔ a < b.
Proof.
  unfold Qltb. rewrite negb_true_iff. split.
  - intros H. apply Qnot_le_lt. intros Hle. apply Qle_bool_iff in Hle. congruence.
  - intros H. destruct (Qle_bool b a) eqn:E; [|done].
    apply Qle_bool_iff in E. lra.
Qed.

Lemma Qltb_ge a b : Qltb a b = false ↔ b <= a.
Proof.
  unfold Qltb. rewrite negb_false_iff. apply Qle_bool_iff.
Qed.

Lemma Qgeb_le a b : Qgeb a b = true ↔ b <= a.
Proof. apply Qle_bool_iff. Qed.

Lemma Qgeb_lt a b : Qgeb a b = false ↔ a < b.
Proof.
  unfold Qgeb. rewrite <- Qltb_lt. unfold Qltb.
  destruct (Qle_bool b a); simpl; split; congruence.
Qed.

Lemma round_zero : round 0 2 = 0.
Proof. vm_compute. reflexivity. Qed.

(** ** What the refresh and the resumption leave alone *)

Lemma refresh_config bal now rm :
  risk_config (refresh bal now rm) = risk_config rm ∧
  trading_config (refresh bal now rm) = trading_config rm.
Proof.
  unfold refresh, _check_hourly_reset, _check_daily_reset, _update_peak_balance.
  repeat match goal with |- context [if ?b then _ else _] => destruct b end;
    split; reflexivity.
Qed.

Lemma refresh_pause bal now rm :
  trading_paused (refresh bal now rm) = trading_paused rm ∧
  pause_reason (refresh bal now rm) = pause_reason rm ∧
  pause_until (refresh bal now rm) = pause_until rm.
Proof.
  unfold refresh, _check_hourly_reset, _check_daily_reset, _update_peak_balance.
  repeat match goal with |- context [if ?b then _ else _] => destruct b end;
    repeat split; reflexivity.
Qed.

Lemma refresh_consecutive_losses bal now rm :
  consecutive_losses (stats (refresh bal now rm)) = consecutive_losses (stats rm).
Proof.
  unfold refresh, _check_hourly_reset, _check_daily_reset, _update_peak_balance.
  repeat match goal with |- context [if ?b then _ else _] => destruct b end;
    reflexivity.
Qed.

Lemma resumed_fields rm :
  risk_config (resumed rm) = risk_config rm ∧
  trading_config (resumed rm) = trading_config rm ∧
  stats (resumed rm) = stats rm ∧
  current_balance (resumed rm) = current_balance rm.
Proof. unfold resumed. destruct (trading_paused rm); repeat split; reflexivity. Qed.

(** ** The decision by score (C3) *)

Lemma multiplier_below score bound :
  0.1 < bound → 1 - score * (1 # 100) < bound → stake_multiplier score < bound.
Proof.
  intros Hb Hs. unfold stake_multiplier.
  assert (E : score / 100 == score * (1 # 100)) by (unfold Qdiv; reflexivity).
  apply Q.max_lub_lt; [exact Hb|]. rewrite E. lra.
Qed.

(** Rounding to the nearest integer moves a number by a half at most. *)
Lemma round_half_even_near q :
  - (1 # 2) <= inject (round_half_even q) - q ∧
  inject (round_half_even q) - q <= 1 # 2.
Proof.
  unfold round_half_even, inject.
  pose proof (Qfloor_le q) as Hlo. pose proof (Qlt_floor q) as Hhi.
  rewrite inject_Z_plus in Hhi. change (inject_Z 1) with 1 in Hhi.
  set (f := Qfloor q) in *.
  destruct (Qltb (q - inject_Z f) (1 # 2)) eqn:A.
  { apply Qltb_lt in A. split; lra. }
  apply Qltb_ge in A.
  assert (Hup : - (1 # 2) <= inject_Z (f + 1) - q ∧ inject_Z (f + 1) - q <= 1 # 2).
  { rewrite inject_Z_plus. change (inject_Z 1) with 1. split; lra. }
  destruct (Qltb (1 # 2) (q - inject_Z f)) eqn:B; [exact Hup|].
  apply Qltb_ge in B. destruct (Z.even f); [split; lra|exact Hup].
Qed.

(** [round(q, 2)] moves a number by half a cent at most. *)
Lemma round_cents_near q : Qabs (round q 2 - q) <= 1 # 200.
Proof.
  unfold round. rewrite Qred_correct.
  change (inject (pow10 2)) with 100.
  destruct (round_half_even_near (q * 100)) as [Hlo Hhi].
  set (z := inject (round_half_even (q * 100))) in *.
  assert (E : z / 100 == z * (1 # 100)) by (unfold Qdiv; reflexivity).
  apply Qabs_Qle_condition. rewrite E. split; lra.
Qed.

(** The outcome of the assessment when no pause is active and the checks
    end without an exception. *)
Lemma assess_trade_risk_checked sig bal now rm a :
  pause_active now (refresh bal now rm) = false →
  assess_checks sig (resumed (refresh bal now rm)) = inr a →
  assess_trade_risk sig bal now rm
  = (determine (resumed (refresh bal now rm)) a, resumed (refresh bal now rm)).
Proof.
  intros Hp Hc. unfold assess_trade_risk, assess_body. by rewrite Hp, Hc.
Qed.

(** C3, as the code has it.  When no pause is active and the checks
    collect no rejection: a summed score of 75 or more gives REJECTED
    with stake 0 and the reason "Risk score too high"; a score from 25 up
    to 75 gives REDUCED; a score under 25 gives APPROVED; and in both
    approving cases the recommended stake is the configured maximum stake
    times max(0.1, 1 - score/100), clamped to the maximum, up to the
    final rounding to two decimals: it lies less than 0.01 from that
    product.  (Which of two cent amounts a product halfway between them
    is rounded to is decided by the float arithmetic of the code, and is
    not stated.) *)
Theorem decision_by_score sig bal now rm score warns :
  pause_active now (refresh bal now rm) = false →
  assess_checks sig (resumed (refresh bal now rm)) = inr (score, warns, []) →
  let r := (assess_trade_risk sig bal now rm).1 in
  let max_stake := Settings.max_stake (trading_config rm) in
  let scaled := Qmin (max_stake * stake_multiplier score) max_stake in
  (75 <= score →
     decision r = TradeDecision.REJECTED ∧ recommended_stake r = 0 ∧
     rejection_reasons r = ["Risk score too high"]) ∧
  (25 <= score < 75 →
     decision r = TradeDecision.REDUCED ∧
     Qabs (recommended_stake r - scaled) < 1 # 100 ∧
     rejection_reasons r = []) ∧
  (score < 25 →
     decision r = TradeDecision.APPROVED ∧
     Qabs (recommended_stake r - scaled) < 1 # 100 ∧
     rejection_reasons r = []) ∧
  warnings r = warns.
Proof.
  intros Hp Hc r max_stake scaled. subst r.
  rewrite (assess_trade_risk_checked _ _ _ _ _ Hp Hc). cbn [fst].
  unfold determine.
  destruct (resumed_fields (refresh bal now rm)) as (_ & -> & _ & _).
  destruct (refresh_config bal now rm) as [_ ->]. fold max_stake. fold scaled.
  assert (Hnear : Qabs (round scaled 2 - scaled) < 1 # 100).
  { eapply Qle_lt_trans; [apply round_cents_near|reflexivity]. }
  destruct (Qgeb score 75) eqn:H75; [|destruct (Qgeb score 50) eqn:H50;
    [|destruct (Qgeb score 25) eqn:H25]]; cbn.
  - apply Qgeb_le in H75.
    split_and!; [intros _|intros [_ H]; lra|intros H; lra|done].
    split_and!; [done|apply round_zero|done].
  - apply Qgeb_lt in H75. apply Qgeb_le in H50.
    rewrite (proj2 (Qltb_lt _ _) (multiplier_below score 0.8 eq_refl ltac:(lra))).
    split_and!; [intros H; lra|intros _|intros H; lra|done]. done.
  - apply Qgeb_lt in H50. apply Qgeb_le in H25.
    rewrite (proj2 (Qltb_lt _ _) (multiplier_below score 0.9 eq_refl ltac:(lra))).
    split_and!; [intros H; lra|intros _|intros H; lra|done]. done.
  - apply Qgeb_lt in H25.
    split_and!; [intros H; lra|intros [H _]; lra|intros _|done]. done.
Qed.

(** A new manager with the default limits, and a confident signal of
    three ticks. *)
Definition fresh : RiskManager :=
  init Settings.default_risk Settings.default_trading 1700000000.

Definition short_signal : Signal.TradingSignal :=
  Signal.mkSignal Signal.SignalType.CALL 0.8 Signal.SignalStrength.STRONG 3
    1000 1700000000 "TEST" 25.

(** A score of 5 with a maximum stake of 0.25: APPROVED, at less than a
    cent from 0.25 * 0.95 = 0.2375. *)
Lemma decision_by_score_witness :
  decision (assess_trade_risk short_signal 5 1700000001 fresh).1
    = TradeDecision.APPROVED ∧
  Qabs (recommended_stake (assess_trade_risk short_signal 5 1700000001 fresh).1
        - 0.2375) < 1 # 100.
Proof.
  assert (Hp : pause_active 1700000001 (refresh 5 1700000001 fresh) = false)
    by (vm_compute; reflexivity).
  assert (Hc : assess_checks short_signal (resumed (refresh 5 1700000001 fresh))
               = inr (5, ["Very short duration signal"], []))
    by (vm_compute; reflexivity).
  destruct (decision_by_score short_signal 5 1700000001 fresh 5
              ["Very short duration signal"] Hp Hc) as (_ & _ & Hlow & _).
  assert (H25 : 5 < 25) by (vm_compute; reflexivity).
  destruct (Hlow H25) as (Hd & Hs & _).
  split; [exact Hd|].
  assert (E : Qmin (Settings.max_stake (trading_config fresh) * stake_multiplier 5)
                   (Settings.max_stake (trading_config fresh)) = 0.2375)
    by (vm_compute; reflexivity).
  rewrite E in Hs. exact Hs.
Defined.

(** What the specification asks of a score under 25: APPROVED at the full
    stake (the configured maximum). *)
Definition full_stake_below_25 sig bal now rm : Prop :=
  ∀ score warns,
    pause_active now (refresh bal now rm) = false →
    assess_checks sig (resumed (refresh bal now rm)) = inr (score, warns, []) →
    score < 25 →
    let r := (assess_trade_risk sig bal now rm).1 in
    decision r = TradeDecision.APPROVED ∧
    recommended_stake r == Settings.max_stake (trading_config rm).

(** A score of 5 is approved, at 0.24 of a maximum stake of 0.25. *)
Lemma approved_below_full_stake :
  ¬ full_stake_below_25 short_signal 5 1700000001 fresh.
Proof.
  intros H.
  assert (Hp : pause_active 1700000001 (refresh 5 1700000001 fresh) = false)
    by (vm_compute; reflexivity).
  assert (Hc : assess_checks short_signal (resumed (refresh 5 1700000001 fresh))
               = inr (5, ["Very short duration signal"], []))
    by (vm_compute; reflexivity).
  assert (H25 : 5 < 25) by (vm_compute; reflexivity).
  destruct (H 5 ["Very short duration signal"] Hp Hc H25) as [_ Hs].
  clear - Hs. vm_compute in Hs. discriminate Hs.
Qed.

(** ** Exceptions inside the assessment (C9) *)

Lemma refresh_current_balance bal now rm :
  current_balance (refresh bal now rm) = bal.
Proof.
  unfold refresh, _check_hourly_reset, _check_daily_reset, _update_peak_balance.
  repeat match goal with |- context [if ?b then _ else _] => destruct b end;
    reflexivity.
Qed.

(** The checks raise exactly on a zero balance. *)
Lemma assess_checks_raises sig rm e :
  assess_checks sig rm = inl e ↔
  Qeq_bool (current_balance rm) 0 = true ∧ e = ZeroDivisionError.
Proof.
  unfold assess_checks, _assess_balance_risk.
  destruct (_assess_daily_risk rm) as [[? ?] ?].
  destruct (_assess_consecutive_risk rm) as [[? ?] ?].
  destruct (_assess_frequency_risk rm) as [[? ?] ?].
  destruct (_assess_drawdown_risk rm) as [[? ?] ?].
  destruct (_assess_signal_risk sig) as [? ?].
  destruct e.
  repeat match goal with |- context [if ?b then _ else _] => destruct b end;
    split; (intros [? ?] || intros ?); (done || discriminate).
Qed.

(** The body of the [try] raises exactly when no pause is active and the
    balance is zero. *)
Lemma assess_body_raises sig bal now rm e rm' :
  assess_body sig bal now rm = (inl e, rm') ↔
  pause_active now (refresh bal now rm) = false ∧ Qeq_bool bal 0 = true ∧
  e = ZeroDivisionError ∧ rm' = resumed (refresh bal now rm).
Proof.
  unfold assess_body.
  destruct (pause_active now (refresh bal now rm)).
  - split; [discriminate|]. intros [? _]. discriminate.
  - pose proof (assess_checks_raises sig (resumed (refresh bal now rm))) as Hr.
    destruct (resumed_fields (refresh bal now rm)) as (_ & _ & _ & Hb).
    rewrite Hb, refresh_current_balance in Hr.
    destruct (assess_checks sig (resumed (refresh bal now rm))) as [e'|a].
    + destruct (proj1 (Hr e') eq_refl) as [Hz ->]. destruct e. split.
      * intros [= <-]. done.
      * intros (_ & _ & _ & ->). done.
    + split; [discriminate|]. intros (_ & Hz & -> & _).
      discriminate (proj2 (Hr ZeroDivisionError) (conj Hz eq_refl)).
Qed.

(** C9: [assess_trade_risk] always returns an assessment; when a step
    inside it raises, the exception does not leave the function: the
    result is REJECTED with stake 0 and score 100, and the message of the
    exception is among the rejection reasons. *)
Theorem assess_trade_risk_catches sig bal now rm e rm' :
  assess_body sig bal now rm = (inl e, rm') →
  let r := (assess_trade_risk sig bal now rm).1 in
  decision r = TradeDecision.REJECTED ∧
  recommended_stake r = 0 ∧
  risk_score r = 100 ∧
  risk_level r = RiskLevel.EXTREME ∧
  rejection_reasons r = [("Risk assessment error: " ++ str e)%string] ∧
  (assess_trade_risk sig bal now rm).2 = rm'.
Proof.
  intros H r. subst r. unfold assess_trade_risk. rewrite H. cbn.
  repeat split.
Qed.

Lemma assess_trade_risk_catches_witness :
  decision (assess_trade_risk short_signal 0 1700000001 fresh).1
    = TradeDecision.REJECTED ∧
  rejection_reasons (assess_trade_risk short_signal 0 1700000001 fresh).1
    = ["Risk assessment error: float division by zero"%string].
Proof.
  assert (H : assess_body short_signal 0 1700000001 fresh
              = (inl ZeroDivisionError, resumed (refresh 0 1700000001 fresh))).
  { vm_compute. reflexivity. }
  destruct (assess_trade_risk_catches short_signal 0 1700000001 fresh _ _ H)
    as (Hd & _ & _ & _ & Hr & _).
  split; [exact Hd|exact Hr].
Defined.

(** ** The pause after consecutive losses (C4) *)

(** Losing outcomes recorded one after the other, each with its loss and
    the time it is recorded at. *)
Fixpoint record_losses (ls : list (Q * Q)) (rm : RiskManager) : RiskManager :=
  match ls with
  | [] => rm
  | (pl, t) :: ls' => record_losses ls' (record_trade_result pl false t rm)
  end.


(** The streak of losses has reached its ceiling. *)
Definition tripped (rm : RiskManager) : Prop :=
  (Settings.max_consecutive_losses (risk_config rm)
     ≤ consecutive_losses (stats rm))%Z.




Lemma check_auto_pause_frame now rm :
  let rm' := _check_auto_pause_conditions now rm in
  stats rm' = stats rm ∧ risk_config rm' = risk_config rm ∧
  peak_balance rm' = peak_balance rm ∧ current_balance rm' = current_balance rm.
Proof.
  unfold _check_auto_pause_conditions, _pause_trading.
  repeat match goal with |- context [if ?b then _ else _] => destruct b end;
    repeat split; reflexivity.
Qed.



Lemma record_fields pl won t rm :
  let rm' := record_trade_result pl won t rm in
  risk_config rm' = risk_config rm ∧
  consecutive_losses (stats rm')
    = (if won then 0 else consecutive_losses (stats rm) + 1)%Z.
Proof.
  unfold record_trade_result.
  destruct (check_auto_pause_frame t
    (with_hourly (hourly_trade_count rm + 1) (hourly_reset_time rm)
       (with_stats (update_stats pl won t (stats rm)) rm))) as (-> & -> & _ & _).
  split; [reflexivity|]. unfold update_stats. by destruct won.
Qed.


(** With the streak at its ceiling the checks collect a rejection. *)
Lemma checks_reject_when_tripped sig rm score warns rejections :
  tripped rm → assess_checks sig rm = inr (score, warns, rejections) →
  rejections ≠ [].
Proof.
  unfold tripped. intros H. apply Z.geb_le in H.
  unfold assess_checks, _assess_consecutive_risk. rewrite H.
  destruct (_assess_balance_risk rm) as [e|[[? ?] br]]; [discriminate|].
  destruct (_assess_daily_risk rm) as [[? ?] dr].
  destruct (_assess_frequency_risk rm) as [[? ?] ?].
  destruct (_assess_drawdown_risk rm) as [[? ?] ?].
  destruct (_assess_signal_risk sig) as [? ?].
  intros [= _ _ <-]. by destruct br, dr.
Qed.

(** So every evaluation is rejected, and the streak stays as it is. *)
Lemma assess_rejects_when_tripped sig bal now rm :
  tripped rm →
  decision (assess_trade_risk sig bal now rm).1 = TradeDecision.REJECTED ∧
  recommended_stake (assess_trade_risk sig bal now rm).1 = 0 ∧
  tripped (assess_trade_risk sig bal now rm).2.
Proof.
  intros H.
  assert (Ht : tripped (refresh bal now rm)).
  { unfold tripped. rewrite refresh_consecutive_losses.
    by destruct (refresh_config bal now rm) as [-> _]. }
  assert (Ht' : tripped (resumed (refresh bal now rm))).
  { unfold tripped.
    by destruct (resumed_fields (refresh bal now rm)) as (-> & _ & -> & _). }
  unfold assess_trade_risk, assess_body.
  destruct (pause_active now (refresh bal now rm)); [done|].
  destruct (assess_checks sig (resumed (refresh bal now rm)))
    as [e|[[score warns] rejections]] eqn:E; [done|].
  pose proof (checks_reject_when_tripped _ _ _ _ _ Ht' E) as Hne.
  destruct rejections as [|x rejections]; [done|]. cbn.
  by rewrite round_zero.
Qed.


(** While the pause lasts, the one reason given is the pause reason. *)
Lemma assess_while_paused sig bal now rm :
  trading_paused rm = true → now < pause_until rm →
  rejection_reasons (assess_trade_risk sig bal now rm).1
  = [("Trading paused: " ++ pause_reason rm)%string].
Proof.
  intros Hp Hlt. unfold assess_trade_risk, assess_body, pause_active.
  destruct (refresh_pause bal now rm) as (-> & -> & ->).
  rewrite Hp. by rewrite (proj2 (Qltb_lt _ _) Hlt).
Qed.






(** Four losses of a full stake, a second apart. *)
Definition four_losses : list (Q * Q) :=
  [(-0.25, 1700000011); (-0.25, 1700000012); (-0.25, 1700000013);
   (-0.25, 1700000014)].






(** ** Scenarios *)

(** One loss away from the limit, at a balance of 5: approved at a
    reduced stake. *)
Example one_loss_from_the_limit :
  let r := (assess_trade_risk short_signal 5 1700000020
              (record_losses four_losses fresh)).1 in
  decision r = TradeDecision.REDUCED ∧ risk_score r = 45 ∧
  recommended_stake r = (7 # 50) ∧ rejection_reasons r = [].
Proof. vm_compute. repeat split. Qed.

(** No limit is breached, and still the score is too high. *)
Example score_too_high :
  let weak := Signal.mkSignal Signal.SignalType.PUT 0.3 Signal.SignalStrength.WEAK
                3 1000 1700000000 "TEST" 75 in
  let r := (assess_trade_risk weak 2.2 1700000020
              (record_losses four_losses fresh)).1 in
  decision r = TradeDecision.REJECTED ∧ risk_score r = (392 # 5) ∧
  recommended_stake r = 0 ∧ rejection_reasons r = ["Risk score too high"].
Proof. vm_compute. repeat split. Qed.

End RiskProps.

(** * Properties of the order lifecycle *)

Module ExecutorProps.

Import Py Executor.
Local Open Scope Q_scope.

(** ** The dict of active trades *)

Section DictFacts.
Context {V : Type}.
Implicit Types (d : list (string * V)) (k : string).

Lemma elem_of_filter (f : string * V → bool) d x :
  x ∈ List.filter f d ↔ x ∈ d ∧ f x = true.
Proof. rewrite !list_elem_of_In. apply filter_In. Qed.

Lemma dict_del_set k v d : dict_del k (dict_set k v d) = dict_del k d.
Proof.
  induction d as [|[k' v'] d IH]; simpl.
  - by rewrite String.eqb_refl.
  - destruct (String.eqb k k') eqn:E; simpl.
    + by rewrite String.eqb_refl.
    + by rewrite E, IH.
Qed.

Lemma dict_get_elem k v d : dict_get k d = Some v → (k, v) ∈ d.
Proof.
  induction d as [|[k' v'] d IH]; simpl; [discriminate|].
  destruct (String.eqb k k') eqn:E.
  - apply String.eqb_eq in E as ->. intros [= ->]. by left.
  - intros H. right. by apply IH.
Qed.

Lemma elem_dict_get k v d : NoDup d.*1 → (k, v) ∈ d → dict_get k d = Some v.
Proof.
  induction d as [|[k' v'] d IH]; simpl; intros Hnd H.
  - by apply elem_of_nil in H.
  - apply NoDup_cons in Hnd as [Hnotin Hnd].
    apply elem_of_cons in H as [H|H].
    + injection H as -> ->. by rewrite String.eqb_refl.
    + destruct (String.eqb k k') eqn:E; [|by apply IH].
      apply String.eqb_eq in E as ->. exfalso. apply Hnotin.
      apply list_elem_of_fmap. by exists (k', v).
Qed.

Lemma dict_get_absent k d : (∀ v, (k, v) ∉ d) → dict_get k d = None.
Proof.
  intros H. destruct (dict_get k d) as [v|] eqn:E; [|done].
  apply dict_get_elem in E. by apply H in E.
Qed.

(** Without repeated keys, deleting a key keeps what has another key. *)
Lemma dict_del_filter k d :
  NoDup d.*1 →
  dict_del k d = List.filter (fun x => negb (String.eqb k x.1)) d.
Proof.
  induction d as [|[k' v'] d IH]; simpl; [done|].
  intros Hnd. apply NoDup_cons in Hnd as [Hnotin Hnd].
  destruct (String.eqb k k') eqn:E; simpl.
  - apply String.eqb_eq in E as ->. symmetry. apply forallb_filter_id.
    apply forallb_forall. intros [k2 v2] Hin. simpl.
    destruct (String.eqb k' k2) eqn:E2; [|done].
    apply String.eqb_eq in E2 as ->. exfalso. apply Hnotin.
    apply list_elem_of_fmap. exists (k2, v2). split; [done|].
    by apply list_elem_of_In.
  - by rewrite IH.
Qed.

Lemma NoDup_keys_filter (f : string * V → bool) d :
  NoDup d.*1 → NoDup (List.filter f d).*1.
Proof.
  induction d as [|x d IH]; simpl; [done|].
  intros Hnd. apply NoDup_cons in Hnd as [Hnotin Hnd].
  destruct (f x); simpl; [|by apply IH].
  apply NoDup_cons. split; [|by apply IH].
  intros Hin. apply Hnotin. apply list_elem_of_fmap in Hin as [y [Hy Hin]].
  apply elem_of_filter in Hin as [Hin _]. apply list_elem_of_fmap. by exists y.
Qed.

End DictFacts.

(** ** The invariant is kept *)

Section DictUpdates.
Context {V : Type}.
Implicit Types (d : list (string * V)) (k : string).

Lemma dict_get_set_eq k v d : dict_get k (dict_set k v d) = Some v.
Proof.
  induction d as [|[k' v'] d IH]; simpl.
  - by rewrite String.eqb_refl.
  - destruct (String.eqb k k') eqn:E; simpl; [by rewrite String.eqb_refl|].
    by rewrite E.
Qed.

Lemma dict_get_set_ne k k' v d :
  k ≠ k' → dict_get k' (dict_set k v d) = dict_get k' d.
Proof.
  intros Hne. induction d as [|[k2 v2] d IH]; simpl.
  - by rewrite (proj2 (String.eqb_neq k' k)).
  - destruct (String.eqb k k2) eqn:E; simpl.
    + apply String.eqb_eq in E as <-.
      by rewrite (proj2 (String.eqb_neq k' k)).
    + by rewrite IH.
Qed.

Lemma dict_set_keys k v d :
  (dict_set k v d).*1
  = match dict_get k d with Some _ => d.*1 | None => d.*1 ++ [k] end.
Proof.
  induction d as [|[k' v'] d IH]; [done|]. cbn [dict_set dict_get].
  destruct (String.eqb k k') eqn:E.
  - apply String.eqb_eq in E as <-. by rewrite !fmap_cons.
  - rewrite !fmap_cons, IH. by destruct (dict_get k d).
Qed.

Lemma elem_of_dict_set k v d x :
  x ∈ dict_set k v d → x = (k, v) ∨ x ∈ d.
Proof.
  induction d as [|[k' v'] d IH]; simpl.
  - intros H. apply list_elem_of_singleton in H. by left.
  - destruct (String.eqb k k') eqn:E; intros H;
      apply elem_of_cons in H as [H|H].
    + by left.
    + right. by right.
    + right. rewrite H. by left.
    + destruct (IH H) as [?|?]; [by left|]. right. by right.
Qed.

End DictUpdates.

Lemma wf_init rm : wf (init rm).
Proof.
  unfold wf. simpl. split_and!.
  - constructor.
  - intros k t H. by apply elem_of_nil in H.
  - intros cid tid t H. by rewrite lookup_empty in H.
Qed.

(** Writing to a trade object in place, its ids untouched. *)
Lemma wf_update rm completed ex tid t t1 :
  wf ex → dict_get tid (active_trades ex) = Some t →
  trade_id t1 = trade_id t → contract_id t1 = contract_id t →
  wf (with_tables rm (dict_set tid t1 (active_trades ex)) completed
        (contract_subscriptions ex) ex).
Proof.
  intros (Hnd & Hid & Hsub) Hg Hti Hci. unfold wf. cbn. split_and!.
  - by rewrite dict_set_keys, Hg.
  - intros k t' H. apply elem_of_dict_set in H as [[= -> ->]|H]; [|by apply Hid].
    rewrite Hti. by apply Hid, dict_get_elem.
  - intros cid tid' t' Hc Hg'. destruct (decide (tid = tid')) as [<-|Hne].
    + rewrite dict_get_set_eq in Hg'. injection Hg' as <-. rewrite Hci.
      by eapply Hsub.
    + rewrite dict_get_set_ne in Hg' by done. by eapply Hsub.
Qed.

(** Taking a trade out of the active set, with or without its route. *)
Lemma wf_remove rm completed ex tid (subs : gmap string string) :
  wf ex →
  (∀ cid tid', subs !! cid = Some tid' →
               contract_subscriptions ex !! cid = Some tid') →
  wf (with_tables rm (dict_del tid (active_trades ex)) completed subs ex).
Proof.
  intros (Hnd & Hid & Hsub) Hsubs. unfold wf. cbn.
  rewrite dict_del_filter by done. split_and!.
  - by apply NoDup_keys_filter.
  - intros k t H. apply elem_of_filter in H as [H _]. by apply Hid.
  - intros cid tid' t Hc Hg. apply (Hsub cid tid' t); [by apply Hsubs|].
    apply dict_get_elem, elem_of_filter in Hg as [Hg _]. by apply elem_dict_get.
Qed.

Lemma handle_contract_update_wf push now ex :
  wf ex → wf (handle_contract_update push now ex).
Proof.
  intros Hwf. unfold handle_contract_update.
  destruct (info_contract_id _) as [cid|]; [|done].
  destruct (negb (truthy (Some cid))); [done|].
  destruct (contract_subscriptions ex !! cid) as [tid|] eqn:Hc; [|done].
  destruct (dict_get tid (active_trades ex)) as [t|] eqn:Hg; [|done].
  set (t1 := match current_spot _ with
             | Some x => if Qeq_bool x 0 then t else with_exit_price (Some x) t
             | None => t
             end).
  assert (Ht1 : trade_id t1 = trade_id t ∧ contract_id t1 = contract_id t).
  { unfold t1. destruct (current_spot _) as [x|]; [|done].
    by destruct (Qeq_bool x 0). }
  destruct Ht1 as [Hti Hci].
  pose proof (wf_update (risk_manager ex) (completed_trades ex) ex tid t t1
                Hwf Hg Hti Hci) as Hwf1.
  destruct (is_sold _); [|done].
  set (ex1 := with_tables _ _ _ _ ex) in *.
  assert (Hg1 : dict_get tid (active_trades ex1) = Some t1)
    by apply dict_get_set_eq.
  assert (Htid : trade_id t = tid).
  { destruct Hwf as (_ & Hid & _). by apply Hid, dict_get_elem. }
  unfold _finalize_trade.
  destruct (match sell_spot _ with Some x => Some x | None => _ end) as [spot|].
  - cbn [trade_id with_status with_profit_loss with_exit_price with_exit_time
         contract_id].
    rewrite Hti, Htid, dict_del_set.
    apply (wf_remove _ _ ex1 tid _ Hwf1).
    intros cid' tid' H. destruct (truthy (contract_id t1)); [|done].
    destruct (contract_id t1); [|done].
    by apply lookup_delete_Some in H as [_ H].
  - by apply (wf_update _ _ ex1 tid t1 _ Hwf1 Hg1).
Qed.

(** A placement under an id that is not in use keeps the invariant. *)
Lemma execute_trade_wf sig bal now now_end placed ex :
  wf ex →
  let tid := (_generate_trade_id now (trade_counter ex)).1 in
  dict_get tid (active_trades ex) = None →
  (∀ cid, contract_subscriptions ex !! cid ≠ Some tid) →
  wf (execute_trade sig bal now now_end placed ex).2.
Proof.
  intros Hwf tid Hfresh Hunrouted. pose proof Hwf as (Hnd & Hid & Hsub).
  unfold execute_trade.
  destruct (Risk.assess_trade_risk sig bal now (risk_manager ex)) as [a rm].
  unfold tid in *. clear tid.
  destruct (_generate_trade_id now (trade_counter ex)) as [tid counter].
  simpl in Hfresh, Hunrouted.
  assert (Hplaced : ∀ b, wf
    (mkExecutor rm
       (dict_set tid
          (mkTrade tid sig (Signal.SignalType.value (Signal.signal_type sig))
             (Risk.recommended_stake a) (Signal.duration sig)
             (Signal.entry_price sig) now TradeStatus.ACTIVE
             (buy_contract_id b) None None None (buy_payout b) (buy_barrier b))
          (active_trades ex))
       (completed_trades ex) counter (total_executions ex + 1)
       (successful_executions ex + 1) (failed_executions ex)
       (rejected_executions ex)
       (if truthy (buy_contract_id b)
        then match buy_contract_id b with
             | Some cid => <[cid := tid]> (contract_subscriptions ex)
             | None => contract_subscriptions ex
             end
        else contract_subscriptions ex))).
  { intros b. unfold wf. cbn. split_and!.
    - rewrite dict_set_keys, Hfresh. apply NoDup_app. split_and!; [done| |].
      + intros k Hk Hk'. apply list_elem_of_singleton in Hk'. subst k.
        apply list_elem_of_fmap in Hk as [[k v] [Hk Hin]]. simpl in Hk. subst k.
        by rewrite (elem_dict_get _ _ _ Hnd Hin) in Hfresh.
      + apply NoDup_singleton.
    - intros k t H. apply elem_of_dict_set in H as [[= -> ->]|H]; [done|].
      by apply Hid.
    - intros cid tid' t Hc Hg. destruct (decide (tid = tid')) as [<-|Hne].
      + rewrite dict_get_set_eq in Hg. injection Hg as <-. cbn.
        destruct (truthy (buy_contract_id b)); [|by apply Hunrouted in Hc].
        destruct (buy_contract_id b) as [cid'|]; [|by apply Hunrouted in Hc].
        apply lookup_insert_Some in Hc as [[-> _]|[_ Hc]]; [done|].
        by apply Hunrouted in Hc.
      + rewrite dict_get_set_ne in Hg by done. apply (Hsub cid tid' t); [|done].
        destruct (truthy (buy_contract_id b)); [|done].
        destruct (buy_contract_id b) as [cid'|]; [|done].
        apply lookup_insert_Some in Hc as [[_ Hc]|[_ Hc]]; [congruence|done]. }
  destruct (Risk.decision a); try exact Hwf;
    (destruct (_place_order _ placed) as [b|]; [apply Hplaced|exact Hwf]).
Qed.


(** ** A placement that fails (C6) *)

(** The executor of a new manager, and a placement that succeeds with
    contract id "c1". *)
Definition idle : TradeExecutor := init RiskProps.fresh.

(** What the specification asks of a placement that fails: the order,
    in ERROR, is in the completed set afterwards. *)
Definition failed_order_is_completed sig bal now now_end ex : Prop :=
  let out := execute_trade sig bal now now_end None ex in
  ∃ t, trade out.1 = Some t ∧ status t = TradeStatus.ERROR ∧
       In t (completed_trades out.2).

(** The failed order is only in the report: the completed set stays
    empty. *)
Lemma failed_order_not_completed :
  result (execute_trade RiskProps.short_signal 5 1700000001 1700000002 None idle).1
    = ExecutionResult.FAILED ∧
  completed_trades
    (execute_trade RiskProps.short_signal 5 1700000001 1700000002 None idle).2 = [] ∧
  ¬ failed_order_is_completed RiskProps.short_signal 5 1700000001 1700000002 idle.
Proof.
  assert (Hc : completed_trades
    (execute_trade RiskProps.short_signal 5 1700000001 1700000002 None idle).2 = [])
    by (vm_compute; reflexivity).
  split; [vm_compute; reflexivity|]. split; [exact Hc|].
  intros (t & _ & _ & Hin). cbv zeta in Hin. rewrite Hc in Hin. destruct Hin.
Qed.

Lemma place_order_none t : _place_order t None = None.
Proof. unfold _place_order. by destruct (_ || _). Qed.

(** C6, as the code has it: when the evaluation does not reject and the
    placement returns nothing, the order that was created is set to ERROR
    and handed back in the report, with result FAILED; it enters neither
    the active set nor the completed set, no contract id is registered,
    and the risk manager is left as the evaluation left it: no outcome is
    recorded. *)
Theorem failed_placement sig bal now now_end ex :
  Risk.decision (Risk.assess_trade_risk sig bal now (risk_manager ex)).1
    ≠ Risk.TradeDecision.REJECTED →
  let out := execute_trade sig bal now now_end None ex in
  result out.1 = ExecutionResult.FAILED ∧
  (∃ t, trade out.1 = Some t ∧ status t = TradeStatus.ERROR ∧
        trade_id t = (_generate_trade_id now (trade_counter ex)).1) ∧
  active_trades out.2 = active_trades ex ∧
  completed_trades out.2 = completed_trades ex ∧
  contract_subscriptions out.2 = contract_subscriptions ex ∧
  risk_manager out.2 = (Risk.assess_trade_risk sig bal now (risk_manager ex)).2 ∧
  failed_executions out.2 = (failed_executions ex + 1)%Z.
Proof.
  intros Hd out. subst out. unfold execute_trade.
  destruct (Risk.assess_trade_risk sig bal now (risk_manager ex)) as [a rm] eqn:E.
  simpl in Hd.
  destruct (_generate_trade_id now (trade_counter ex)) as [tid counter] eqn:G.
  destruct (Risk.decision a) eqn:D; try congruence;
    rewrite place_order_none; cbn; split_and!; try done; eexists; by split_and!.
Qed.

Lemma failed_placement_witness :
  result (execute_trade RiskProps.short_signal 5 1700000001 1700000002 None idle).1
    = ExecutionResult.FAILED ∧
  active_trades
    (execute_trade RiskProps.short_signal 5 1700000001 1700000002 None idle).2 = [].
Proof.
  assert (Hd : Risk.decision
      (Risk.assess_trade_risk RiskProps.short_signal 5 1700000001
         (risk_manager idle)).1 ≠ Risk.TradeDecision.REJECTED)
    by (vm_compute; discriminate).
  destruct (failed_placement RiskProps.short_signal 5 1700000001 1700000002 idle Hd)
    as (Hr & _ & Ha & _).
  split; [exact Hr|]. rewrite Ha. reflexivity.
Defined.

(** ** The expiry sweep (C7) *)

(** What the sweep makes of an expired trade. *)
Definition mark (now : Q) (t : Trade) : Trade :=
  with_exit_time (Some now) (with_status TradeStatus.ERROR t).

(** The trades the sweep completes: expired, and with a contract id. *)
Definition swept (now : Q) (kt : string * Trade) : bool :=
  expired now kt.2 && truthy (contract_id kt.2).

(** How many trades of a list carry a given trade id. *)
Definition count_id (k : string) (l : list Trade) : nat :=
  length (List.filter (fun t => String.eqb (trade_id t) k) l).

Lemma count_id_app k l1 l2 : count_id k (l1 ++ l2) = (count_id k l1 + count_id k l2)%nat.
Proof. unfold count_id. by rewrite List.filter_app, length_app. Qed.

Lemma filter_filter {A} (f g : A → bool) l :
  List.filter f (List.filter g l) = List.filter (fun x => g x && f x) l.
Proof.
  induction l as [|x l IH]; simpl; [done|].
  destruct (g x); simpl; [|done]. destruct (f x); by rewrite IH.
Qed.

Lemma filter_all {A} (l : list A) : List.filter (fun _ => true) l = l.
Proof. induction l as [|x l IH]; simpl; by rewrite ?IH. Qed.

(** The second loop of the sweep, over any list of trade objects. *)
Lemma sweep_fold now L ex :
  NoDup (active_trades ex).*1 →
  (∀ k t, (k, t) ∈ L → trade_id t = k) →
  let ex' := fold_left (expire_one now) L ex in
  active_trades ex'
    = List.filter
        (fun x => negb (existsb (fun kt => truthy (contract_id kt.2)
                                             && String.eqb kt.1 x.1) L))
        (active_trades ex) ∧
  completed_trades ex'
    = completed_trades ex
        ++ map (mark now) (List.filter (fun t => truthy (contract_id t)) (map snd L)) ∧
  risk_manager ex' = risk_manager ex ∧
  contract_subscriptions ex' = contract_subscriptions ex.
Proof.
  revert ex. induction L as [|[k t] L IH]; intros ex Hnd Hid; simpl.
  - by rewrite filter_all, app_nil_r.
  - assert (Hid' : ∀ k' t', (k', t') ∈ L → trade_id t' = k').
    { intros k' t' H. apply Hid. by right. }
    destruct (truthy (contract_id t)) eqn:Ht; simpl.
    + assert (Hk : trade_id t = k) by (apply Hid; by left).
      set (ex1 := with_tables _ _ _ _ ex).
      assert (Ha : active_trades ex1
                   = List.filter (fun x => negb (String.eqb k x.1)) (active_trades ex)).
      { unfold ex1. cbn. rewrite Hk, dict_del_set. by apply dict_del_filter. }
      destruct (IH ex1) as (Ha' & Hc' & Hr' & Hs'); [|done|].
      { rewrite Ha. by apply NoDup_keys_filter. }
      rewrite Ha', Hc', Hr', Hs', Ha. split_and!; try done.
      * rewrite filter_filter. apply filter_ext. intros [k2 t2]. simpl.
        by rewrite negb_orb.
      * unfold ex1. cbn. by rewrite <- app_assoc.
    + by apply IH.
Qed.

(** In a well-formed executor an entry is found under its key. *)
Lemma existsb_same_key (f : string * Trade → bool) d x :
  NoDup d.*1 → x ∈ d →
  existsb (fun kt => f kt && String.eqb kt.1 x.1) d = f x.
Proof.
  destruct x as [k t]. simpl. intros Hnd Hin.
  destruct (existsb _ d) eqn:E.
  - apply existsb_exists in E as ([k' t'] & Hin' & H). simpl in H.
    apply andb_true_iff in H as [Hf Hk]. apply String.eqb_eq in Hk as ->.
    apply list_elem_of_In in Hin'.
    pose proof (elem_dict_get _ _ _ Hnd Hin) as H1.
    pose proof (elem_dict_get _ _ _ Hnd Hin') as H2. congruence.
  - destruct (f (k, t)) eqn:Hf; [|done]. exfalso.
    assert (existsb (fun kt => f kt && String.eqb kt.1 k) d = true); [|congruence].
    apply existsb_exists. exists (k, t). split; [by apply list_elem_of_In|].
    simpl. by rewrite Hf, String.eqb_refl.
Qed.

Lemma existsb_filter {A} (f g : A → bool) l :
  existsb f (List.filter g l) = existsb (fun x => g x && f x) l.
Proof.
  induction l as [|x l IH]; simpl; [done|].
  destruct (g x); simpl; by rewrite IH.
Qed.

Lemma existsb_pointwise {A} (f g : A → bool) l :
  (∀ x, f x = g x) → existsb f l = existsb g l.
Proof.
  intros H. induction l as [|x l IH]; simpl; [done|]. by rewrite H, IH.
Qed.

Lemma filter_map_snd (f g : Trade → bool) (d : list (string * Trade)) :
  List.filter f (map snd (List.filter (fun kt => g kt.2) d))
  = map snd (List.filter (fun kt => g kt.2 && f kt.2) d).
Proof.
  induction d as [|[k t] d IH]; simpl; [done|].
  destruct (g t); simpl; [|done]. destruct (f t); simpl; by rewrite IH.
Qed.

(** The sweep as a whole: the swept trades leave the active set, in
    order, and join the completed set, marked. *)
Lemma sweep_spec now ex :
  wf ex →
  let ex' := check_expired_trades now ex in
  active_trades ex'
    = List.filter (fun x => negb (swept now x)) (active_trades ex) ∧
  completed_trades ex'
    = completed_trades ex
        ++ map (mark now) (map snd (List.filter (swept now) (active_trades ex))) ∧
  risk_manager ex' = risk_manager ex ∧
  contract_subscriptions ex' = contract_subscriptions ex.
Proof.
  intros (Hnd & Hid & Hsub). unfold check_expired_trades.
  destruct (sweep_fold now
              (List.filter (fun kt => expired now kt.2) (active_trades ex)) ex Hnd)
    as (Ha & Hc & Hr & Hs).
  { intros k t H. apply elem_of_filter in H as [H _]. by apply Hid. }
  cbv zeta. rewrite Ha, Hc, Hr, Hs. split_and!; try done.
  - apply filter_ext_in. intros x Hin. apply list_elem_of_In in Hin.
    rewrite existsb_filter. f_equal.
    rewrite <- (existsb_same_key (swept now) _ x Hnd Hin).
    apply existsb_pointwise. intros [k t]. unfold swept. simpl.
    by rewrite andb_assoc.
  - by rewrite filter_map_snd.
Qed.

Lemma sweep_wf now ex : wf ex → wf (check_expired_trades now ex).
Proof.
  intros Hwf. destruct (sweep_spec now ex Hwf) as (Ha & _ & _ & Hs).
  destruct Hwf as (Hnd & Hid & Hsub). unfold wf. rewrite Ha, Hs. split_and!.
  - by apply NoDup_keys_filter.
  - intros k t H. apply elem_of_filter in H as [H _]. by apply Hid.
  - intros cid tid t Hc Hg. apply (Hsub cid tid t Hc).
    apply dict_get_elem, elem_of_filter in Hg as [Hg _].
    by apply elem_dict_get.
Qed.

(** How many of the trades a sweep completes carry the id [k]: one if the
    trade stored under [k] is swept, none otherwise. *)
Lemma count_id_completed now (f : string * Trade → bool) k d :
  NoDup d.*1 → (∀ k' t, (k', t) ∈ d → trade_id t = k') →
  count_id k (map (mark now) (map snd (List.filter f d)))
  = match dict_get k d with
    | Some t => if f (k, t) then 1%nat else 0%nat
    | None => 0%nat
    end.
Proof.
  induction d as [|[k' t'] d IH]; intros Hnd Hid; simpl; [done|].
  apply NoDup_cons in Hnd as [Hnotin Hnd].
  assert (Hid' : ∀ k2 t2, (k2, t2) ∈ d → trade_id t2 = k2).
  { intros k2 t2 H. apply Hid. by right. }
  assert (Hk' : trade_id t' = k') by (apply Hid; by left).
  specialize (IH Hnd Hid').
  destruct (String.eqb k k') eqn:E.
  - apply String.eqb_eq in E as ->.
    assert (Hnone : dict_get k' d = None).
    { apply dict_get_absent. intros v Hv. apply Hnotin.
      apply list_elem_of_fmap. by exists (k', v). }
    rewrite Hnone in IH. destruct (f (k', t')); simpl; [|done].
    unfold count_id in *. simpl. rewrite Hk', String.eqb_refl. simpl.
    by rewrite IH.
  - destruct (f (k', t')); simpl; [|done].
    unfold count_id in *. simpl. rewrite Hk', String.eqb_sym, E. done.
Qed.

(** C7, as the code has it.  In a well-formed executor, take an active
    trade whose entry time plus 1.1 times its duration lies before the
    current time.  If the trade has a contract id, the sweep sets it to
    ERROR with the current time as exit time, takes it out of the active
    set and appends it to the completed set, once; a later sweep neither
    finds it in the active set nor completes it again.  If the trade has
    no contract id, the sweep leaves it in the active set as it is. *)
Theorem expiry_sweep ex k t now :
  wf ex → (k, t) ∈ active_trades ex → expired now t = true →
  let ex' := check_expired_trades now ex in
  wf ex' ∧
  (truthy (contract_id t) = true →
     status (mark now t) = TradeStatus.ERROR ∧
     dict_get k (active_trades ex') = None ∧
     mark now t ∈ completed_trades ex' ∧
     count_id k (completed_trades ex') = S (count_id k (completed_trades ex)) ∧
     ∀ now2, let ex'' := check_expired_trades now2 ex' in
             dict_get k (active_trades ex'') = None ∧
             count_id k (completed_trades ex'')
             = count_id k (completed_trades ex')) ∧
  (truthy (contract_id t) = false →
     dict_get k (active_trades ex') = Some t ∧
     completed_trades ex'
     = completed_trades ex
         ++ map (mark now) (map snd (List.filter (swept now) (active_trades ex))) ∧
     count_id k (completed_trades ex') = count_id k (completed_trades ex)).
Proof.
  intros Hwf Hin Hexp ex'.
  pose proof (sweep_wf now ex Hwf) as Hwf'. fold ex' in Hwf'.
  destruct (sweep_spec now ex Hwf) as (Ha & Hc & _ & _). fold ex' in Ha, Hc.
  pose proof Hwf as (Hnd & Hid & _).
  pose proof (elem_dict_get _ _ _ Hnd Hin) as Hget.
  pose proof (count_id_completed now (swept now) k _ Hnd Hid) as Hcount.
  rewrite Hget in Hcount. unfold swept at 2 in Hcount. simpl in Hcount.
  rewrite Hexp in Hcount. simpl in Hcount.
  split_and!; [done| |].
  - intros Ht. rewrite Ht in Hcount.
    assert (Hgone : dict_get k (active_trades ex') = None).
    { rewrite Ha. apply dict_get_absent. intros v Hv.
      apply elem_of_filter in Hv as [Hv Hns].
      rewrite (elem_dict_get _ _ _ Hnd Hv) in Hget. injection Hget as ->.
      unfold swept in Hns. simpl in Hns. by rewrite Hexp, Ht in Hns. }
    split_and!; try done.
    + rewrite Hc. apply elem_of_app. right. apply list_elem_of_fmap.
      exists t. split; [done|]. apply list_elem_of_fmap. exists (k, t).
      split; [done|]. apply elem_of_filter. split; [done|].
      unfold swept. simpl. by rewrite Hexp, Ht.
    + rewrite Hc, count_id_app, Hcount. lia.
    + intros now2 ex''.
      destruct (sweep_spec now2 ex' Hwf') as (Ha2 & Hc2 & _ & _).
      fold ex'' in Ha2, Hc2. destruct Hwf' as (Hnd' & Hid' & _). split.
      * rewrite Ha2. apply dict_get_absent. intros v Hv.
        apply elem_of_filter in Hv as [Hv _].
        by rewrite (elem_dict_get _ _ _ Hnd' Hv) in Hgone.
      * rewrite Hc2, count_id_app.
        rewrite (count_id_completed now2 (swept now2) k _ Hnd' Hid'), Hgone. lia.
  - intros Ht. rewrite Ht in Hcount. split_and!.
    + destruct Hwf' as (Hnd' & _ & _). apply elem_dict_get; [done|].
      rewrite Ha. apply elem_of_filter. split; [done|].
      unfold swept. simpl. by rewrite Hexp, Ht.
    + exact Hc.
    + rewrite Hc, count_id_app, Hcount. lia.
Qed.

(** The invariant, as a check that computes. *)
Definition wfb (ex : TradeExecutor) : bool :=
  bool_decide (NoDup (active_trades ex).*1)
  && forallb (fun kt => String.eqb (trade_id kt.2) kt.1) (active_trades ex)
  && forallb (fun ct =>
                match dict_get ct.2 (active_trades ex) with
                | Some t => bool_decide (contract_id t = Some ct.1)
                | None => true
                end)
             (map_to_list (contract_subscriptions ex)).

Lemma wfb_wf ex : wfb ex = true → wf ex.
Proof.
  unfold wfb, wf. intros H.
  apply andb_true_iff in H as [H H3]. apply andb_true_iff in H as [H1 H2].
  split_and!.
  - by apply bool_decide_eq_true in H1.
  - intros k t Hin. rewrite forallb_forall in H2.
    apply list_elem_of_In, H2 in Hin. by apply String.eqb_eq in Hin.
  - intros cid tid t Hc Hg. rewrite forallb_forall in H3.
    apply elem_of_map_to_list, list_elem_of_In, H3 in Hc. simpl in Hc.
    rewrite Hg in Hc. by apply bool_decide_eq_true in Hc.
Qed.

(** One order placed and active, under contract id "c1"; and one placed
    for which the venue gave no contract id. *)
Definition with_contract : TradeExecutor :=
  (execute_trade RiskProps.short_signal 5 1700000001 1700000002
     (Some (mkBuy (Some "c1") (Some 0.48) None)) idle).2.

Definition without_contract : TradeExecutor :=
  (execute_trade RiskProps.short_signal 5 1700000001 1700000002
     (Some (mkBuy None (Some 0.48) None)) idle).2.

Definition first_id : string := "T1700000001000_0001".

Definition first_trade (cid : option string) : Trade :=
  mkTrade first_id RiskProps.short_signal "CALL" (6 # 25) 3 1000 1700000001
    TradeStatus.ACTIVE cid None None None (Some 0.48) None.

Lemma with_contract_active :
  active_trades with_contract = [(first_id, first_trade (Some "c1"))].
Proof. vm_compute. reflexivity. Qed.

Lemma without_contract_active :
  active_trades without_contract = [(first_id, first_trade None)].
Proof. vm_compute. reflexivity. Qed.

Lemma expiry_sweep_witness :
  dict_get first_id (active_trades (check_expired_trades 1700000010 with_contract))
    = None ∧
  count_id first_id
    (completed_trades (check_expired_trades 1700000010 with_contract)) = 1%nat.
Proof.
  assert (Hwf : wf with_contract) by (apply wfb_wf; vm_compute; reflexivity).
  assert (Hin : (first_id, first_trade (Some "c1")) ∈ active_trades with_contract)
    by (rewrite with_contract_active; left).
  assert (Hexp : expired 1700000010 (first_trade (Some "c1")) = true)
    by (vm_compute; reflexivity).
  destruct (expiry_sweep with_contract first_id (first_trade (Some "c1"))
              1700000010 Hwf Hin Hexp) as (_ & Hswept & _).
  destruct (Hswept eq_refl) as (_ & Hgone & _ & Hcount & _).
  split; [exact Hgone|]. rewrite Hcount. vm_compute. reflexivity.
Defined.

(** What the specification asks of the sweep: the expired order leaves
    the active set and is in the completed set, in ERROR. *)
Definition sweep_completes ex k now : Prop :=
  let ex' := check_expired_trades now ex in
  dict_get k (active_trades ex') = None ∧
  ∃ t', t' ∈ completed_trades ex' ∧ trade_id t' = k ∧
        status t' = TradeStatus.ERROR.

(** An active order without contract id, long expired, is still active
    after the sweep. *)
Lemma expired_without_contract_stays :
  expired 1700000010 (first_trade None) = true ∧
  dict_get first_id (active_trades (check_expired_trades 1700000010 without_contract))
    = Some (first_trade None) ∧
  ¬ sweep_completes without_contract first_id 1700000010.
Proof.
  assert (H : dict_get first_id
                (active_trades (check_expired_trades 1700000010 without_contract))
              = Some (first_trade None)) by (vm_compute; reflexivity).
  split; [vm_compute; reflexivity|]. split; [exact H|].
  intros [Hnone _]. cbv zeta in Hnone. rewrite Hnone in H. discriminate H.
Qed.

(** ** Settlement pushes (C5) *)

(** The realized profit of a settled push, as [_finalize_trade] reads it. *)
Definition realized (t : Trade) (info : ContractInfo) : Q :=
  default 0 (sell_price info) - default (stake t) (buy_price info).

(** An exit price can be found: in the push, or from an earlier one. *)
Definition exit_price_known (t : Trade) (info : ContractInfo) : Prop :=
  is_Some (sell_spot info) ∨
  (∃ x, current_spot info = Some x ∧ Qeq_bool x 0 = false) ∨
  is_Some (exit_price t).

Lemma dict_del_absent (k : string) (d : list (string * Trade)) :
  NoDup d.*1 → dict_get k (dict_del k d) = None.
Proof.
  intros Hnd. rewrite dict_del_filter by done. apply dict_get_absent.
  intros v Hv. apply elem_of_filter in Hv as [_ Hv]. simpl in Hv.
  by rewrite String.eqb_refl in Hv.
Qed.

(** X1 (C5 where an exit price can be found).  A settled push for an
    active order, when the push has a sell spot or a current spot, or a
    spot was seen before:
    the profit is the sell price less the buy price, the status WON for a
    positive profit and LOST otherwise; the order leaves the active set
    and is appended to the completed set; the contract id is no longer
    routed; the outcome is recorded with the risk manager; and a further
    push for the same contract changes nothing. *)
Theorem settled_push_finalizes ex cid tid t info now :
  wf ex →
  contract_subscriptions ex !! cid = Some tid →
  dict_get tid (active_trades ex) = Some t →
  cid ≠ ""%string →
  info_contract_id info = Some cid →
  is_sold info = true →
  exit_price_known t info →
  let ex' := handle_contract_update (Some info) now ex in
  let pl := realized t info in
  (∃ t', completed_trades ex' = completed_trades ex ++ [t'] ∧
         trade_id t' = tid ∧ profit_loss t' = Some pl ∧
         status t' = (if Qgtb pl 0 then TradeStatus.WON else TradeStatus.LOST) ∧
         exit_time t' = Some now) ∧
  dict_get tid (active_trades ex') = None ∧
  contract_subscriptions ex' = delete cid (contract_subscriptions ex) ∧
  risk_manager ex'
    = Risk.record_trade_result pl (Qgtb pl 0) now (risk_manager ex) ∧
  (∀ info2 now2, info_contract_id info2 = Some cid →
     handle_contract_update (Some info2) now2 ex' = ex').
Proof.
  intros (Hnd & Hid & Hsub) Hc Hg Hne Hi Hsold Hknown ex' pl.
  assert (Htid : trade_id t = tid) by (by apply Hid, dict_get_elem).
  assert (Hcid : contract_id t = Some cid) by (by eapply Hsub).
  assert (Htruthy : truthy (Some cid) = true).
  { simpl. apply negb_true_iff, String.eqb_neq. done. }
  set (t1 := match current_spot info with
             | Some x => if Qeq_bool x 0 then t else with_exit_price (Some x) t
             | None => t
             end).
  assert (Ht1 : trade_id t1 = tid ∧ contract_id t1 = Some cid ∧ stake t1 = stake t).
  { unfold t1. destruct (current_spot info) as [x|]; [|done].
    by destruct (Qeq_bool x 0). }
  destruct Ht1 as (Ht1i & Ht1c & Ht1s).
  assert (Hspot : ∃ spot,
            match sell_spot info with Some x => Some x | None => exit_price t1 end
            = Some spot).
  { destruct (sell_spot info) as [x|] eqn:Es; [by eexists|].
    destruct Hknown as [[x Hx]|[(x & Hx & Hz)|[x Hx]]]; [congruence| |].
    - unfold t1. rewrite Hx, Hz. by eexists.
    - unfold t1. destruct (current_spot info) as [y|]; [|by eexists].
      destruct (Qeq_bool y 0); by eexists. }
  destruct Hspot as [spot Hspot].
  assert (Hex' : ex' = with_tables
            (Risk.record_trade_result pl (Qgtb pl 0) now (risk_manager ex))
            (dict_del tid (active_trades ex))
            (completed_trades ex ++
               [with_status (if Qgtb pl 0 then TradeStatus.WON else TradeStatus.LOST)
                  (with_profit_loss (Some pl)
                     (with_exit_price (Some spot) (with_exit_time (Some now) t1)))])
            (delete cid (contract_subscriptions ex)) ex).
  { unfold ex', handle_contract_update. rewrite Hi, Htruthy, Hc, Hg, Hsold.
    cbn [negb]. fold t1. unfold _finalize_trade.
    cbn [exit_price with_exit_time]. cbn [exit_price with_exit_time] in Hspot.
    rewrite Hspot. cbn. rewrite Ht1i, Ht1c, Ht1s. cbn.
    destruct (String.eqb cid "") eqn:E; [by apply String.eqb_eq in E|]. cbn.
    rewrite !dict_del_set. reflexivity. }
  rewrite Hex'. cbn. split_and!; try done.
  - eexists. split_and!; try done.
  - by apply dict_del_absent.
  - intros info2 now2 Hi2. unfold handle_contract_update.
    rewrite Hi2, Htruthy. cbn. by rewrite lookup_delete_eq.
Qed.

(** A settled push with its prices, no spot in it. *)
Definition settled_push : ContractInfo :=
  mkInfo (Some "c1") None true None (Some 0.48) (Some 0.24).

(** The same push with the current spot in it. *)
Definition settled_push_with_spot : ContractInfo :=
  mkInfo (Some "c1") (Some 1001) true None (Some 0.48) (Some 0.24).

Lemma settled_push_finalizes_witness :
  dict_get first_id
    (active_trades
       (handle_contract_update (Some settled_push_with_spot) 1700000003
          with_contract)) = None.
Proof.
  assert (Hwf : wf with_contract) by (apply wfb_wf; vm_compute; reflexivity).
  assert (Hc : contract_subscriptions with_contract !! "c1" = Some first_id)
    by (vm_compute; reflexivity).
  assert (Hg : dict_get first_id (active_trades with_contract)
               = Some (first_trade (Some "c1")))
    by (rewrite with_contract_active; vm_compute; reflexivity).
  assert (Hne : "c1" ≠ ""%string) by discriminate.
  assert (Hk : exit_price_known (first_trade (Some "c1")) settled_push_with_spot).
  { right. left. exists 1001. split; [reflexivity|vm_compute; reflexivity]. }
  destruct (settled_push_finalizes with_contract "c1" first_id
              (first_trade (Some "c1")) settled_push_with_spot 1700000003
              Hwf Hc Hg Hne eq_refl eq_refl Hk)
    as (_ & Hgone & _).
  exact Hgone.
Defined.

(** C5 fails on this push: a settlement that carries its prices but no
    spot, for an order that saw no spot before.  [float(None)] raises
    inside [_finalize_trade], and the order is not finalized: it stays
    ACTIVE in the active set, without profit; the completed set stays
    empty, the contract id stays routed, and nothing is recorded with the
    risk manager. *)
Lemma settled_push_without_spot :
  let ex' := handle_contract_update (Some settled_push) 1700000003 with_contract in
  is_sold settled_push = true ∧
  dict_get first_id (active_trades ex')
    = Some (with_exit_time (Some 1700000003) (first_trade (Some "c1"))) ∧
  completed_trades ex' = [] ∧
  contract_subscriptions ex' !! "c1" = Some first_id ∧
  Risk.total_trades (Risk.stats (risk_manager ex')) = 0%Z.
Proof. vm_compute. repeat split. Qed.

End ExecutorProps.

(** * Properties of the further operations *)

(** ** Rounding *)

Module PyProps.

Import Py RiskProps.
Local Open Scope Q_scope.

Lemma round_half_even_bounds q :
  (Qfloor q ≤ round_half_even q ≤ Qfloor q + 1)%Z.
Proof.
  unfold round_half_even.
  repeat match goal with |- context [if ?b then _ else _] => destruct b end; lia.
Qed.

(** Rounding to the nearest integer keeps the order. *)
Lemma round_half_even_mono q1 q2 :
  q1 <= q2 → (round_half_even q1 ≤ round_half_even q2)%Z.
Proof.
  intros Hle. pose proof (Qfloor_resp_le _ _ Hle) as Hf.
  destruct (Z.eq_dec (Qfloor q1) (Qfloor q2)) as [E|NE].
  - unfold round_half_even, inject. rewrite <- E.
    set (f := Qfloor q1).
    destruct (Qltb (q1 - inject_Z f) (1 # 2)) eqn:A1.
    + repeat match goal with |- context [if ?b then _ else _] => destruct b end; lia.
    + apply Qltb_ge in A1.
      destruct (Qltb (q2 - inject_Z f) (1 # 2)) eqn:A2.
      { apply Qltb_lt in A2. lra. }
      destruct (Qltb (1 # 2) (q1 - inject_Z f)) eqn:B1.
      * apply Qltb_lt in B1.
        destruct (Qltb (1 # 2) (q2 - inject_Z f)) eqn:B2; [lia|].
        apply Qltb_ge in B2. lra.
      * repeat match goal with |- context [if ?b then _ else _] => destruct b end; lia.
  - pose proof (round_half_even_bounds q1). pose proof (round_half_even_bounds q2).
    lia.
Qed.

Lemma pow10_pos d : 0 < inject (pow10 d).
Proof.
  unfold inject, pow10. rewrite <- (Zlt_Qlt 0). apply Z.pow_pos_nonneg; lia.
Qed.

(** [round] keeps the order. *)
Lemma round_mono a b d : a <= b → round a d <= round b d.
Proof.
  intros Hle. unfold round. rewrite !Qred_correct.
  pose proof (pow10_pos d) as Hp.
  apply Qmult_le_compat_r.
  - unfold inject. rewrite <- Zle_Qle. apply round_half_even_mono.
    apply Qmult_le_compat_r; [done|]. by apply Qlt_le_weak.
  - apply Qlt_le_weak, Qinv_lt_0_compat. exact Hp.
Qed.

End PyProps.

(** ** The risk manager *)

Module RiskOpsProps.

Import Py Risk RiskOps RiskProps.
Local Open Scope Q_scope.

(** The manager that [assess_trade_risk] leaves. *)
Lemma assess_state sig bal now rm :
  (assess_trade_risk sig bal now rm).2
  = if pause_active now (refresh bal now rm) then refresh bal now rm
    else resumed (refresh bal now rm).
Proof.
  unfold assess_trade_risk, assess_body.
  destruct (pause_active now (refresh bal now rm)); [done|].
  by destruct (assess_checks sig (resumed (refresh bal now rm))).
Qed.

(** *** A decision and its reasons *)

(** X2: Every assessment, however it ends, is REJECTED exactly when it gives
    a rejection reason, and a REJECTED one recommends no stake. *)
Theorem rejected_iff_reasons sig bal now rm :
  let r := (assess_trade_risk sig bal now rm).1 in
  (decision r = TradeDecision.REJECTED ↔ rejection_reasons r ≠ []) ∧
  (decision r = TradeDecision.REJECTED →
     recommended_stake r = 0 ∧ risk_level r = RiskLevel.EXTREME).
Proof.
  cbv zeta. unfold assess_trade_risk, assess_body.
  destruct (pause_active now (refresh bal now rm)); [by split|].
  destruct (assess_checks sig (resumed (refresh bal now rm)))
    as [e|[[score warns] rejections]]; [by split|].
  unfold determine. destruct rejections as [|x rejections].
  - repeat match goal with |- context [if ?b then _ else _] => destruct b end;
      cbn; rewrite ?round_zero; split; try split; try done.
  - cbn. rewrite round_zero. by split.
Qed.

(** *** The score and the stake *)

Lemma balance_risk_nonneg rm score warns rejections :
  _assess_balance_risk rm = inr (score, warns, rejections) → 0 <= score.
Proof.
  unfold _assess_balance_risk.
  set (sp := Settings.max_stake (trading_config rm) / current_balance rm * 100).
  assert (Hmin : Qgtb sp 10 = true → 0 <= Qmin (sp - 10) 25).
  { intros Hs. apply Qltb_lt in Hs. apply Q.min_glb; lra. }
  destruct (Qltb (current_balance rm) _);
    [|destruct (Qltb (current_balance rm) _)];
    (destruct (Qeq_bool (current_balance rm) 0); [discriminate|]);
    (destruct (Qgtb sp 10); [specialize (Hmin eq_refl)|]);
    intros [= <- _ _]; lra.
Qed.

Lemma daily_risk_nonneg rm : 0 <= (_assess_daily_risk rm).1.1.
Proof.
  unfold _assess_daily_risk.
  repeat match goal with |- context [if ?b then _ else _] => destruct b end;
    cbn; lra.
Qed.

Lemma consecutive_risk_nonneg rm : 0 <= (_assess_consecutive_risk rm).1.1.
Proof.
  unfold _assess_consecutive_risk.
  repeat match goal with |- context [if ?b then _ else _] => destruct b end;
    cbn; lra.
Qed.

Lemma frequency_risk_nonneg rm : 0 <= (_assess_frequency_risk rm).1.1.
Proof.
  unfold _assess_frequency_risk.
  repeat match goal with |- context [if ?b then _ else _] => destruct b end;
    cbn; lra.
Qed.

Lemma drawdown_risk_nonneg rm : 0 <= (_assess_drawdown_risk rm).1.1.
Proof.
  unfold _assess_drawdown_risk.
  repeat match goal with |- context [if ?b then _ else _] => destruct b end;
    cbn; lra.
Qed.

Lemma signal_risk_nonneg sig : 0 <= (_assess_signal_risk sig).1.
Proof.
  unfold _assess_signal_risk.
  destruct (Qltb (Signal.confidence sig) 0.7) eqn:Hc.
  - apply Qltb_lt in Hc.
    repeat match goal with |- context [if ?b then _ else _] => destruct b end;
      cbn; lra.
  - repeat match goal with |- context [if ?b then _ else _] => destruct b end;
      cbn; lra.
Qed.

(** The summed score is never negative. *)
Lemma score_nonneg sig rm score warns rejections :
  assess_checks sig rm = inr (score, warns, rejections) → 0 <= score.
Proof.
  unfold assess_checks.
  destruct (_assess_balance_risk rm) as [e|[[b ?] ?]] eqn:Hb; [discriminate|].
  apply balance_risk_nonneg in Hb.
  pose proof (daily_risk_nonneg rm). pose proof (consecutive_risk_nonneg rm).
  pose proof (frequency_risk_nonneg rm). pose proof (drawdown_risk_nonneg rm).
  pose proof (signal_risk_nonneg sig).
  destruct (_assess_daily_risk rm) as [[? ?] ?].
  destruct (_assess_consecutive_risk rm) as [[? ?] ?].
  destruct (_assess_frequency_risk rm) as [[? ?] ?].
  destruct (_assess_drawdown_risk rm) as [[? ?] ?].
  destruct (_assess_signal_risk sig) as [? ?]. simpl in *.
  intros [= <- _ _]. lra.
Qed.

Lemma multiplier_range score :
  0 <= score → 0.1 <= stake_multiplier score ∧ stake_multiplier score <= 1.
Proof.
  intros H. unfold stake_multiplier.
  assert (E : score / 100 == score * (1 # 100)) by (unfold Qdiv; reflexivity).
  split.
  - apply Q.le_max_l.
  - apply Q.max_lub; [lra|]. rewrite E. lra.
Qed.

(** X3: With a maximum stake that is not negative, the recommended stake is
    never negative and never more than the maximum stake rounded to two
    decimals; an assessment that is not REJECTED recommends at least a
    tenth of the maximum, rounded. *)
Theorem stake_within_bounds sig bal now rm :
  0 <= Settings.max_stake (trading_config rm) →
  let r := (assess_trade_risk sig bal now rm).1 in
  let max_stake := Settings.max_stake (trading_config rm) in
  0 <= recommended_stake r ∧
  recommended_stake r <= round max_stake 2 ∧
  (decision r ≠ TradeDecision.REJECTED →
     round (max_stake * 0.1) 2 <= recommended_stake r).
Proof.
  intros Hmax. cbv zeta.
  assert (H0 : 0 <= round (Settings.max_stake (trading_config rm)) 2).
  { rewrite <- round_zero. by apply PyProps.round_mono. }
  unfold assess_trade_risk, assess_body.
  destruct (pause_active now (refresh bal now rm)); [by split_and!|].
  destruct (assess_checks sig (resumed (refresh bal now rm)))
    as [e|[[score warns] rejections]] eqn:Hc; [by split_and!|].
  apply score_nonneg in Hc. unfold determine.
  destruct (resumed_fields (refresh bal now rm)) as (_ & -> & _ & _).
  destruct (refresh_config bal now rm) as [_ ->].
  set (ms := Settings.max_stake (trading_config rm)) in *.
  destruct rejections as [|x rejections];
    [|cbn; rewrite round_zero; by split_and!].
  destruct (multiplier_range score Hc) as [Hlo Hhi].
  set (m := stake_multiplier score) in *.
  assert (Hscaled : ms * 0.1 <= Qmin (ms * m) ms ∧ Qmin (ms * m) ms <= ms).
  { split; [|apply Q.le_min_r]. apply Q.min_glb; [|lra].
    rewrite (Qmult_comm ms 0.1), (Qmult_comm ms m).
    by apply Qmult_le_compat_r. }
  destruct Hscaled as [Hs1 Hs2].
  assert (Hr1 : round (ms * 0.1) 2 <= round (Qmin (ms * m) ms) 2)
    by (by apply PyProps.round_mono).
  assert (Hr2 : round (Qmin (ms * m) ms) 2 <= round ms 2)
    by (by apply PyProps.round_mono).
  assert (Hr0 : 0 <= round (ms * 0.1) 2).
  { rewrite <- round_zero. apply PyProps.round_mono. lra. }
  repeat match goal with |- context [if ?b then _ else _] => destruct b end;
    cbn; rewrite ?round_zero; split_and!; try done; try lra.
Qed.

Lemma stake_within_bounds_witness :
  let r := (assess_trade_risk short_signal 5 1700000001 fresh).1 in
  0 <= recommended_stake r ∧
  recommended_stake r <= round (Settings.max_stake (trading_config fresh)) 2 ∧
  (decision r ≠ TradeDecision.REJECTED →
     round (Settings.max_stake (trading_config fresh) * 0.1) 2
     <= recommended_stake r).
Proof.
  apply (stake_within_bounds short_signal 5 1700000001 fresh).
  vm_compute. discriminate.
Defined.

(** *** The pause, seen by an assessment *)

(** X4: An assessment never starts a pause and never changes one that is
    running; the first assessment at or after [pause_until] lifts the
    pause, also when that assessment ends in the exception handler. *)
Theorem assessment_and_pause sig bal now rm :
  let rm' := (assess_trade_risk sig bal now rm).2 in
  (trading_paused rm = false →
     trading_paused rm' = false ∧ pause_reason rm' = pause_reason rm ∧
     pause_until rm' = pause_until rm) ∧
  (trading_paused rm = true → now < pause_until rm →
     trading_paused rm' = true ∧ pause_reason rm' = pause_reason rm ∧
     pause_until rm' = pause_until rm) ∧
  (trading_paused rm = true → pause_until rm <= now →
     trading_paused rm' = false ∧ pause_reason rm' = ""%string ∧
     pause_until rm' = 0).
Proof.
  cbv zeta. rewrite assess_state. unfold pause_active, resumed.
  destruct (refresh_pause bal now rm) as (Hp & Hr & Hu).
  rewrite Hp, Hu. split_and!.
  - intros E. rewrite E. cbn. by rewrite Hp, Hr, Hu.
  - intros E Hlt. rewrite E. apply Qltb_lt in Hlt. rewrite Hlt. cbn.
    by rewrite Hp, Hr, Hu.
  - intros E Hle. rewrite E. apply Qltb_ge in Hle. rewrite Hle. by cbn.
Qed.

(** *** The daily and the hourly window *)





(** *** Sequences of calls *)

Lemma calls_cons c cs rm :
  calls (c :: cs) rm
  = (match (call c rm).1 with
     | Some r => r :: (calls cs (call c rm).2).1
     | None => (calls cs (call c rm).2).1
     end,
     (calls cs (call c rm).2).2).
Proof.
  cbn [calls]. destruct (call c rm) as [r rm1]. cbn [fst snd].
  by destruct (calls cs rm1).
Qed.

Lemma calls_snoc cs c rm :
  (calls (cs ++ [c]) rm).2 = (call c (calls cs rm).2).2.
Proof.
  revert rm. induction cs as [|c' cs IH]; intros rm.
  - rewrite app_nil_l, calls_cons. reflexivity.
  - rewrite <- app_comm_cons, !calls_cons. cbn [snd]. apply IH.
Qed.

(** What an assessment leaves of the statistics and the configuration. *)
Lemma assess_frame sig bal now rm :
  let rm' := (assess_trade_risk sig bal now rm).2 in
  risk_config rm' = risk_config rm ∧
  stats rm' = with_daily_profit_loss (daily_profit_loss (stats rm')) (stats rm).
Proof.
  cbv zeta. rewrite assess_state.
  assert (H : risk_config (refresh bal now rm) = risk_config rm ∧
              stats (refresh bal now rm)
              = with_daily_profit_loss
                  (daily_profit_loss (stats (refresh bal now rm))) (stats rm)).
  { unfold refresh, _check_hourly_reset, _check_daily_reset, _update_peak_balance.
    repeat match goal with |- context [if ?b then _ else _] => destruct b end;
      cbn; split; try reflexivity; by destruct (stats rm). }
  destruct (pause_active now (refresh bal now rm)); [exact H|].
  by destruct (resumed_fields (refresh bal now rm)) as (-> & _ & -> & _).
Qed.

Lemma record_stats pl won t rm :
  stats (record_trade_result pl won t rm) = update_stats pl won t (stats rm).
Proof.
  unfold record_trade_result.
  by destruct (check_auto_pause_frame t
    (with_hourly (hourly_trade_count rm + 1) (hourly_reset_time rm)
       (with_stats (update_stats pl won t (stats rm)) rm))) as (-> & _).
Qed.

(** *** The daily trade limit *)

(** The number of recorded trades has reached the daily limit. *)
Definition capped (rm : RiskManager) : Prop :=
  (Settings.max_trades_per_day (risk_config rm) ≤ total_trades (stats rm))%Z.

Lemma checks_reject_when_capped sig rm score warns rejections :
  capped rm → assess_checks sig rm = inr (score, warns, rejections) →
  rejections ≠ [].
Proof.
  unfold capped. intros H. apply Z.geb_le in H.
  unfold assess_checks, _assess_daily_risk, _get_daily_trade_count. rewrite H.
  destruct (_assess_balance_risk rm) as [e|[[? ?] br]]; [discriminate|].
  destruct (_assess_consecutive_risk rm) as [[? ?] ?].
  destruct (_assess_frequency_risk rm) as [[? ?] ?].
  destruct (_assess_drawdown_risk rm) as [[? ?] ?].
  destruct (_assess_signal_risk sig) as [? ?].
  repeat match goal with |- context [if ?b then _ else _] => destruct b end;
    intros [= _ _ <-]; by destruct br.
Qed.

Lemma assess_rejects_when_capped sig bal now rm :
  capped rm →
  decision (assess_trade_risk sig bal now rm).1 = TradeDecision.REJECTED ∧
  recommended_stake (assess_trade_risk sig bal now rm).1 = 0.
Proof.
  intros H.
  assert (Hc : capped (resumed (refresh bal now rm))).
  { unfold capped.
    destruct (resumed_fields (refresh bal now rm)) as (-> & _ & -> & _).
    destruct (refresh_config bal now rm) as [-> _].
    unfold refresh, _check_hourly_reset, _check_daily_reset, _update_peak_balance.
    repeat match goal with |- context [if ?b then _ else _] => destruct b end;
      exact H. }
  unfold assess_trade_risk, assess_body.
  destruct (pause_active now (refresh bal now rm)); [done|].
  destruct (assess_checks sig (resumed (refresh bal now rm)))
    as [e|[[score warns] rejections]] eqn:E; [done|].
  pose proof (checks_reject_when_capped _ _ _ _ _ Hc E) as Hne.
  destruct rejections as [|x rejections]; [done|]. cbn.
  by rewrite round_zero.
Qed.

Lemma call_keeps_capped c rm : capped rm → capped (call c rm).2.
Proof.
  unfold capped. intros H. destruct c as [sig bal now|pl won now| |]; cbn [call snd].
  - destruct (assess_frame sig bal now rm) as [-> ->]. by destruct (stats rm).
  - destruct (record_fields pl won now rm) as [-> _]. rewrite record_stats.
    unfold update_stats. destruct won; cbn; lia.
  - unfold force_resume_trading. by destruct (trading_paused rm).
  - exact H.
Qed.

(** X6: The daily limit counts every trade ever recorded.  Once
    [total_trades] has reached [max_trades_per_day], every later
    assessment is REJECTED with stake 0, whatever is called in between:
    no rollover of the daily window, no manual reset of the daily
    statistics, no forced resumption and no further outcome makes the
    manager trade again.  [reset_all_stats] does end it, for a limit
    above 0. *)
Theorem daily_limit_is_permanent cs rm :
  capped rm →
  Forall (fun r => decision r = TradeDecision.REJECTED ∧ recommended_stake r = 0)
         (calls cs rm).1 ∧
  capped (calls cs rm).2 ∧
  ((0 < Settings.max_trades_per_day (risk_config rm))%Z →
   ¬ capped (reset_all_stats (calls cs rm).2)).
Proof.
  intros H.
  assert (Hcs : Forall (fun r => decision r = TradeDecision.REJECTED
                                 ∧ recommended_stake r = 0) (calls cs rm).1
                ∧ capped (calls cs rm).2
                ∧ risk_config (calls cs rm).2 = risk_config rm).
  { revert rm H. induction cs as [|c cs IH]; intros rm H.
    - split_and!; [constructor|exact H|done].
    - rewrite calls_cons. cbn [fst snd].
      destruct (IH _ (call_keeps_capped c rm H)) as (IH1 & IH2 & IH3).
      assert (Hc : risk_config (call c rm).2 = risk_config rm).
      { destruct c as [sig bal now|pl won now| |]; cbn [call snd].
        - by destruct (assess_frame sig bal now rm) as [-> _].
        - by destruct (record_fields pl won now rm) as [-> _].
        - unfold force_resume_trading. by destruct (trading_paused rm).
        - done. }
      split_and!; [|exact IH2|by rewrite IH3].
      destruct c as [sig bal now|pl won now| |]; cbn [call fst]; try exact IH1.
      constructor; [|exact IH1]. by apply assess_rejects_when_capped. }
  destruct Hcs as (H1 & H2 & H3). split_and!; [exact H1|exact H2|].
  intros Hpos. unfold capped, reset_all_stats. cbn. rewrite H3. lia.
Qed.

(** A manager that has recorded its hundredth trade, days ago. *)
Definition hundred_trades : RiskManager :=
  with_stats (mkStats 100 60 40 0 1 3 2 0 0 1700000000) fresh.

Definition next_week : list Call :=
  [Evaluate short_signal 100 1700600000; ForceResume; ResetDaily;
   Evaluate short_signal 100 1700600001].

Lemma daily_limit_is_permanent_witness :
  Forall (fun r => decision r = TradeDecision.REJECTED ∧ recommended_stake r = 0)
         (calls next_week hundred_trades).1 ∧
  capped (calls next_week hundred_trades).2 ∧
  ((0 < Settings.max_trades_per_day (risk_config hundred_trades))%Z →
   ¬ capped (reset_all_stats (calls next_week hundred_trades).2)).
Proof.
  apply (daily_limit_is_permanent next_week hundred_trades).
  vm_compute. discriminate.
Defined.

(** *** A streak and the calls that do not end it *)

Definition no_win (c : Call) : bool :=
  match c with Record _ won _ => negb won | _ => true end.

Lemma call_keeps_tripped c rm : no_win c = true → tripped rm → tripped (call c rm).2.
Proof.
  unfold tripped. intros Hc H.
  destruct c as [sig bal now|pl won now| |]; cbn [call snd].
  - destruct (assess_frame sig bal now rm) as [-> ->]. by destruct (stats rm).
  - destruct (record_fields pl won now rm) as [-> ->].
    destruct won; [discriminate Hc|lia].
  - unfold force_resume_trading. by destruct (trading_paused rm).
  - exact H.
Qed.

(** X7: Once the streak of losses has reached its ceiling, a forced
    resumption lifts the pause but not the block: as long as no winning
    outcome is recorded, every assessment is REJECTED with stake 0,
    whatever else is called in between. *)
Theorem forced_resume_keeps_streak cs rm :
  tripped rm → forallb no_win cs = true →
  Forall (fun r => decision r = TradeDecision.REJECTED ∧ recommended_stake r = 0)
         (calls cs rm).1.
Proof.
  revert rm. induction cs as [|c cs IH]; intros rm H Hcs.
  - constructor.
  - cbn [forallb] in Hcs. apply andb_true_iff in Hcs as [Hc Hcs].
    rewrite calls_cons. cbn [fst].
    pose proof (IH _ (call_keeps_tripped c rm Hc H) Hcs) as IH1.
    destruct c as [sig bal now|pl won now| |]; cbn [call fst]; try exact IH1.
    constructor; [|exact IH1].
    destruct (assess_rejects_when_tripped sig bal now rm H) as (Hd & Hs & _).
    by split.
Qed.

Definition after_resume : list Call :=
  [ForceResume; Evaluate short_signal 100 1700000020;
   Record (-0.25) false 1700000030; ForceResume;
   Evaluate short_signal 100 1700000040].

Lemma forced_resume_keeps_streak_witness :
  Forall (fun r => decision r = TradeDecision.REJECTED ∧ recommended_stake r = 0)
         (calls after_resume
            (record_trade_result (-0.25) false 1700000015
               (record_losses four_losses fresh))).1.
Proof.
  apply (forced_resume_keeps_streak after_resume
           (record_trade_result (-0.25) false 1700000015
              (record_losses four_losses fresh))).
  - vm_compute. discriminate.
  - vm_compute. reflexivity.
Defined.

(** *** What the statistics count *)

(** The outcomes recorded along a sequence of calls, oldest first. *)
Fixpoint outcomes (cs : list Call) : list (Q * bool) :=
  match cs with
  | [] => []
  | Record pl won _ :: cs' => (pl, won) :: outcomes cs'
  | _ :: cs' => outcomes cs'
  end.

(** How many outcomes were wins ([won = true]) or losses. *)
Definition count (won : bool) (os : list (Q * bool)) : Z :=
  Z.of_nat (length (List.filter (fun o => eqb o.2 won) os)).

Fixpoint leading (won : bool) (ws : list bool) : nat :=
  match ws with
  | w :: ws' => if eqb w won then S (leading won ws') else 0
  | [] => 0
  end.

(** The length of the run of wins, or of losses, that ends the list. *)
Definition streak (won : bool) (os : list (Q * bool)) : Z :=
  Z.of_nat (leading won (rev (map snd os))).

(** The longest such run that the list has had at any point. *)
Definition longest (won : bool) (os : list (Q * bool)) : Z :=
  fold_right Z.max 0%Z
    (map (fun n => streak won (take n os)) (seq 0 (S (length os)))).

Lemma outcomes_snoc cs c :
  outcomes (cs ++ [c])
  = (outcomes cs ++ match c with Record pl won _ => [(pl, won)] | _ => [] end)%list.
Proof.
  induction cs as [|c' cs IH].
  - destruct c; reflexivity.
  - rewrite <- app_comm_cons. destruct c'; cbn [outcomes]; rewrite IH; reflexivity.
Qed.

Lemma count_snoc won os pl w :
  count won (os ++ [(pl, w)]) = (count won os + if eqb w won then 1 else 0)%Z.
Proof.
  unfold count. rewrite List.filter_app, length_app. cbn.
  destruct (eqb w won); cbn; lia.
Qed.

Lemma streak_snoc won os pl w :
  streak won (os ++ [(pl, w)]) = (if eqb w won then streak won os + 1 else 0)%Z.
Proof.
  unfold streak. rewrite map_app, rev_app_distr. cbn.
  destruct (eqb w won); lia.
Qed.

Lemma streak_nonneg won os : (0 ≤ streak won os)%Z.
Proof. unfold streak. lia. Qed.

Lemma max_snoc (l : list Z) x :
  fold_right Z.max 0%Z (l ++ [x]) = Z.max (fold_right Z.max 0%Z l) (Z.max x 0).
Proof. induction l as [|y l IH]; cbn; [lia|]. rewrite IH. lia. Qed.

Lemma longest_snoc won os o :
  longest won (os ++ [o]) = Z.max (longest won os) (streak won (os ++ [o])).
Proof.
  unfold longest. rewrite length_app. cbn [length]. rewrite Nat.add_1_r.
  rewrite (seq_S (S (length os))), map_app. cbn [map Nat.add]. rewrite max_snoc.
  rewrite (take_ge (os ++ [o])) by (rewrite length_app; cbn; lia).
  pose proof (streak_nonneg won (os ++ [o])).
  rewrite (Z.max_l _ 0) by done. f_equal. f_equal.
  apply map_ext_in. intros n Hn. apply in_seq in Hn.
  by rewrite take_app_le by lia.
Qed.

Lemma longest_nonneg won os : (0 ≤ longest won os)%Z.
Proof.
  unfold longest. generalize (seq 0 (S (length os))). intros l.
  induction l; cbn; lia.
Qed.

(** The statistics agree with a list of outcomes. *)
Definition counts (os : list (Q * bool)) (st : TradingStats) : Prop :=
  total_trades st = Z.of_nat (length os) ∧
  winning_trades st = count true os ∧
  losing_trades st = count false os ∧
  consecutive_wins st = streak true os ∧
  consecutive_losses st = streak false os ∧
  max_consecutive_losses st = longest false os ∧
  total_profit_loss st = fold_left Qplus (map fst os) 0.

Lemma counts_daily os st v :
  counts os st → counts os (with_daily_profit_loss v st).
Proof. done. Qed.

Lemma counts_update os st pl won t :
  counts os st → counts (os ++ [(pl, won)]) (update_stats pl won t st).
Proof.
  intros (Ht & Hw & Hl & Hcw & Hcl & Hm & Hp). unfold counts.
  rewrite length_app, !count_snoc, !streak_snoc, longest_snoc, streak_snoc,
    map_app, fold_left_app.
  pose proof (streak_nonneg false os). pose proof (longest_nonneg false os).
  unfold update_stats.
  destruct won;
    cbn [total_trades winning_trades losing_trades consecutive_wins
         consecutive_losses max_consecutive_losses total_profit_loss
         eqb length map fold_left fst].
  - rewrite Ht, Hw, Hl, Hcw, Hm, Hp. split_and!; try done; lia.
  - rewrite Ht, Hw, Hl, Hcl, Hm, Hp. split_and!; try done; try lia.
    destruct (Z.gtb_spec (streak false os + 1) (longest false os)); lia.
Qed.

Lemma counts_calls cs rm :
  stats rm = new_stats → counts (outcomes cs) (stats (calls cs rm).2).
Proof.
  intros H0. induction cs as [|c cs IH] using rev_ind.
  - cbn. rewrite H0. by vm_compute.
  - rewrite calls_snoc, outcomes_snoc.
    destruct c as [sig bal now|pl won now| |]; cbn [call snd];
      rewrite ?app_nil_r.
    + destruct (assess_frame sig bal now (calls cs rm).2) as [_ ->].
      by apply counts_daily.
    + rewrite record_stats. by apply counts_update.
    + unfold force_resume_trading.
      by destruct (trading_paused (calls cs rm).2).
    + by apply counts_daily.
Qed.

Lemma count_nonneg won os : (0 ≤ count won os)%Z.
Proof. unfold count. lia. Qed.

Lemma count_total os : (count true os + count false os)%Z = Z.of_nat (length os).
Proof.
  unfold count. induction os as [|[pl w] os IH]; [done|].
  cbn. destruct w; cbn; lia.
Qed.

Lemma streak_exclusive os : streak true os = 0%Z ∨ streak false os = 0%Z.
Proof.
  unfold streak. destruct (rev (map snd os)) as [|[|] ws]; cbn; auto.
Qed.

Lemma streak_le_longest won os : (streak won os ≤ longest won os)%Z.
Proof.
  destruct os as [|o os _] using rev_ind.
  - by vm_compute.
  - rewrite longest_snoc. lia.
Qed.

Lemma longest_le_count won os : (longest won os ≤ count won os)%Z.
Proof.
  assert (Hs : ∀ os, (streak won os ≤ count won os)%Z).
  { intros l. induction l as [|[pl w] l IH] using rev_ind.
    - by vm_compute.
    - rewrite streak_snoc, count_snoc. pose proof (count_nonneg won l).
      destruct (eqb w won); lia. }
  induction os as [|[pl w] os IH] using rev_ind.
  - by vm_compute.
  - rewrite longest_snoc. specialize (Hs (os ++ [(pl, w)])).
    rewrite count_snoc in *. destruct (eqb w won); lia.
Qed.

Lemma win_rate_range st :
  (0 ≤ winning_trades st ≤ total_trades st)%Z →
  0 <= win_rate st ∧ win_rate st <= 100.
Proof.
  intros [H0 H1]. unfold win_rate.
  destruct (Z.eqb_spec (total_trades st) 0) as [E|NE]; [lra|].
  assert (Ht : 0 < inject (total_trades st)).
  { unfold inject. rewrite <- (Zlt_Qlt 0). lia. }
  assert (Hw : 0 <= inject (winning_trades st)).
  { unfold inject. by rewrite <- (Zle_Qle 0). }
  assert (Hle : inject (winning_trades st) <= inject (total_trades st)).
  { unfold inject. by rewrite <- Zle_Qle. }
  assert (Hlo : 0 <= inject (winning_trades st) / inject (total_trades st)).
  { apply Qle_shift_div_l; [exact Ht|lra]. }
  assert (Hhi : inject (winning_trades st) / inject (total_trades st) <= 1).
  { apply Qle_shift_div_r; [exact Ht|lra]. }
  split; lra.
Qed.

(** X8: From new statistics, whatever calls the manager receives and in
    whatever order, the statistics describe the outcomes that were
    recorded: [total_trades] is their number, [winning_trades] and
    [losing_trades] count the wins and the losses and add up to the
    total, [consecutive_wins] and [consecutive_losses] are the length of
    the run that ends the list (so one of them is 0),
    [max_consecutive_losses] is the longest run of losses there has been
    (at least the current run, at most the number of losses),
    [total_profit_loss] is the sum of the recorded amounts, and the win
    rate lies between 0 and 100.  Assessments, forced resumptions and
    resets of the daily statistics change none of these. *)
Theorem statistics_count_outcomes cs rm :
  stats rm = new_stats →
  let st := stats (calls cs rm).2 in
  let os := outcomes cs in
  counts os st ∧
  (total_trades st = winning_trades st + losing_trades st)%Z ∧
  (consecutive_wins st = 0 ∨ consecutive_losses st = 0)%Z ∧
  (consecutive_losses st ≤ max_consecutive_losses st
     ≤ losing_trades st)%Z ∧
  0 <= win_rate st ∧ win_rate st <= 100.
Proof.
  intros H0. cbv zeta. pose proof (counts_calls cs rm H0) as Hc.
  split; [exact Hc|].
  destruct Hc as (Ht & Hw & Hl & Hcw & Hcl & Hm & Hp).
  pose proof (count_total (outcomes cs)).
  pose proof (count_nonneg true (outcomes cs)).
  pose proof (count_nonneg false (outcomes cs)).
  split_and!.
  - lia.
  - rewrite Hcw, Hcl. apply streak_exclusive.
  - rewrite Hcl, Hm. apply streak_le_longest.
  - rewrite Hm, Hl. apply longest_le_count.
  - apply win_rate_range. lia.
  - apply win_rate_range. lia.
Qed.

Definition a_session : list Call :=
  [Record (-0.25) false 1700000011; Evaluate short_signal 100 1700000012;
   Record (-0.25) false 1700000013; Record 0.2 true 1700000014; ResetDaily;
   Record (-0.25) false 1700000015].

Lemma statistics_count_outcomes_witness :
  let st := stats (calls a_session fresh).2 in
  let os := outcomes a_session in
  counts os st ∧
  (total_trades st = winning_trades st + losing_trades st)%Z ∧
  (consecutive_wins st = 0 ∨ consecutive_losses st = 0)%Z ∧
  (consecutive_losses st ≤ max_consecutive_losses st
     ≤ losing_trades st)%Z ∧
  0 <= win_rate st ∧ win_rate st <= 100.
Proof.
  apply (statistics_count_outcomes a_session fresh). reflexivity.
Defined.

(** *** The data file *)

(** X9: A manager started from the file that another manager saved holds
    what that file holds: saving it again gives the same file.  So the
    counters, the streaks, the three tracked balances and the pause are
    carried over a restart.  The balance and the hourly count are not in
    the file and start at 0.  A pause that has not run out keeps
    rejecting after the restart, with its reason. *)
Theorem restart_restores_saved rc tc now rm :
  let rm' := start rc tc now (Some (_save_risk_data rm)) in
  _save_risk_data rm' = _save_risk_data rm ∧
  current_balance rm' = 0 ∧ hourly_trade_count rm' = 0%Z ∧
  risk_config rm' = rc ∧
  (∀ sig bal t, trading_paused rm = true → t < pause_until rm →
     let r := (assess_trade_risk sig bal t rm').1 in
     decision r = TradeDecision.REJECTED ∧
     rejection_reasons r = [("Trading paused: " ++ pause_reason rm)%string]).
Proof.
  cbv zeta. split_and!; try reflexivity.
  intros sig bal t Hp Hlt.
  set (rm' := start rc tc now (Some (_save_risk_data rm))).
  assert (Hp' : trading_paused rm' = true) by exact Hp.
  assert (Hlt' : t < pause_until rm') by exact Hlt.
  split; [|exact (assess_while_paused sig bal t rm' Hp' Hlt')].
  unfold assess_trade_risk, assess_body, pause_active.
  destruct (refresh_pause bal t rm') as (-> & _ & ->).
  rewrite Hp'. apply Qltb_lt in Hlt'. by rewrite Hlt'.
Qed.

End RiskOpsProps.

(** ** The executor *)

Module ExecutorOpsProps.

Import Py Executor ExecutorOps ExecutorProps.
Local Open Scope Q_scope.

(** *** Slices of the completed trades *)

Lemma slice_from_neg {A} (k : Z) (l : list A) :
  (0 < k)%Z → slice_from (- k) l = drop (length l - Z.to_nat k) l.
Proof.
  intros Hk. unfold slice_from.
  destruct (Z.ltb_spec (- k) 0) as [_|H]; [|lia]. f_equal. lia.
Qed.

Lemma slice_from_zero {A} (l : list A) : slice_from (- 0) l = l.
Proof. unfold slice_from. cbn. destruct (length l); reflexivity. Qed.

Lemma slice_from_pos {A} (k : Z) (l : list A) :
  (0 ≤ k)%Z → slice_from k l = drop (Z.to_nat k) l.
Proof.
  intros Hk. unfold slice_from.
  destruct (Z.ltb_spec k 0) as [H|_]; [lia|].
  destruct (Z.le_ge_cases k (Z.of_nat (length l))).
  - by rewrite Z.min_l.
  - rewrite Z.min_r, Nat2Z.id by done.
    rewrite !drop_ge; [done|lia|lia].
Qed.

(** X10: [get_recent_trades(count)] returns the last [count] completed trades
    when there are that many, and all of them when there are fewer.  A
    [count] of 0 does not return an empty list but every completed trade,
    and a negative [count] returns all but the oldest [-count]. *)
Theorem recent_trades_slice count ex :
  let l := completed_trades ex in
  let r := get_recent_trades count ex in
  ((1 ≤ count ≤ Z.of_nat (length l))%Z →
     r = drop (length l - Z.to_nat count) l ∧ Z.of_nat (length r) = count) ∧
  ((Z.of_nat (length l) < count)%Z → r = l) ∧
  (count = 0%Z → r = l) ∧
  ((count < 0)%Z → r = drop (Z.to_nat (- count)) l).
Proof.
  cbv zeta. unfold get_recent_trades. split_and!.
  - intros [H1 H2]. destruct (Z.leb_spec count (Z.of_nat (length (completed_trades ex))));
      [|lia].
    rewrite slice_from_neg by lia. split; [done|]. rewrite length_drop. lia.
  - intros H. by destruct (Z.leb_spec count (Z.of_nat (length (completed_trades ex))));
      [lia|].
  - intros ->. destruct (Z.leb_spec 0 (Z.of_nat (length (completed_trades ex))));
      [|done]. apply slice_from_zero.
  - intros H. destruct (Z.leb_spec count (Z.of_nat (length (completed_trades ex))));
      [|lia]. apply slice_from_pos. lia.
Qed.

(** X11: [cleanup_old_trades(max)] with [max] at least 1 keeps the [max] most
    recent completed trades, so that at most [max] are left, and a second
    call changes nothing; it touches nothing but the completed trades.
    With [max] 0 it removes nothing. *)
Theorem cleanup_keeps_most_recent max ex :
  let l := completed_trades ex in
  let ex' := cleanup_old_trades max ex in
  ((1 ≤ max)%Z →
     completed_trades ex' = drop (length l - Z.to_nat max) l ∧
     Z.of_nat (length (completed_trades ex')) = Z.min (Z.of_nat (length l)) max ∧
     cleanup_old_trades max ex' = ex') ∧
  (max = 0%Z → completed_trades ex' = l) ∧
  active_trades ex' = active_trades ex ∧
  contract_subscriptions ex' = contract_subscriptions ex ∧
  risk_manager ex' = risk_manager ex.
Proof.
  cbv zeta.
  destruct (Z.of_nat (length (completed_trades ex)) >? max)%Z eqn:E.
  - assert (H : (max < Z.of_nat (length (completed_trades ex)))%Z) by lia.
    assert (E1 : cleanup_old_trades max ex
                 = with_tables (risk_manager ex) (active_trades ex)
                     (slice_from (- max) (completed_trades ex))
                     (contract_subscriptions ex) ex).
    { unfold cleanup_old_trades. by rewrite E. }
    rewrite E1. cbn. split_and!; try done.
    + intros H1. rewrite slice_from_neg by lia. split_and!; [done| |].
      * rewrite length_drop. lia.
      * unfold cleanup_old_trades. cbn [completed_trades with_tables].
        rewrite length_drop.
        destruct (Z.gtb_spec
          (Z.of_nat (length (completed_trades ex)
                     - (length (completed_trades ex) - Z.to_nat max))) max);
          [lia|done].
    + intros ->. apply slice_from_zero.
  - assert (H : (Z.of_nat (length (completed_trades ex)) ≤ max)%Z) by lia.
    assert (E1 : cleanup_old_trades max ex = ex).
    { unfold cleanup_old_trades. by rewrite E. }
    rewrite !E1. split_and!; try done. intros H1. split_and!.
    + rewrite (proj2 (Nat.sub_0_le _ _)) by lia. done.
    + lia.
    + done.
Qed.

(** *** Cancelling what is active *)

(** What [cancel_all_active_trades] writes to a trade. *)
Definition cancelled (now : Q) (t : Trade) : Trade :=
  with_exit_time (Some now) (with_status TradeStatus.CANCELLED t).

(** The loop of [cancel_all_active_trades], over any list of trade
    objects, each with the clock reading of its turn. *)
Lemma cancel_fold (L : list (Q * (string * Trade))) ex :
  NoDup (active_trades ex).*1 →
  (∀ now k t, (now, (k, t)) ∈ L → trade_id t = k) →
  let ex' := fold_left cancel_one L ex in
  active_trades ex'
    = List.filter (fun x => negb (existsb (fun y => String.eqb y.2.1 x.1) L))
        (active_trades ex) ∧
  completed_trades ex'
    = (completed_trades ex ++ map (fun y => cancelled y.1 y.2.2) L)%list ∧
  risk_manager ex' = risk_manager ex ∧
  contract_subscriptions ex' = contract_subscriptions ex ∧
  trade_counter ex' = trade_counter ex ∧
  total_executions ex' = total_executions ex ∧
  successful_executions ex' = successful_executions ex ∧
  failed_executions ex' = failed_executions ex ∧
  rejected_executions ex' = rejected_executions ex.
Proof.
  revert ex. induction L as [|[now [k t]] L IH]; intros ex Hnd Hid; simpl.
  - by rewrite filter_all, app_nil_r.
  - assert (Hid' : ∀ now' k' t', (now', (k', t')) ∈ L → trade_id t' = k').
    { intros now' k' t' H. apply (Hid now'). by right. }
    assert (Hk : trade_id t = k) by (apply (Hid now); by left).
    set (ex1 := with_tables _ _ _ _ ex).
    assert (Ha : active_trades ex1
                 = List.filter (fun x => negb (String.eqb k x.1)) (active_trades ex)).
    { unfold ex1. cbn. rewrite Hk, dict_del_set. by apply dict_del_filter. }
    destruct (IH ex1) as (Ha' & Hc' & Hr' & Hs' & -> & -> & -> & -> & ->);
      [|done|].
    { rewrite Ha. by apply NoDup_keys_filter. }
    rewrite Ha', Hc', Hr', Hs', Ha. split_and!; try done.
    + rewrite filter_filter. apply filter_ext. intros [k2 t2]. simpl.
      by rewrite negb_orb.
    + unfold ex1. cbn. by rewrite <- app_assoc.
Qed.

Lemma filter_none {A} (f : A → bool) l :
  (∀ x, x ∈ l → f x = false) → List.filter f l = [].
Proof.
  induction l as [|x l IH]; intros H; simpl; [done|].
  rewrite (H x) by (by left). apply IH. intros y Hy. apply H. by right.
Qed.

(** The trades that [cancel_all_active_trades] completes: the active
    ones, each marked at the clock reading of its turn. *)
Definition all_cancelled (clock : nat → Q) (ex : TradeExecutor) : list Trade :=
  imap (fun i t => cancelled (clock i) t) (get_active_trades ex).

Lemma all_cancelled_elem clock ex t :
  t ∈ all_cancelled clock ex →
  ∃ now k t0, t = cancelled now t0 ∧ (k, t0) ∈ active_trades ex.
Proof.
  unfold all_cancelled, get_active_trades, dict_values. intros H.
  apply elem_of_lookup_imap in H as (i & t0 & -> & H).
  apply list_elem_of_lookup_2, list_elem_of_fmap in H as [[k t1] [-> H]].
  by exists (clock i), k, t1.
Qed.

Lemma cancel_all_spec clock ex :
  wf ex →
  let ex' := cancel_all_active_trades clock ex in
  active_trades ex' = [] ∧
  completed_trades ex' = (completed_trades ex ++ all_cancelled clock ex)%list ∧
  contract_subscriptions ex' = ∅ ∧
  risk_manager ex' = risk_manager ex ∧
  trade_counter ex' = trade_counter ex ∧
  total_executions ex' = total_executions ex ∧
  successful_executions ex' = successful_executions ex ∧
  failed_executions ex' = failed_executions ex ∧
  rejected_executions ex' = rejected_executions ex.
Proof.
  intros (Hnd & Hid & _). cbv zeta. unfold cancel_all_active_trades.
  destruct (cancel_fold (imap (fun i kt => (clock i, kt)) (active_trades ex))
              ex Hnd)
    as (Ha & Hc & Hr & _ & H1 & H2 & H3 & H4 & H5).
  { intros now k t H. apply elem_of_lookup_imap in H as (i & y & [= -> <-] & H).
    by apply list_elem_of_lookup_2, Hid in H. }
  cbn. rewrite Ha, Hc, Hr. split_and!; try done.
  - apply filter_none. intros x Hx. apply negb_false_iff, existsb_exists.
    apply list_elem_of_lookup in Hx as [i Hi].
    exists (clock i, x). split; [|apply String.eqb_refl].
    apply list_elem_of_In, elem_of_lookup_imap. by exists i, x.
  - f_equal. unfold all_cancelled, get_active_trades, dict_values.
    change map with (@fmap list _). by rewrite fmap_imap, imap_fmap.
Qed.

Lemma wf_no_active ex : active_trades ex = [] → wf ex.
Proof.
  intros H. unfold wf. rewrite H. split_and!.
  - constructor.
  - intros k t Hin. by apply elem_of_nil in Hin.
  - intros cid tid t _ Hg. discriminate Hg.
Qed.

(** X12: In a well-formed executor, [cancel_all_active_trades] empties the
    active set and the contract routes, and appends every trade that was
    active to the completed trades, in order, with status CANCELLED and
    the clock reading of its turn as exit time.  The risk manager is not
    told: no outcome is recorded for a cancelled trade.  After [shutdown]
    no trade is active either. *)
Theorem cancel_all_moves_active clock ex :
  wf ex →
  let ex' := cancel_all_active_trades clock ex in
  active_trades ex' = [] ∧
  completed_trades ex'
    = (completed_trades ex
         ++ imap (fun i t => cancelled (clock i) t) (get_active_trades ex))%list ∧
  contract_subscriptions ex' = ∅ ∧
  risk_manager ex' = risk_manager ex ∧
  wf ex' ∧
  active_trades (shutdown clock ex) = [] ∧
  completed_trades (shutdown clock ex) = completed_trades ex'.
Proof.
  intros Hwf. cbv zeta.
  destruct (cancel_all_spec clock ex Hwf) as (Ha & Hc & Hs & Hr & _).
  unfold all_cancelled in Hc.
  assert (Hsh : shutdown clock ex = ex ∧ active_trades ex = []
                ∨ shutdown clock ex = cancel_all_active_trades clock ex).
  { unfold shutdown. destruct (active_trades ex) eqn:E; [by left|by right]. }
  split_and!; try done.
  - by apply wf_no_active.
  - by destruct Hsh as [[-> E]| ->].
  - destruct Hsh as [[-> E]| ->]; [|done].
    rewrite Hc. unfold get_active_trades, dict_values. rewrite E. cbn.
    by rewrite app_nil_r.
Qed.

(** A clock that reads the same at every turn. *)
Definition at_five : nat → Q := fun _ => 1700000005.

Lemma cancel_all_moves_active_witness :
  let ex' := cancel_all_active_trades at_five with_contract in
  active_trades ex' = [] ∧
  completed_trades ex'
    = (completed_trades with_contract
         ++ imap (fun i t => cancelled (at_five i) t)
              (get_active_trades with_contract))%list ∧
  contract_subscriptions ex' = ∅ ∧
  risk_manager ex' = risk_manager with_contract ∧
  wf ex' ∧
  active_trades (shutdown at_five with_contract) = [] ∧
  completed_trades (shutdown at_five with_contract) = completed_trades ex'.
Proof.
  apply (cancel_all_moves_active at_five with_contract).
  apply wfb_wf. vm_compute. reflexivity.
Defined.

(** *** Looking a trade up *)

(** X13: In a well-formed executor, [get_trade_by_id] answers with a trade
    that carries the id asked for, the active one if there is one, else
    the oldest completed one; it answers [None] exactly when no active
    and no completed trade carries the id. *)
Theorem get_trade_by_id_finds id ex :
  wf ex →
  (∀ t, get_trade_by_id id ex = Some t →
     trade_id t = id ∧
     ((id, t) ∈ active_trades ex ∨
      (¬ id ∈ (active_trades ex).*1 ∧ t ∈ completed_trades ex))) ∧
  (get_trade_by_id id ex = None ↔
     ¬ id ∈ (active_trades ex).*1 ∧
     ∀ t, t ∈ completed_trades ex → trade_id t ≠ id).
Proof.
  intros (Hnd & Hid & _). unfold get_trade_by_id.
  assert (Habs : dict_get id (active_trades ex) = None → id ∉ (active_trades ex).*1).
  { intros Hg Hin. apply list_elem_of_fmap in Hin as [[k v] [-> Hin]].
    simpl in Hg. by rewrite (elem_dict_get _ _ _ Hnd Hin) in Hg. }
  destruct (dict_get id (active_trades ex)) as [t0|] eqn:Hg.
  - apply dict_get_elem in Hg. split.
    + intros t [= <-]. split; [by apply Hid|by left].
    + split; [discriminate|]. intros [Hno _]. exfalso. apply Hno.
      apply list_elem_of_fmap. by exists (id, t0).
  - specialize (Habs eq_refl). split.
    + intros t Hf. apply find_some in Hf as [Hin Heq].
      apply String.eqb_eq in Heq. apply list_elem_of_In in Hin.
      split; [done|]. by right.
    + split.
      * intros Hf. split; [done|]. intros t Hin Heq.
        apply list_elem_of_In in Hin.
        pose proof (find_none _ _ Hf t Hin) as Hne. cbn in Hne.
        apply String.eqb_neq in Hne. done.
      * intros [_ Hno]. destruct (find _ _) as [t|] eqn:Hf; [|done].
        apply find_some in Hf as [Hin Heq]. apply String.eqb_eq in Heq.
        apply list_elem_of_In in Hin. by apply Hno in Hin.
Qed.

Lemma get_trade_by_id_finds_witness :
  (∀ t, get_trade_by_id first_id with_contract = Some t →
     trade_id t = first_id ∧
     ((first_id, t) ∈ active_trades with_contract ∨
      (¬ first_id ∈ (active_trades with_contract).*1 ∧
       t ∈ completed_trades with_contract))) ∧
  (get_trade_by_id first_id with_contract = None ↔
     ¬ first_id ∈ (active_trades with_contract).*1 ∧
     ∀ t, t ∈ completed_trades with_contract → trade_id t ≠ first_id).
Proof.
  apply (get_trade_by_id_finds first_id with_contract).
  apply wfb_wf. vm_compute. reflexivity.
Defined.

(** *** Trade ids *)

Fixpoint has_char (c : ascii) (s : string) : bool :=
  match s with
  | EmptyString => false
  | String a s' => Ascii.eqb a c || has_char c s'
  end.

Lemma digits_no_underscore d :
  has_char "_" (NilEmpty.string_of_uint d) = false.
Proof. induction d; cbn; done. Qed.

Lemma str_int_no_underscore z : has_char "_" (str_int z) = false.
Proof.
  assert (H : ∀ d, has_char "_" (NilZero.string_of_uint d) = false).
  { intros d. destruct d; [reflexivity|..]; apply digits_no_underscore. }
  unfold str_int. destruct z as [|p|p]; cbn [Z.to_int NilZero.string_of_int].
  - apply H.
  - apply H.
  - cbn [has_char]. rewrite H. reflexivity.
Qed.

(** Where the first underscore is decides both sides of it. *)
Lemma split_at_underscore a1 a2 b1 b2 :
  has_char "_" a1 = false → has_char "_" a2 = false →
  (a1 ++ String "_" b1 = a2 ++ String "_" b2)%string →
  a1 = a2 ∧ b1 = b2.
Proof.
  revert a2. induction a1 as [|c a1 IH]; intros [|c2 a2]; cbn [has_char append].
  - intros _ _ [= ->]. done.
  - intros _ H [= <- _]. discriminate H.
  - intros H _ [= -> _]. discriminate H.
  - intros H1 H2 [= -> E]. apply orb_false_iff in H1 as [_ H1].
    apply orb_false_iff in H2 as [_ H2].
    destruct (IH a2 H1 H2 E) as [-> ->]. done.
Qed.

(** The number that a string of digits writes, leading zeros allowed. *)
Definition number_of (s : string) : option Z :=
  option_map Z.of_int (NilZero.int_of_string s).

Lemma number_of_str_int z : number_of (str_int z) = Some z.
Proof.
  unfold number_of, str_int. rewrite NilZero.isi.
  - cbn. by rewrite DecimalZ.of_to.
  - destruct z as [|p|p]; cbn; intros [= E]. by apply Unsigned.to_uint_nonnil in E.
  - destruct z as [|p|p]; cbn; intros [= E]. by apply Unsigned.to_uint_nonnil in E.
Qed.

(** A string that starts with something else than a minus sign. *)
Definition unsigned (s : string) : Prop :=
  ∃ a s', s = String a s' ∧ Ascii.eqb a "-" = false.

Lemma str_int_unsigned z : (0 ≤ z)%Z → unsigned (str_int z).
Proof.
  intros Hz. unfold str_int. destruct z as [|p|p]; [| |lia].
  - by exists "0"%char, EmptyString.
  - cbn [Z.to_int NilZero.string_of_int].
    destruct (Pos.to_uint p) as [|d|d|d|d|d|d|d|d|d|d] eqn:E;
      cbn [NilZero.string_of_uint NilEmpty.string_of_uint];
      eexists _, _; split; reflexivity.
Qed.

Lemma number_of_zero s :
  unsigned s → number_of (String "0" s) = number_of s.
Proof.
  intros (a & s' & -> & Ha). unfold number_of, NilZero.int_of_string.
  rewrite Ha. change (Ascii.eqb "0" "-") with false. cbv iota.
  unfold NilZero.uint_of_string. cbn [NilEmpty.uint_of_string].
  destruct (uint_of_char a (NilEmpty.uint_of_string s')) as [d|]; reflexivity.
Qed.

Lemma zeros_unsigned k s : unsigned s → unsigned (zeros k ++ s)%string.
Proof.
  intros H. destruct k as [|k]; [exact H|]. cbn.
  by exists "0"%char, (zeros k ++ s)%string.
Qed.

Lemma number_of_zeros k s :
  unsigned s → number_of (zeros k ++ s)%string = number_of s.
Proof.
  intros H. induction k as [|k IH]; [done|].
  change (zeros (S k) ++ s)%string with (String "0" (zeros k ++ s)).
  rewrite number_of_zero; [exact IH|by apply zeros_unsigned].
Qed.

Lemma fmt_04d_number z : (0 ≤ z)%Z → number_of (fmt_04d z) = Some z.
Proof.
  intros Hz. unfold fmt_04d, pad_left.
  rewrite number_of_zeros by (by apply str_int_unsigned).
  apply number_of_str_int.
Qed.

Lemma same_id_same_counter now1 now2 c1 c2 :
  (0 ≤ c1)%Z → (0 ≤ c2)%Z →
  (_generate_trade_id now1 c1).1 = (_generate_trade_id now2 c2).1 →
  int_of (now1 * 1000) = int_of (now2 * 1000) ∧ c1 = c2.
Proof.
  intros H1 H2. unfold _generate_trade_id. cbn [fst].
  intros E. cbn [append] in E. injection E as E.
  apply split_at_underscore in E as [Et Ec];
    [|apply str_int_no_underscore|apply str_int_no_underscore].
  split.
  - pose proof (number_of_str_int (int_of (now1 * 1000))) as V.
    rewrite Et, number_of_str_int in V. congruence.
  - pose proof (fmt_04d_number (c1 + 1)) as V. rewrite Ec in V.
    rewrite fmt_04d_number in V by lia. specialize (V ltac:(lia)).
    injection V as V. lia.
Qed.

(** X14: [_generate_trade_id] gives two calls the same id only if they have
    the same counter and the same clock reading, in milliseconds: ids
    made under different counters differ, whatever the clock reads. *)
Theorem trade_ids_differ now1 now2 c1 c2 :
  (0 ≤ c1)%Z → (0 ≤ c2)%Z →
  (_generate_trade_id now1 c1).1 = (_generate_trade_id now2 c2).1
  ↔ int_of (now1 * 1000) = int_of (now2 * 1000) ∧ c1 = c2.
Proof.
  intros H1 H2. split.
  - by apply same_id_same_counter.
  - unfold _generate_trade_id. cbn [fst]. intros [-> ->]. reflexivity.
Qed.

Lemma trade_ids_differ_witness :
  (_generate_trade_id 1700000001 0).1 = (_generate_trade_id 1700000001 1).1
  ↔ int_of (1700000001 * 1000) = int_of (1700000001 * 1000) ∧ 0%Z = 1%Z.
Proof. apply (trade_ids_differ 1700000001 1700000001 0 1); lia. Defined.

(** *** The states an executor reaches *)

(** An id that [_generate_trade_id] gave under a counter below [n]. *)
Definition issued_before (n : Z) (k : string) : Prop :=
  ∃ now c, (0 ≤ c < n)%Z ∧ k = (_generate_trade_id now c).1.

Lemma issued_mono n m k : (n ≤ m)%Z → issued_before n k → issued_before m k.
Proof. intros H (now & c & Hc & ->). exists now, c. split; [lia|done]. Qed.

Lemma issued_next now n :
  (0 ≤ n)%Z → issued_before (n + 1) (_generate_trade_id now n).1.
Proof. intros H. exists now, n. split; [lia|done]. Qed.

Lemma not_issued_yet now n :
  (0 ≤ n)%Z → ¬ issued_before n (_generate_trade_id now n).1.
Proof.
  intros H (now' & c & Hc & E).
  apply same_id_same_counter in E as [_ E]; lia.
Qed.

(** What holds of every state an executor reaches: the representation
    invariant, ids in use that were issued under a smaller counter, and
    counters that add up. *)
Definition sound (ex : TradeExecutor) : Prop :=
  wf ex ∧
  (0 ≤ trade_counter ex)%Z ∧
  (∀ k, k ∈ (active_trades ex).*1 → issued_before (trade_counter ex) k) ∧
  (∀ cid tid, contract_subscriptions ex !! cid = Some tid →
     issued_before (trade_counter ex) tid) ∧
  trade_counter ex = total_executions ex ∧
  total_executions ex = (successful_executions ex + failed_executions ex)%Z ∧
  Z.of_nat (length (active_trades ex) + length (completed_trades ex))
    = successful_executions ex.

Lemma sound_init rm : sound (init rm).
Proof.
  unfold sound. split; [apply wf_init|]. cbn. split_and!; try done.
  intros k H. by apply elem_of_nil in H.
Qed.

Lemma dict_set_length {V} k (v : V) d :
  length (dict_set k v d)
  = match dict_get k d with Some _ => length d | None => S (length d) end.
Proof.
  induction d as [|[k' v'] d IH]; [done|]. cbn [dict_set dict_get].
  destruct (String.eqb k k'); [done|]. cbn [length]. rewrite IH.
  by destruct (dict_get k d).
Qed.

Lemma dict_del_length {V} k (v : V) d :
  dict_get k d = Some v → S (length (dict_del k d)) = length d.
Proof.
  induction d as [|[k' v'] d IH]; [discriminate|]. cbn [dict_del dict_get].
  destruct (String.eqb k k'); [done|]. intros H. cbn [length]. by rewrite IH.
Qed.

Lemma dict_del_elem {V} k (d : list (string * V)) x : x ∈ dict_del k d → x ∈ d.
Proof.
  induction d as [|[k' v'] d IH]; [done|]. cbn [dict_del].
  destruct (String.eqb k k'); intros H; [by right|].
  apply elem_of_cons in H as [->|H]; [by left|]. right. by apply IH.
Qed.

Lemma keys_elem {V} (d : list (string * V)) k : k ∈ d.*1 ↔ ∃ v, (k, v) ∈ d.
Proof.
  rewrite list_elem_of_fmap. split.
  - intros [[k' v] [-> H]]. by exists v.
  - intros [v H]. by exists (k, v).
Qed.

Lemma sound_execute sig bal now now_end placed ex :
  sound ex → sound (execute_trade sig bal now now_end placed ex).2.
Proof.
  intros (Hwf & H0 & Hk & Hs & Hc & Ht & Hl).
  assert (Hfresh : dict_get (_generate_trade_id now (trade_counter ex)).1
                     (active_trades ex) = None).
  { destruct (dict_get _ (active_trades ex)) as [t|] eqn:E; [|done].
    exfalso. apply (not_issued_yet now (trade_counter ex) H0), Hk, keys_elem.
    exists t. by apply dict_get_elem. }
  assert (Hunrouted : ∀ cid, contract_subscriptions ex !! cid
                             ≠ Some (_generate_trade_id now (trade_counter ex)).1).
  { intros cid E. by apply (not_issued_yet now (trade_counter ex) H0), (Hs cid). }
  pose proof (execute_trade_wf sig bal now now_end placed ex Hwf Hfresh Hunrouted)
    as Hwf'.
  unfold sound. split; [exact Hwf'|]. clear Hwf'.
  pose proof (issued_next now (trade_counter ex) H0) as Hnew.
  unfold execute_trade.
  destruct (Risk.assess_trade_risk sig bal now (risk_manager ex)) as [a rm].
  destruct (_generate_trade_id now (trade_counter ex)) as [tid counter] eqn:Eg.
  assert (Ecounter : counter = (trade_counter ex + 1)%Z).
  { unfold _generate_trade_id in Eg. by injection Eg as _ <-. }
  cbn [fst] in Hfresh, Hnew. subst counter.
  assert (Hk' : ∀ k, k ∈ (active_trades ex).*1 →
                  issued_before (trade_counter ex + 1) k).
  { intros k H. apply (issued_mono (trade_counter ex)); [lia|by apply Hk]. }
  assert (Hs' : ∀ cid tid', contract_subscriptions ex !! cid = Some tid' →
                  issued_before (trade_counter ex + 1) tid').
  { intros cid tid' H. apply (issued_mono (trade_counter ex)); [lia|by eapply Hs]. }
  assert (Hplaced : ∀ b,
    let t' := mkTrade tid sig (Signal.SignalType.value (Signal.signal_type sig))
                (Risk.recommended_stake a) (Signal.duration sig)
                (Signal.entry_price sig) now TradeStatus.ACTIVE
                (buy_contract_id b) None None None (buy_payout b) (buy_barrier b) in
    let subs := if truthy (buy_contract_id b)
                then match buy_contract_id b with
                     | Some cid => <[cid := tid]> (contract_subscriptions ex)
                     | None => contract_subscriptions ex
                     end
                else contract_subscriptions ex in
    (0 ≤ trade_counter ex + 1)%Z ∧
    (∀ k, k ∈ (dict_set tid t' (active_trades ex)).*1 →
          issued_before (trade_counter ex + 1) k) ∧
    (∀ cid tid', subs !! cid = Some tid' →
       issued_before (trade_counter ex + 1) tid') ∧
    (trade_counter ex + 1 = total_executions ex + 1)%Z ∧
    (total_executions ex + 1
     = successful_executions ex + 1 + failed_executions ex)%Z ∧
    Z.of_nat (length (dict_set tid t' (active_trades ex))
              + length (completed_trades ex))
    = (successful_executions ex + 1)%Z).
  { intros b. cbv zeta. split_and!; try lia.
    - intros k H. rewrite dict_set_keys, Hfresh in H.
      apply elem_of_app in H as [H|H]; [by apply Hk'|].
      apply list_elem_of_singleton in H as ->. exact Hnew.
    - intros cid tid' H. destruct (truthy (buy_contract_id b)); [|by eapply Hs'].
      destruct (buy_contract_id b) as [cid'|]; [|by eapply Hs'].
      apply lookup_insert_Some in H as [[_ <-]|[_ H]]; [exact Hnew|by eapply Hs'].
    - rewrite dict_set_length, Hfresh. cbn [length Nat.add]. lia. }
  destruct (Risk.decision a); cbn [snd];
    try (cbn; split_and!; done);
    (destruct (_place_order _ placed) as [b|]; cbn [snd];
       [apply Hplaced|cbn; split_and!; try done; lia]).
Qed.

Lemma sound_push push now ex :
  sound ex → sound (handle_contract_update push now ex).
Proof.
  intros Hsound. pose proof Hsound as (Hwf & H0 & Hk & Hs & Hc & Ht & Hl).
  pose proof (handle_contract_update_wf push now ex Hwf) as Hwf'.
  unfold sound. split; [exact Hwf'|]. clear Hwf'.
  destruct Hsound as (_ & Hrest).
  unfold handle_contract_update.
  destruct (info_contract_id _) as [cid|]; [|exact Hrest].
  destruct (negb (truthy (Some cid))); [exact Hrest|].
  destruct (contract_subscriptions ex !! cid) as [tid|] eqn:Hcid; [|exact Hrest].
  destruct (dict_get tid (active_trades ex)) as [t|] eqn:Hg; [|exact Hrest].
  clear Hrest.
  set (t1 := match current_spot _ with
             | Some x => if Qeq_bool x 0 then t else with_exit_price (Some x) t
             | None => t
             end).
  assert (Hti : trade_id t1 = trade_id t).
  { unfold t1. destruct (current_spot _) as [x|]; [|done].
    by destruct (Qeq_bool x 0). }
  assert (Htid : trade_id t = tid).
  { destruct Hwf as (_ & Hid & _). by apply Hid, dict_get_elem. }
  assert (Hkeep : ∀ v w,
    (dict_set tid v (dict_set tid w (active_trades ex))).*1 = (active_trades ex).*1
    ∧ length (dict_set tid v (dict_set tid w (active_trades ex)))
      = length (active_trades ex)
    ∧ (dict_set tid w (active_trades ex)).*1 = (active_trades ex).*1
    ∧ length (dict_set tid w (active_trades ex)) = length (active_trades ex)).
  { intros v w.
    rewrite !dict_set_keys, !dict_set_length, dict_get_set_eq, Hg. done. }
  destruct (is_sold _).
  - unfold _finalize_trade.
    destruct (match sell_spot _ with Some x => Some x | None => _ end) as [spot|].
    + cbn [trade_id with_status with_profit_loss with_exit_price with_exit_time
           contract_id with_tables active_trades completed_trades
           contract_subscriptions trade_counter total_executions
           successful_executions failed_executions risk_manager].
      rewrite Hti, Htid, !dict_del_set. split_and!; try done.
      * intros k H. apply Hk. apply keys_elem in H as [v H].
        apply keys_elem. exists v. by eapply dict_del_elem.
      * intros cid' tid' H. apply (Hs cid').
        destruct (truthy (contract_id t1)); [|done].
        destruct (contract_id t1); [|done].
        by apply lookup_delete_Some in H as [_ H].
      * rewrite length_app. cbn [length].
        pose proof (dict_del_length tid t (active_trades ex) Hg). lia.
    + cbn. destruct (Hkeep (with_exit_time (Some now) t1) t1) as (-> & -> & _).
      done.
  - cbn. destruct (Hkeep t1 t1) as (_ & _ & -> & ->). done.
Qed.

Lemma filter_length_split {A} (f : A → bool) l :
  (length (List.filter f l) + length (List.filter (fun x => negb (f x)) l))%nat
  = length l.
Proof.
  induction l as [|x l IH]; [done|]. cbn. destruct (f x); cbn; lia.
Qed.

Lemma sweep_counters now L ex :
  let ex' := fold_left (expire_one now) L ex in
  trade_counter ex' = trade_counter ex ∧
  total_executions ex' = total_executions ex ∧
  successful_executions ex' = successful_executions ex ∧
  failed_executions ex' = failed_executions ex.
Proof.
  revert ex. induction L as [|[k t] L IH]; intros ex; [done|].
  cbn [fold_left]. destruct (IH (expire_one now ex (k, t))) as (-> & -> & -> & ->).
  unfold expire_one. by destruct (truthy (contract_id t)).
Qed.

Lemma sound_sweep now ex : sound ex → sound (check_expired_trades now ex).
Proof.
  intros (Hwf & H0 & Hk & Hs & Hc & Ht & Hl).
  destruct (sweep_spec now ex Hwf) as (Ha & Hcp & _ & Hsub).
  destruct (sweep_counters now
              (List.filter (fun kt => expired now kt.2) (active_trades ex)) ex)
    as (Hn1 & Hn2 & Hn3 & Hn4).
  fold (check_expired_trades now ex) in Hn1, Hn2, Hn3, Hn4.
  unfold sound. split; [by apply sweep_wf|].
  rewrite Ha, Hcp, Hsub, Hn1, Hn2, Hn3, Hn4. split_and!; try done.
  - intros k H. apply Hk. apply keys_elem in H as [v H]. apply keys_elem.
    exists v. by apply elem_of_filter in H as [H _].
  - rewrite length_app, !length_map.
    pose proof (filter_length_split (swept now) (active_trades ex)). lia.
Qed.

Lemma sound_cancel_all clock ex :
  sound ex → sound (cancel_all_active_trades clock ex).
Proof.
  intros (Hwf & H0 & Hk & Hs & Hc & Ht & Hl).
  destruct (cancel_all_spec clock ex Hwf)
    as (Ha & Hcp & Hsub & _ & Hn1 & Hn2 & Hn3 & Hn4 & _).
  unfold sound. split; [by apply wf_no_active|].
  rewrite Ha, Hcp, Hsub, Hn1, Hn2, Hn3, Hn4. split_and!; try done.
  - intros k H. by apply elem_of_nil in H.
  - rewrite length_app. unfold all_cancelled, get_active_trades, dict_values.
    rewrite length_imap, length_map. cbn [length Nat.add]. lia.
Qed.

Lemma sound_call c ex : sound ex → sound (call c ex).
Proof.
  intros H. destruct c; cbn [call].
  - by apply sound_execute.
  - by apply sound_push.
  - by apply sound_sweep.
  - by apply sound_cancel_all.
  - unfold shutdown. destruct (active_trades ex); [done|].
    by apply sound_cancel_all.
Qed.

Lemma sound_calls cs ex : sound ex → sound (calls cs ex).
Proof.
  revert ex. induction cs as [|c cs IH]; intros ex H; [done|].
  apply IH. by apply sound_call.
Qed.

(** X15: Whatever an executor is asked to do, starting from a new one, and
    whatever the clock reads at each call: its tables stay well formed
    (no key twice among the active trades, every active trade under its
    own id, every contract route to an active trade that carries the
    contract id), so no id is given to two active trades; the id counter
    equals the number of executions, which is the number of successful
    plus the number of failed ones; and every successfully placed trade
    is in exactly one of the active and the completed trades, whose
    lengths add up to the number of successful executions. *)
Theorem reachable_states_sound cs rm :
  let ex := calls cs (init rm) in
  wf ex ∧
  trade_counter ex = total_executions ex ∧
  total_executions ex = (successful_executions ex + failed_executions ex)%Z ∧
  Z.of_nat (length (active_trades ex) + length (completed_trades ex))
    = successful_executions ex.
Proof.
  destruct (sound_calls cs (init rm) (sound_init rm))
    as (Hwf & _ & _ & _ & Hc & Ht & Hl).
  done.
Qed.

(** *** Status and outcome of the trades kept *)

(** A completed trade is closed: it has an exit time, and either an
    outcome with its sign (WON, LOST) or no outcome (ERROR, CANCELLED). *)
Definition closed (t : Trade) : Prop :=
  exit_time t ≠ None ∧
  match status t with
  | TradeStatus.WON => ∃ pl, profit_loss t = Some pl ∧ 0 < pl
  | TradeStatus.LOST => ∃ pl, profit_loss t = Some pl ∧ pl <= 0
  | TradeStatus.ERROR | TradeStatus.CANCELLED => profit_loss t = None
  | TradeStatus.PENDING | TradeStatus.ACTIVE => False
  end.

(** An active trade is open: ACTIVE, and without outcome. *)
Definition open (t : Trade) : Prop :=
  status t = TradeStatus.ACTIVE ∧ profit_loss t = None.

Definition sorted_out (ex : TradeExecutor) : Prop :=
  (∀ k t, (k, t) ∈ active_trades ex → open t) ∧
  (∀ t, t ∈ completed_trades ex → closed t).

Lemma sorted_out_init rm : sorted_out (init rm).
Proof. split; cbn; intros; by apply elem_of_nil in H. Qed.

Lemma sorted_out_execute sig bal now now_end placed ex :
  sorted_out ex → sorted_out (execute_trade sig bal now now_end placed ex).2.
Proof.
  intros [Ha Hc]. unfold execute_trade.
  destruct (Risk.assess_trade_risk sig bal now (risk_manager ex)) as [a rm].
  destruct (_generate_trade_id now (trade_counter ex)) as [tid counter].
  assert (Hplaced : ∀ t', open t' →
            ∀ k t, (k, t) ∈ dict_set tid t' (active_trades ex) → open t).
  { intros t' Ht' k t H. apply elem_of_dict_set in H as [[= -> ->]|H]; [done|].
    by eapply Ha. }
  destruct (Risk.decision a); cbn [snd]; try (by split);
    (destruct (_place_order _ placed) as [b|]; cbn [snd]; [|by split]);
    (split; [apply Hplaced; by split|exact Hc]).
Qed.

Lemma sorted_out_push push now ex :
  wf ex → sorted_out ex → sorted_out (handle_contract_update push now ex).
Proof.
  intros Hwf [Ha Hc]. unfold handle_contract_update.
  destruct (info_contract_id _) as [cid|]; [|by split].
  destruct (negb (truthy (Some cid))); [by split|].
  destruct (contract_subscriptions ex !! cid) as [tid|] eqn:Hcid; [|by split].
  destruct (dict_get tid (active_trades ex)) as [t|] eqn:Hg; [|by split].
  set (t1 := match current_spot _ with
             | Some x => if Qeq_bool x 0 then t else with_exit_price (Some x) t
             | None => t
             end).
  assert (Ht : open t) by (eapply Ha; by apply dict_get_elem).
  assert (Ht1 : open t1 ∧ trade_id t1 = trade_id t).
  { unfold t1. destruct (current_spot _) as [x|]; [|done].
    by destruct (Qeq_bool x 0). }
  destruct Ht1 as [Ht1 Hti].
  assert (Htid : trade_id t = tid).
  { destruct Hwf as (_ & Hid & _). by apply Hid, dict_get_elem. }
  assert (Hset : ∀ v w, open v → open w →
            ∀ k t', (k, t') ∈ dict_set tid v (dict_set tid w (active_trades ex)) →
                    open t').
  { intros v w Hv Hw k t' H.
    apply elem_of_dict_set in H as [[= -> ->]|H]; [done|].
    apply elem_of_dict_set in H as [[= -> ->]|H]; [done|]. by eapply Ha. }
  assert (Hset1 : ∀ k t', (k, t') ∈ dict_set tid t1 (active_trades ex) → open t').
  { intros k t' H. apply elem_of_dict_set in H as [[= -> ->]|H]; [done|].
    by eapply Ha. }
  destruct (is_sold _); [|by split].
  unfold _finalize_trade.
  destruct (match sell_spot _ with Some x => Some x | None => _ end) as [spot|].
  - cbn [trade_id with_status with_profit_loss with_exit_price with_exit_time
         contract_id with_tables active_trades completed_trades].
    rewrite Hti, Htid, !dict_del_set. split.
    + intros k t' H. apply dict_del_elem in H. by eapply Ha.
    + intros t' H. apply elem_of_app in H as [H|H]; [by apply Hc|].
      apply list_elem_of_singleton in H as ->. split; [done|].
      set (pl := _ - _).
      destruct (Qgtb pl 0) eqn:E; cbn; exists pl; (split; [done|]).
      * by apply RiskProps.Qltb_lt in E.
      * by apply RiskProps.Qltb_ge in E.
  - split; [|exact Hc]. cbn [with_tables active_trades].
    apply Hset; [|done]. destruct Ht1. by split.
Qed.

Lemma sorted_out_sweep now ex :
  wf ex → sorted_out ex → sorted_out (check_expired_trades now ex).
Proof.
  intros Hwf [Ha Hc]. destruct (sweep_spec now ex Hwf) as (E1 & E2 & _).
  split.
  - rewrite E1. intros k t H. apply elem_of_filter in H as [H _]. by eapply Ha.
  - rewrite E2. intros t H. apply elem_of_app in H as [H|H]; [by apply Hc|].
    apply list_elem_of_fmap in H as [t0 [-> H]].
    apply list_elem_of_fmap in H as [[k t1] [-> H]].
    apply elem_of_filter in H as [H _]. destruct (Ha k t1 H) as [_ Hpl].
    by split.
Qed.

Lemma sorted_out_cancel_all clock ex :
  wf ex → sorted_out ex → sorted_out (cancel_all_active_trades clock ex).
Proof.
  intros Hwf [Ha Hc]. destruct (cancel_all_spec clock ex Hwf) as (E1 & E2 & _).
  split.
  - rewrite E1. intros k t H. by apply elem_of_nil in H.
  - rewrite E2. intros t H. apply elem_of_app in H as [H|H]; [by apply Hc|].
    apply all_cancelled_elem in H as (now & k & t1 & -> & H).
    destruct (Ha k t1 H) as [_ Hpl]. by split.
Qed.

Lemma sorted_out_calls cs ex :
  sound ex → sorted_out ex → sorted_out (calls cs ex).
Proof.
  revert ex. induction cs as [|c cs IH]; intros ex Hs H; [done|].
  cbn [calls fold_left]. apply IH; [by apply sound_call|].
  destruct Hs as (Hwf & _). destruct c; cbn [call].
  - by apply sorted_out_execute.
  - by apply sorted_out_push.
  - by apply sorted_out_sweep.
  - by apply sorted_out_cancel_all.
  - unfold shutdown. destruct (active_trades ex) eqn:E; [done|].
    by apply sorted_out_cancel_all.
Qed.

(** X16: Whatever an executor is asked to do, starting from a new one: every
    trade in the active set has status ACTIVE and no realized P&L, and
    every completed trade has an exit time and one of the four final
    statuses, WON with a P&L above 0, LOST with a P&L of 0 or below,
    ERROR or CANCELLED without P&L.  No PENDING trade is ever kept. *)
Theorem reachable_states_sorted cs rm :
  let ex := calls cs (init rm) in
  (∀ k t, (k, t) ∈ active_trades ex → open t) ∧
  (∀ t, t ∈ completed_trades ex → closed t).
Proof.
  exact (sorted_out_calls cs (init rm) (sound_init rm) (sorted_out_init rm)).
Qed.

(** *** What the risk manager is told *)

Lemma how_many_snoc f l t :
  how_many f (l ++ [t]) = (how_many f l + if f t then 1 else 0)%Z.
Proof.
  unfold how_many. rewrite List.filter_app, length_app. cbn.
  destruct (f t); cbn; lia.
Qed.

Lemma how_many_none f l1 l2 :
  (∀ t, t ∈ l2 → f t = false) → how_many f (l1 ++ l2) = how_many f l1.
Proof.
  intros H. unfold how_many.
  rewrite List.filter_app, (filter_none f l2 H), app_nil_r. done.
Qed.

Lemma how_many_bounds l :
  (0 ≤ how_many won l ∧ 0 ≤ how_many lost l ∧
   how_many won l + how_many lost l ≤ Z.of_nat (length l))%Z.
Proof.
  unfold how_many. induction l as [|t l IH]; [cbn; lia|].
  cbn [List.filter length].
  assert (H : won t = false ∨ lost t = false).
  { unfold won, lost. destruct (status t); auto. }
  destruct (won t), (lost t), H; try discriminate; cbn [length]; lia.
Qed.

Lemma sum_profit_loss_snoc l t :
  sum_profit_loss (l ++ [t])
  = match profit_loss t with
    | Some x => sum_profit_loss l + x
    | None => sum_profit_loss l
    end.
Proof. unfold sum_profit_loss. by rewrite fold_left_app. Qed.

Lemma sum_profit_loss_none l1 l2 :
  (∀ t, t ∈ l2 → profit_loss t = None) →
  sum_profit_loss (l1 ++ l2) = sum_profit_loss l1.
Proof.
  intros H. induction l2 as [|t l2 IH] using rev_ind.
  - by rewrite app_nil_r.
  - rewrite app_assoc, sum_profit_loss_snoc, (H t).
    + apply IH. intros t' Ht'. apply H. apply elem_of_app. by left.
    + apply elem_of_app. right. by left.
Qed.

(** The outcomes recorded by the risk manager are those of the completed
    trades, counted from the manager [rm0] the executor was given. *)
Definition told (rm0 : Risk.RiskManager) (ex : TradeExecutor) : Prop :=
  let st := Risk.stats (risk_manager ex) in
  Risk.winning_trades st
    = (Risk.winning_trades (Risk.stats rm0) + how_many won (completed_trades ex))%Z ∧
  Risk.losing_trades st
    = (Risk.losing_trades (Risk.stats rm0) + how_many lost (completed_trades ex))%Z ∧
  Risk.total_trades st
    = (Risk.total_trades (Risk.stats rm0) + how_many won (completed_trades ex)
       + how_many lost (completed_trades ex))%Z ∧
  Risk.total_profit_loss st
    == Risk.total_profit_loss (Risk.stats rm0)
       + sum_profit_loss (completed_trades ex).

Lemma told_same rm0 ex ex' :
  Risk.stats (risk_manager ex')
    = Risk.with_daily_profit_loss
        (Risk.daily_profit_loss (Risk.stats (risk_manager ex')))
        (Risk.stats (risk_manager ex)) →
  completed_trades ex' = completed_trades ex →
  told rm0 ex → told rm0 ex'.
Proof. unfold told. intros -> ->. done. Qed.

Lemma told_execute rm0 sig bal now now_end placed ex :
  told rm0 ex → told rm0 (execute_trade sig bal now now_end placed ex).2.
Proof.
  apply told_same.
  - pose proof (RiskOpsProps.assess_frame sig bal now (risk_manager ex)) as [_ H].
    cbv zeta in H. unfold execute_trade.
    destruct (Risk.assess_trade_risk sig bal now (risk_manager ex)) as [a rm].
    destruct (_generate_trade_id now (trade_counter ex)) as [tid counter].
    cbn [snd] in H.
    destruct (Risk.decision a); cbn [snd risk_manager]; try exact H;
      (destruct (_place_order _ placed) as [b|]; exact H).
  - unfold execute_trade.
    destruct (Risk.assess_trade_risk sig bal now (risk_manager ex)) as [a rm].
    destruct (_generate_trade_id now (trade_counter ex)) as [tid counter].
    destruct (Risk.decision a); cbn [snd]; try done;
      by destruct (_place_order _ placed) as [b|].
Qed.

Lemma told_push rm0 push now ex :
  told rm0 ex → told rm0 (handle_contract_update push now ex).
Proof.
  intros H. unfold handle_contract_update.
  destruct (info_contract_id _) as [cid|]; [|done].
  destruct (negb (truthy (Some cid))); [done|].
  destruct (contract_subscriptions ex !! cid) as [tid|]; [|done].
  destruct (dict_get tid (active_trades ex)) as [t|]; [|done].
  set (t1 := match current_spot _ with Some _ => _ | None => _ end).
  destruct (is_sold _); [|exact H].
  unfold _finalize_trade.
  destruct (match sell_spot _ with Some x => Some x | None => _ end) as [spot|];
    [|exact H].
  set (pl := _ - _). destruct H as (Hw & Hl & Ht & Hp). unfold told.
  cbn [with_tables risk_manager completed_trades].
  rewrite RiskOpsProps.record_stats, !how_many_snoc, sum_profit_loss_snoc.
  unfold Risk.update_stats.
  destruct (Py.Qgtb pl 0); cbn; rewrite ?Hw, ?Hl, ?Ht; split_and!; try lia;
    rewrite Hp; ring.
Qed.

Lemma told_moved rm0 ex ex' l :
  risk_manager ex' = risk_manager ex →
  completed_trades ex' = (completed_trades ex ++ l)%list →
  (∀ t, t ∈ l → won t = false ∧ lost t = false ∧ profit_loss t = None) →
  told rm0 ex → told rm0 ex'.
Proof.
  unfold told. intros -> -> Hl H.
  rewrite !how_many_none, sum_profit_loss_none; [done|intros t Ht; by apply Hl..].
Qed.

Lemma told_calls rm0 cs ex :
  sound ex → sorted_out ex → told rm0 ex → told rm0 (calls cs ex).
Proof.
  revert ex. induction cs as [|c cs IH]; intros ex Hs Ho H; [done|].
  cbn [calls fold_left].
  apply IH; [by apply sound_call|exact (sorted_out_calls [c] ex Hs Ho)|].
  destruct Hs as (Hwf & _). destruct Ho as [Ha _].
  assert (Hcancel : ∀ clock, told rm0 (cancel_all_active_trades clock ex)).
  { intros clock.
    destruct (cancel_all_spec clock ex Hwf) as (_ & E2 & _ & E3 & _).
    apply (told_moved rm0 ex _ _ E3 E2); [|done].
    intros t Ht. apply all_cancelled_elem in Ht as (now & k & t1 & -> & Ht).
    destruct (Ha k t1 Ht) as [_ Hpl]. done. }
  destruct c; cbn [call].
  - by apply told_execute.
  - by apply told_push.
  - destruct (sweep_spec now ex Hwf) as (_ & E2 & E3 & _).
    apply (told_moved rm0 ex _ _ E3 E2); [|done].
    intros t Ht. apply list_elem_of_fmap in Ht as [t0 [-> Ht]].
    apply list_elem_of_fmap in Ht as [[k t1] [-> Ht]].
    apply elem_of_filter in Ht as [Ht _].
    destruct (Ha k t1 Ht) as [_ Hpl]. done.
  - apply Hcancel.
  - unfold shutdown. destruct (active_trades ex); [done|]. apply Hcancel.
Qed.

(** X17: The executor tells the risk manager about a trade exactly when it
    completes it as WON or LOST, once.  So, whatever the executor is asked
    to do from a new one, the figures of [get_execution_stats] and the
    statistics of the risk manager agree: the manager's count of wins has
    grown by [winning_trades], its count of losses by [losing_trades],
    its total by both, and its total P&L by the sum that [total_pnl]
    rounds; a trade completed as ERROR or CANCELLED is counted in
    [total_completed_trades] only.  The executions are the successful
    plus the failed ones, and the successful ones are the active plus the
    completed trades. *)
Theorem execution_stats_agree cs rm :
  let ex := calls cs (init rm) in
  let s := get_execution_stats ex in
  let st := Risk.stats (risk_manager ex) in
  Risk.winning_trades st
    = (Risk.winning_trades (Risk.stats rm) + s_winning_trades s)%Z ∧
  Risk.losing_trades st
    = (Risk.losing_trades (Risk.stats rm) + s_losing_trades s)%Z ∧
  Risk.total_trades st
    = (Risk.total_trades (Risk.stats rm) + s_winning_trades s
       + s_losing_trades s)%Z ∧
  Risk.total_profit_loss st
    == Risk.total_profit_loss (Risk.stats rm)
       + sum_profit_loss (completed_trades ex) ∧
  s_total_pnl s = round (sum_profit_loss (completed_trades ex)) 2 ∧
  (s_winning_trades s + s_losing_trades s ≤ s_total_completed_trades s)%Z ∧
  s_total_executions s
    = (s_successful_executions s + s_failed_executions s)%Z ∧
  s_successful_executions s
    = (s_active_trades s + s_total_completed_trades s)%Z.
Proof.
  cbv zeta.
  destruct (told_calls rm cs (init rm) (sound_init rm) (sorted_out_init rm))
    as (Hw & Hl & Ht & Hp).
  { unfold told, how_many. cbn. split_and!; try lia. ring. }
  destruct (sound_calls cs (init rm) (sound_init rm))
    as (_ & _ & _ & _ & _ & Hte & Hlen).
  pose proof (how_many_bounds (completed_trades (calls cs (init rm)))).
  cbn [get_execution_stats s_winning_trades s_losing_trades s_total_pnl
       s_total_completed_trades s_total_executions s_successful_executions
       s_failed_executions s_active_trades].
  split_and!; try done; lia.
Qed.

End ExecutorOpsProps.

(** ** The rate limiter *)

Module RateLimiterProps.

Import Py RateLimiter RiskProps.
Local Open Scope Q_scope.

(** A call guarded by the limiter: it is made, and recorded at
    [sent_at], only if [can_proceed] allows it at [now]. *)
Definition guarded (rl : t) (times : Q * Q) : bool * t :=
  let '(ok, rl') := can_proceed times.1 rl in
  if ok then (true, record_call times.2 rl') else (false, rl').

(** The guarded calls that were made, each with the two clock readings,
    and the limiter after them. *)
Fixpoint made (ts : list (Q * Q)) (rl : t) : list (Q * Q) :=
  match ts with
  | [] => []
  | x :: ts' =>
      ((if (guarded rl x).1 then [x] else []) ++ made ts' (guarded rl x).2)%list
  end.

Definition after (ts : list (Q * Q)) (rl : t) : t :=
  fold_left (fun rl x => (guarded rl x).2) ts rl.

(** The clock does not run backwards along the calls. *)
Fixpoint clock_ok (t0 : Q) (ts : list (Q * Q)) : bool :=
  match ts with
  | [] => true
  | (now, sent_at) :: ts' =>
      Qle_bool t0 now && Qle_bool now sent_at && clock_ok sent_at ts'
  end.

(** A recorded call is still inside the window at [now]. *)
Definition inside (tw : Z) (now call_time : Q) : bool :=
  Qltb (now - call_time) (inject tw).

(** Every call of the log was made with fewer than [mc] earlier calls of
    the log inside its window. *)
Definition within_limit (mc tw : Z) (log : list (Q * Q)) : Prop :=
  ∀ i now sent, log !! i = Some (now, sent) →
    (Z.of_nat (length (List.filter (inside tw now) (map snd (take i log)))) < mc)%Z.

Lemma guarded_cases rl now sent :
  let kept := List.filter (inside (time_window rl) now) (calls rl) in
  guarded rl (now, sent)
  = if (Z.of_nat (length kept) <? max_calls rl)%Z
    then (true, mk (max_calls rl) (time_window rl) (kept ++ [sent]))
    else (false, mk (max_calls rl) (time_window rl) kept).
Proof.
  cbv zeta. unfold guarded, can_proceed, record_call. cbn [fst snd].
  fold (inside (time_window rl) now).
  by destruct (Z.of_nat _ <? max_calls rl)%Z.
Qed.

Lemma inside_later tw now now' t :
  now <= now' → inside tw now' t = true → inside tw now t = true.
Proof.
  unfold inside. intros Hle H. apply Qltb_lt in H. apply Qltb_lt. lra.
Qed.

Lemma filter_inside_later tw now now' l :
  now <= now' →
  List.filter (inside tw now') (List.filter (inside tw now) l)
  = List.filter (inside tw now') l.
Proof.
  intros Hle. induction l as [|t l IH]; [done|]. cbn.
  destruct (inside tw now t) eqn:E; cbn; rewrite IH; [done|].
  destruct (inside tw now' t) eqn:E'; [|done].
  apply (inside_later tw now now' t Hle) in E'. congruence.
Qed.

Lemma within_limit_snoc mc tw pre now sent :
  within_limit mc tw pre →
  (Z.of_nat (length (List.filter (inside tw now) (map snd pre))) < mc)%Z →
  within_limit mc tw (pre ++ [(now, sent)]).
Proof.
  intros Hpre Hnew i now' sent' Hi.
  destruct (decide (i < length pre)%nat) as [Hlt|Hge].
  - rewrite lookup_app_l in Hi by done. rewrite take_app_le by lia.
    by eapply Hpre.
  - assert (i = length pre) as ->.
    { apply lookup_lt_Some in Hi. rewrite length_app in Hi. cbn in Hi. lia. }
    rewrite list_lookup_middle in Hi by done. injection Hi as <- <-.
    by rewrite take_app_length.
Qed.

Lemma made_within_limit mc tw ts :
  ∀ t0 pre rl,
    max_calls rl = mc → time_window rl = tw →
    clock_ok t0 ts = true →
    (∀ now, t0 <= now →
       List.filter (inside tw now) (map snd pre)
       = List.filter (inside tw now) (calls rl)) →
    within_limit mc tw pre →
    within_limit mc tw (pre ++ made ts rl).
Proof.
  induction ts as [|[now sent] ts IH]; intros t0 pre rl Hmc Htw Hclock Hsame Hpre.
  - cbn. by rewrite app_nil_r.
  - cbn [clock_ok] in Hclock.
    apply andb_true_iff in Hclock as [Hclock Hrest].
    apply andb_true_iff in Hclock as [H0 H1].
    apply Qle_bool_iff in H0. apply Qle_bool_iff in H1.
    cbn [made]. rewrite guarded_cases. rewrite Hmc, Htw.
    set (kept := List.filter (inside tw now) (calls rl)).
    assert (Hkept : ∀ now', sent <= now' →
              List.filter (inside tw now') (map snd pre)
              = List.filter (inside tw now') kept).
    { intros now' Hle. unfold kept.
      rewrite filter_inside_later by lra. apply Hsame. lra. }
    destruct (Z.ltb_spec (Z.of_nat (length kept)) mc) as [Hlt|Hge]; cbn [fst snd].
    + rewrite app_assoc.
      apply (IH sent (pre ++ [(now, sent)])%list); try done.
      * intros now' Hle. cbn [calls].
        rewrite map_app, !List.filter_app. cbn [map snd].
        by rewrite Hkept.
      * apply within_limit_snoc; [done|]. rewrite Hsame by done. exact Hlt.
    + cbn [app]. by apply (IH sent pre).
Qed.

Lemma filter_length_le {A} (f : A → bool) l :
  (length (List.filter f l) ≤ length l)%nat.
Proof. induction l as [|x l IH]; cbn; [done|]. destruct (f x); cbn; lia. Qed.

Lemma after_bounded ts :
  ∀ rl, (Z.of_nat (length (calls rl)) ≤ Z.max 0 (max_calls rl))%Z →
    let rl' := after ts rl in
    max_calls rl' = max_calls rl ∧ time_window rl' = time_window rl ∧
    (Z.of_nat (length (calls rl')) ≤ Z.max 0 (max_calls rl))%Z.
Proof.
  induction ts as [|[now sent] ts IH]; intros rl H; [done|].
  unfold after. cbn [fold_left]. fold (after ts (guarded rl (now, sent)).2).
  rewrite guarded_cases.
  pose proof (filter_length_le (inside (time_window rl) now) (calls rl)) as Hk.
  set (kept := List.filter (inside (time_window rl) now) (calls rl)) in *.
  destruct (Z.ltb_spec (Z.of_nat (length kept)) (max_calls rl)) as [Hlt|Hge];
    cbn [snd].
  - assert (Hb : (Z.of_nat (length (kept ++ [sent])) ≤ Z.max 0 (max_calls rl))%Z).
    { rewrite length_app. cbn. lia. }
    exact (IH (mk (max_calls rl) (time_window rl) (kept ++ [sent])) Hb).
  - assert (Hb : (Z.of_nat (length kept) ≤ Z.max 0 (max_calls rl))%Z) by lia.
    exact (IH (mk (max_calls rl) (time_window rl) kept) Hb).
Qed.

(** X18: A limiter for [mc] calls per [tw] seconds, asked before every call
    and told of every call it allowed, keeps the limit as long as the
    clock does not run backwards: every call that is made has fewer than
    [mc] earlier calls that were made less than [tw] seconds before the
    reading at which it was allowed.  The limiter never remembers more
    than [mc] calls. *)
Theorem guarded_calls_keep_limit mc tw t0 ts :
  clock_ok t0 ts = true →
  within_limit mc tw (made ts (init mc tw)) ∧
  (Z.of_nat (length (calls (after ts (init mc tw)))) ≤ Z.max 0 mc)%Z.
Proof.
  intros Hclock. split.
  - by apply (made_within_limit mc tw ts t0 [] (init mc tw)).
  - apply (after_bounded ts (init mc tw)). cbn. lia.
Qed.

Definition two_calls : list (Q * Q) := [(1, 2); (3, 4)].

Lemma guarded_calls_keep_limit_witness :
  within_limit 1 60 (made two_calls (init 1 60)) ∧
  (Z.of_nat (length (calls (after two_calls (init 1 60)))) ≤ Z.max 0 1)%Z.
Proof.
  apply (guarded_calls_keep_limit 1 60 0 two_calls). vm_compute. reflexivity.
Defined.

End RateLimiterProps.

(** ** Reconnecting and restoring *)

Module ClientOpsProps.

Import WebSocket ClientOps.
Local Open Scope Z_scope.

(** *** The delays of [reconnect] *)

Lemma backoff_value n :
  1 ≤ n →
  (n ≤ 6 → backoff n = 5 * 2 ^ (n - 1)) ∧ (7 ≤ n → backoff n = 300) ∧
  5 ≤ backoff n ≤ 300.
Proof.
  intros Hn. unfold backoff, reconnect_delay.
  destruct (Z.le_gt_cases n 6) as [Hle|Hgt].
  - assert (n = 1 ∨ n = 2 ∨ n = 3 ∨ n = 4 ∨ n = 5 ∨ n = 6) as Hcases by lia.
    split_and!; try lia;
      destruct Hcases as [->|[->|[->|[->|[->| ->]]]]]; by vm_compute.
  - assert (2 ^ 6 ≤ 2 ^ (n - 1)) by (apply Z.pow_le_mono_r; lia).
    change (2 ^ 6) with 64 in *. split_and!; lia.
Qed.

Lemma failed_attempt_cases error c :
  failed_attempt error c
  = if reconnect_attempts (state c) >=? max_reconnect_attempts
    then (None, c)
    else (Some (backoff (reconnect_attempts (state c) + 1)),
          reconnect_resume (Some error)
            (with_state
               (mkState (connected (state c)) (authenticated (state c))
                  (last_ping (state c)) (reconnect_attempts (state c) + 1)
                  (last_error (state c))) c)).
Proof.
  unfold failed_attempt, reconnect_begin.
  by destruct (reconnect_attempts (state c) >=? max_reconnect_attempts).
Qed.

(** Attempts that fail one after the other from a count of [a]: the
    delays are those of the attempts [a + 1], [a + 2], ... up to the
    tenth. *)
Lemma failed_attempts_from error k :
  ∀ c, 0 ≤ reconnect_attempts (state c) →
    let a := reconnect_attempts (state c) in
    let m := (k `min` Z.to_nat (10 - a))%nat in
    (failed_attempts k error c).1
      = map (fun i => backoff (a + 1 + Z.of_nat i)) (seq 0 m) ∧
    reconnect_attempts (state (failed_attempts k error c).2) = a + Z.of_nat m.
Proof.
  induction k as [|k IH]; intros c Ha; cbv zeta.
  - cbn. split; [done|lia].
  - cbn [failed_attempts]. rewrite failed_attempt_cases.
    unfold max_reconnect_attempts.
    destruct (Z.geb_spec (reconnect_attempts (state c)) 10) as [Hge|Hlt].
    + replace (Z.to_nat (10 - reconnect_attempts (state c))) with 0%nat by lia.
      rewrite Nat.min_0_r. cbn. split; [done|lia].
    + set (c1 := reconnect_resume _ _).
      assert (Hc1 : reconnect_attempts (state c1)
                    = reconnect_attempts (state c) + 1) by done.
      destruct (IH c1) as [Hd Hn]; [lia|].
      destruct (failed_attempts k error c1) as [delays c2].
      cbn [fst snd] in *. rewrite Hc1 in Hd, Hn.
      replace (Z.to_nat (10 - reconnect_attempts (state c)))
        with (S (Z.to_nat (10 - (reconnect_attempts (state c) + 1)))) by lia.
      rewrite <- Nat.succ_min_distr. cbn [seq map]. split.
      * rewrite Hd, <- seq_shift, map_map. f_equal; [f_equal; lia|].
        apply map_ext. intros i. f_equal. lia.
      * rewrite Hn. lia.
Qed.

(** X19: From a client that has not failed yet, reconnection attempts whose
    transport fails one after the other sleep 5, 10, 20, 40, 80 and 160
    seconds and then 300 seconds each; after the tenth, [reconnect]
    returns at once without another attempt, however often it is called.
    An attempt whose transport opens sets the count back to 0. *)
Theorem reconnect_budget error k c :
  reconnect_attempts (state c) = 0 →
  let r := failed_attempts k error c in
  r.1 = take k [5; 10; 20; 40; 80; 160; 300; 300; 300; 300] ∧
  reconnect_attempts (state r.2) = Z.min (Z.of_nat k) 10 ∧
  ((10 ≤ k)%nat → reconnect_begin r.2 = None) ∧
  reconnect_attempts (state (reconnect_resume None r.2)) = 0.
Proof.
  intros H0. cbv zeta.
  destruct (failed_attempts_from error k c) as [Hd Hn]; [lia|].
  rewrite H0 in Hd, Hn. change (Z.to_nat (10 - 0)) with 10%nat in *.
  split_and!.
  - rewrite Hd, <- take_seq. change map with (@fmap list _). rewrite fmap_take.
    f_equal.
  - rewrite Hn. lia.
  - intros Hk. unfold reconnect_begin. rewrite Hn.
    unfold max_reconnect_attempts.
    by destruct (Z.geb_spec (0 + Z.of_nat (k `min` 10)) 10); [|lia].
  - done.
Qed.

Lemma reconnect_budget_witness :
  let r := failed_attempts 12 "refused" WebSocket.init in
  r.1 = take 12 [5; 10; 20; 40; 80; 160; 300; 300; 300; 300] ∧
  reconnect_attempts (state r.2) = Z.min (Z.of_nat 12) 10 ∧
  ((10 ≤ 12)%nat → reconnect_begin r.2 = None) ∧
  reconnect_attempts (state (reconnect_resume None r.2)) = 0.
Proof. apply (reconnect_budget "refused" 12 WebSocket.init). reflexivity. Defined.

(** *** Subscriptions over a reconnection *)

(** [old in s]. *)
Fixpoint occurs (old s : string) : bool :=
  startswith old s
  || match s with String _ s' => occurs old s' | EmptyString => false end.

Lemma remove_from_clean old s : occurs old s = false → remove_from old 0 s = s.
Proof.
  induction s as [|a s IH]; [done|]. cbn [occurs remove_from].
  intros H. apply orb_false_iff in H as [-> H]. by rewrite IH.
Qed.

Lemma remove_from_skip old p s :
  remove_from old (String.length p) (p ++ s) = remove_from old 0 s.
Proof. induction p as [|a p IH]; [done|]. cbn. exact IH. Qed.

Lemma startswith_app p s : startswith p (p ++ s) = true.
Proof.
  induction p as [|a p IH]; [done|].
  change (String a p ++ s)%string with (String a (p ++ s)).
  cbn [startswith]. by rewrite Ascii.eqb_refl, IH.
Qed.

Lemma restored_symbol_ticks symbol :
  occurs "ticks_" symbol = false →
  restored_symbol ("ticks_" ++ symbol) = Some symbol.
Proof.
  intros H. unfold restored_symbol. rewrite startswith_app.
  unfold remove_all.
  change ("ticks_" ++ symbol)%string with (String "t" ("icks_" ++ symbol)).
  cbn [remove_from].
  change (String "t" ("icks_" ++ symbol)) with ("ticks_" ++ symbol)%string.
  rewrite startswith_app.
  change (String.length "ticks_" - 1)%nat with (String.length "icks_").
  by rewrite remove_from_skip, remove_from_clean.
Qed.

(** X20: A symbol whose ticks were subscribed is asked for again by
    [_restore_subscriptions], also after the connection was closed and
    opened again in between, provided the symbol does not contain
    "ticks_" itself; and the tick handler registered by [subscribe_ticks]
    is kept over the reconnection. *)
Theorem subscription_restored symbol failure c :
  occurs "ticks_" symbol = false →
  symbol ∈ restored_symbols (subscribe_ticks_done symbol c) ∧
  symbol ∈ restored_symbols
             (reconnect_resume failure (subscribe_ticks_done symbol c)) ∧
  "tick"%string ∈ message_handlers
                    (reconnect_resume failure (subscribe_ticks_begin c)).
Proof.
  intros H.
  assert (Hin : ∀ c', ("ticks_" ++ symbol)%string ∈ subscriptions c' →
                      symbol ∈ restored_symbols c').
  { intros c' Hc. unfold restored_symbols. apply list_elem_of_omap.
    exists ("ticks_" ++ symbol)%string. split; [by apply elem_of_elements|].
    by apply restored_symbol_ticks. }
  split_and!.
  - apply Hin. cbn. set_solver.
  - apply Hin. destruct failure; cbn; set_solver.
  - destruct failure; cbn; set_solver.
Qed.

Lemma subscription_restored_witness :
  "1HZ10V"%string ∈ restored_symbols (subscribe_ticks_done "1HZ10V" WebSocket.init) ∧
  "1HZ10V"%string ∈ restored_symbols
             (reconnect_resume None (subscribe_ticks_done "1HZ10V" WebSocket.init)) ∧
  "tick"%string ∈ message_handlers
                    (reconnect_resume None (subscribe_ticks_begin WebSocket.init)).
Proof.
  apply (subscription_restored "1HZ10V" None WebSocket.init).
  vm_compute. reflexivity.
Defined.

End ClientOpsProps.
